(** * Reflectance recovery after Jakob and Hanika (2019)

    A shallow embedding of [colour/recovery/jakob2019.py] and the properties
    its specification states about it.

    Conventions of the embedding.
    - A numpy [float64] is an extended real [float64]: a real number, one of the
      two infinities, or NaN.  Arithmetic is exact: rounding, overflow and the
      sign of zero are not modelled.  Division by zero, the square root of a
      negative number and the indeterminate forms give what numpy gives
      (an infinity or NaN, never an exception).
    - Where rounding decides a property, the same source lines are embedded a
      second time over the binary64 numbers of the machine (module [B64]),
      and evaluated there.
    - A Python exception is a value [Raise e] of the [result] type.  Running
      out of memory ([MemoryError]) is not modelled: an array whose size the
      platform can express is allocated.
    - An object that the code mutates or copies lives in a store (the
      [objects] of a [state]), and the functions that touch it thread the
      state explicitly.
    - Functions of numpy, scipy and of the parts of the [colour] package that
      are outside the verified module are either modelled from their
      documentation or collected in the class [Externals]. *)

From Stdlib Require Import Floats.
From Stdlib Require Import Reals Lra Lia ZArith List String Sorted.
From Stdlib.Strings Require Import Byte.
From stdpp Require Import gmap.
Import ListNotations.

(* ================================================================== *)
(** * Part I. Definitions                                               *)
(* ================================================================== *)

(** ** Numbers *)

#[global] Instance R_eq_decision : EqDecision R := Req_dec_T.

Inductive float64 : Type :=
| Num (r : R)
| PInf
| NInf
| NaN.

Declare Scope float64_scope.
Delimit Scope float64_scope with f64.
Bind Scope float64_scope with float64.

Module F64.

(** The infinity with the sign of [r]; NaN when [r] is zero. *)
Definition signed_inf (r : R) : float64 :=
  match total_order_T r 0 with
  | inleft (left _) => NInf
  | inleft (right _) => NaN
  | inright _ => PInf
  end.

Definition opp (x : float64) : float64 :=
  match x with
  | Num a => Num (- a)
  | PInf => NInf
  | NInf => PInf
  | NaN => NaN
  end.

Definition add (x y : float64) : float64 :=
  match x, y with
  | NaN, _ | _, NaN => NaN
  | Num a, Num b => Num (a + b)
  | PInf, NInf | NInf, PInf => NaN
  | PInf, _ | _, PInf => PInf
  | NInf, _ | _, NInf => NInf
  end.

Definition sub (x y : float64) : float64 := add x (opp y).

Definition mul (x y : float64) : float64 :=
  match x, y with
  | NaN, _ | _, NaN => NaN
  | Num a, Num b => Num (a * b)
  | Num a, PInf | PInf, Num a => signed_inf a
  | Num a, NInf | NInf, Num a => signed_inf (- a)
  | PInf, PInf | NInf, NInf => PInf
  | PInf, NInf | NInf, PInf => NInf
  end.

(** [x / 0] is an infinity with the sign of [x], and [0 / 0] is NaN. *)
Definition div (x y : float64) : float64 :=
  match x, y with
  | NaN, _ | _, NaN => NaN
  | Num a, Num b => if Req_dec_T b 0 then signed_inf a else Num (a / b)
  | Num _, (PInf | NInf) => Num 0
  | PInf, Num b => if Rlt_dec b 0 then NInf else PInf
  | NInf, Num b => if Rlt_dec b 0 then PInf else NInf
  | (PInf | NInf), (PInf | NInf) => NaN
  end.

Definition sqrt (x : float64) : float64 :=
  match x with
  | Num a => if Rlt_dec a 0 then NaN else Num (R_sqrt.sqrt a)
  | PInf => PInf
  | NInf | NaN => NaN
  end.

(** [x ** y] for a positive exponent [y] that is not an integer (the code
    uses 1/3 and 2/3). *)
Definition pow (x : float64) (y : R) : float64 :=
  match x with
  | Num a =>
      match total_order_T a 0 with
      | inleft (left _) => NaN
      | inleft (right _) => Num 0
      | inright _ => Num (Rpower a y)
      end
  | PInf | NInf => PInf
  | NaN => NaN
  end.

(** numpy evaluates [x ** 2] as [x * x]. *)
Definition square (x : float64) : float64 := mul x x.
Definition cube (x : float64) : float64 := mul (mul x x) x.

Definition ltb (x y : float64) : bool :=
  match x, y with
  | NaN, _ | _, NaN => false
  | Num a, Num b => if Rlt_dec a b then true else false
  | NInf, (Num _ | PInf) => true
  | Num _, PInf => true
  | _, _ => false
  end.

Definition eqb (x y : float64) : bool :=
  match x, y with
  | Num a, Num b => if Req_dec_T a b then true else false
  | PInf, PInf | NInf, NInf => true
  | _, _ => false
  end.

Definition is_finite (x : float64) : Prop :=
  match x with Num _ => True | _ => False end.

End F64.

Infix "+" := F64.add : float64_scope.
Infix "-" := F64.sub : float64_scope.
Infix "*" := F64.mul : float64_scope.
Infix "/" := F64.div : float64_scope.
Notation "x ²" := (F64.square x) (at level 1, format "x ²") : float64_scope.

Definition vec3 : Type := float64 * float64 * float64.

(** ** Exceptions *)

Inductive exn : Type :=
| ValueError
| IndexError
| StructError
| AttributeError
| OverflowError
| TypeError.

Inductive result (A : Type) : Type :=
| Ok (a : A)
| Raise (e : exn).
Arguments Ok {A} a.
Arguments Raise {A} e.

#[global] Instance result_ret : MRet result := fun A a => Ok a.
#[global] Instance result_bind : MBind result := fun A B k m =>
  match m with
  | Ok a => k a
  | Raise e => Raise e
  end.

(** ** Spectral shapes and distributions *)

Record SpectralShape : Type := mkShape {
  start : R;
  end_ : R;
  interval : R
}.

(** Modelled from the spec: [SpectralShape.range] is not part of the verified
    module.  A shape "defines an ordered sequence of sample wavelengths
    start, start+interval, ..., end", that is one sample for each multiple of
    the interval that fits between start and end. *)
Definition range (shape : SpectralShape) : list float64 :=
  map (fun i : nat => Num (start shape + INR i * interval shape))
      (seq 0 (Z.to_nat (up ((end_ shape - start shape) / interval shape)))).

Definition DEFAULT_SPECTRAL_SHAPE_JAKOB_2019 : SpectralShape :=
  mkShape 360 780 5.

Inductive sd_name : Type :=
| Named (s : string)
| NamedByCoefficients (c : vec3)
| NamedByXYZ (c : vec3)
| NamedByRGB (c : vec3).

(** [SpectralDistribution(data, domain, name)]. *)
Record SpectralDistribution : Type := mkSD {
  values : list float64;
  wavelengths : list float64;
  name : sd_name
}.

(** ** The spectral model *)

Section Model.
Local Open Scope float64_scope.

(** [c_0 * w ** 2 + c_1 * w + c_2], the polynomial both [spectral_model]
    (over nanometres) and [error_function_Jakob2019] (over [[0,1]])
    evaluate. *)
Definition U_poly (coefficients : vec3) (w : float64) : float64 :=
  let '(c_0, c_1, c_2) := coefficients in
  c_0 * w² + c_1 * w + c_2.

Definition spectral_model (coefficients : vec3) (shape : SpectralShape)
    (name : option sd_name) : SpectralDistribution :=
  let wl := range shape in
  let U := map (U_poly coefficients) wl in
  let R_ := map (fun u => Num 1 / Num 2
                          + u / (Num 2 * F64.sqrt (Num 1 + u²))) U in
  let name := match name with
              | None => NamedByCoefficients coefficients
              | Some n => n
              end in
  mkSD R_ wl name.

Definition dimensionalise_coefficients (coefficients : vec3)
    (shape : SpectralShape) : vec3 :=
  let '(cp_0, cp_1, cp_2) := coefficients in
  let span := Num (end_ shape) - Num (start shape) in
  let c_0 := cp_0 / span² in
  let c_1 := cp_1 / span - Num 2 * cp_0 * Num (start shape) / span² in
  let c_2 := cp_0 * (Num (start shape))² / span²
             - cp_1 * Num (start shape) / span + cp_2 in
  (c_0, c_1, c_2).

(** Modelled from the spec: the source has no nondimensionalising function;
    the spec describes it as the normalisation of the wavelength axis to
    [[0,1]], the substitution [lambda = start + t * span] in the
    polynomial. *)
Definition nondimensionalise_coefficients (coefficients : vec3)
    (shape : SpectralShape) : vec3 :=
  let '(c_0, c_1, c_2) := coefficients in
  let span := Num (end_ shape) - Num (start shape) in
  (c_0 * span²,
   (Num 2 * c_0 * Num (start shape) + c_1) * span,
   c_0 * (Num (start shape))² + c_1 * Num (start shape) + c_2).

End Model.

(** ** numpy arrays *)

Section Numpy.
Local Open Scope float64_scope.

(** [a[i]] on a sequence: a negative index counts from the end, an index
    out of range raises [IndexError]. *)
Definition py_index {A : Type} (a : list A) (i : Z) : result A :=
  let n := Z.of_nat (length a) in
  let j := if (i <? 0)%Z then (i + n)%Z else i in
  if ((j <? 0) || (n <=? j))%Z then Raise IndexError
  else match a !! Z.to_nat j with
       | Some x => Ok x
       | None => Raise IndexError
       end.

(** An elementwise binary operation on one-dimensional arrays, with numpy's
    broadcasting: equal lengths, or one operand of length one; anything else
    raises [ValueError]. *)
Definition broadcast2 (f : float64 -> float64 -> float64)
    (a b : list float64) : result (list float64) :=
  if (length a =? length b)%nat then Ok (zip_with f a b)
  else match a, b with
       | [x], _ => Ok (map (f x) b)
       | _, [y] => Ok (map (fun x => f x y) a)
       | _, _ => Raise ValueError
       end.

Definition np_sum (a : list float64) : float64 :=
  fold_left F64.add a (Num 0).

(** [np.dot] of two one-dimensional arrays: the lengths must agree. *)
Definition np_dot (a b : list float64) : result float64 :=
  if (length a =? length b)%nat then Ok (np_sum (zip_with F64.mul a b))
  else Raise ValueError.

(** [np.linspace(start, stop, num)]: [num] equally spaced samples, the last
    one set to [stop]. *)
Definition linspace (start stop : float64) (num : nat) : list float64 :=
  let div := (num - 1)%nat in
  let delta := stop - start in
  let y := map (fun i : nat => Num (INR i)) (seq 0 num) in
  let y :=
    if (0 <? div)%nat then
      let step := delta / Num (INR div) in
      if F64.eqb step (Num 0)
      then map (fun v => v / Num (INR div) * delta) y
      else map (fun v => v * step) y
    else map (fun v => v * delta) y in
  let y := map (fun v => v + start) y in
  if (1 <? num)%nat then firstn (num - 1) y ++ [stop] else y.

Definition vget (v : vec3) (i : nat) : float64 :=
  let '(v0, v1, v2) := v in
  match i with
  | O => v0
  | S O => v1
  | _ => v2
  end.

Definition vbuild {A : Type} (f : nat -> A) : A * A * A :=
  (f 0%nat, f 1%nat, f 2%nat).

Definition vbuildM {A : Type} (f : nat -> result A) : result (A * A * A) :=
  a0 ← f 0%nat; a1 ← f 1%nat; a2 ← f 2%nat; Ok (a0, a1, a2).

Definition vmap2 (f : float64 -> float64 -> float64) (a b : vec3) : vec3 :=
  vbuild (fun i => f (vget a i) (vget b i)).

End Numpy.

Definition mat3 : Type := vec3 * vec3 * vec3.

(** An [array_like] argument of three numbers: a numpy array, whose items
    are numpy scalars, or a Python sequence (a list or a tuple) of Python
    numbers.  A triplet is read as a numpy array where nothing else is
    said. *)
Inductive array_like : Type :=
| NdArray (v : vec3)
| Sequence (v : vec3).

Coercion NdArray : vec3 >-> array_like.

(** [np.asarray(a)], which numpy applies to an operand of an array. *)
Definition asarray (a : array_like) : vec3 :=
  match a with NdArray v | Sequence v => v end.

(** [a[i] ** y] for a positive exponent [y] that is not an integer, as a
    value that an item of a float array can take.  On a numpy scalar this
    is numpy's power, NaN for a negative base.  On a Python number a
    negative base gives a complex number, and so does every product that it
    enters; storing it in a float array raises [TypeError]. *)
Definition item_pow (a : array_like) (i : nat) (y : R) : result float64 :=
  match a with
  | NdArray v => Ok (F64.pow (vget v i) y)
  | Sequence v =>
      match vget v i with
      | Num x => if Rlt_dec x 0 then Raise TypeError
                 else Ok (F64.pow (Num x) y)
      | x => Ok (F64.pow x y)
      end
  end.

Definition mget (m : mat3) (i j : nat) : float64 :=
  let '(r0, r1, r2) := m in
  vget (match i with O => r0 | S O => r1 | _ => r2 end) j.

(** ** The error function *)

(** [XYZ_ColourMatchingFunctions]: one row of three values per wavelength. *)
Record MultiSpectralDistributions : Type := mkMSD {
  msd_values : list vec3;
  msd_wavelengths : list float64;
  msd_name : sd_name
}.

(** [cmfs.values[:, i]]. *)
Definition column (i : nat) (a : list vec3) : list float64 :=
  map (fun row => vget row i) a.

(** The local variables of [error_function_Jakob2019] that its result or the
    properties below refer to. *)
Record error_function_locals : Type := mkLocals {
  ef_wv : list float64;
  ef_U : list float64;
  ef_R : list float64;
  ef_dR : list float64 * list float64 * list float64;
  ef_XYZ : vec3;
  ef_Lab : vec3;
  ef_dLab : mat3;
  ef_error : float64;
  ef_derror : vec3
}.

Section ErrorFunction.
Local Open Scope float64_scope.

Definition error_function_body (coefficients target : vec3)
    (shape : SpectralShape) (cmfs : MultiSpectralDistributions)
    (illuminant : SpectralDistribution) (illuminant_XYZ : array_like)
    : result error_function_locals :=
  let wv := linspace (Num 0) (Num 1) (length (range shape)) in
  let U := map (U_poly coefficients) wv in
  let t1 := map (fun u => F64.sqrt (Num 1 + u²)) U in
  let R_ := zip_with (fun u t => Num 1 / Num 2 + u / (Num 2 * t)) U t1 in
  let t2 := zip_with (fun u t => Num 1 / (Num 2 * t)
                                 - u² / (Num 2 * F64.cube t)) U t1 in
  let dR := (zip_with (fun w t => w² * t) wv t2,
             zip_with (fun w t => w * t) wv t2,
             t2) in
  E ← broadcast2 F64.mul (values illuminant) R_;
  dE ← (let '(dR0, dR1, dR2) := dR in
        dE0 ← broadcast2 F64.mul (values illuminant) dR0;
        dE1 ← broadcast2 F64.mul (values illuminant) dR1;
        dE2 ← broadcast2 F64.mul (values illuminant) dR2;
        Ok (dE0, dE1, dE2));
  w1 ← py_index (msd_wavelengths cmfs) 1;
  w0 ← py_index (msd_wavelengths cmfs) 0;
  let dw := w1 - w0 in
  cy ← broadcast2 F64.mul (column 1 (msd_values cmfs)) (values illuminant);
  let k := Num 100 / (np_sum cy * dw) in
  (* The two loops over [i] and [j]; every [np.dot] raises the same
     [ValueError], so the order in which they are sequenced is immaterial. *)
  XYZ ← vbuildM (fun i =>
    d ← np_dot E (column i (msd_values cmfs));
    Ok (k * d * dw));
  dXYZ ← vbuildM (fun i => vbuildM (fun j =>
    let '(dE0, dE1, dE2) := dE in
    d ← np_dot (match j with O => dE0 | S O => dE1 | _ => dE2 end)
               (column i (msd_values cmfs));
    Ok (k * d * dw)));
  let f : vec3 := vbuild (fun i =>
    F64.pow (vget XYZ i / vget (asarray illuminant_XYZ) i) (1 / 3)) in
  (* The loops that fill [df]; every item of a row raises the same
     [TypeError]. *)
  df ← vbuildM (fun i => vbuildM (fun j =>
    w ← item_pow illuminant_XYZ i (1 / 3);
    Ok (Num 1 / (Num 3 * w * F64.pow (vget XYZ i) (2 / 3))
        * mget dXYZ i j)));
  let Lab : vec3 :=
    (Num 116 * vget f 1 - Num 16,
     Num 500 * (vget f 0 - vget f 1),
     Num 200 * (vget f 1 - vget f 2)) in
  let dLab : mat3 :=
    (vbuild (fun j => Num 116 * mget df 1 j),
     vbuild (fun j => Num 500 * (mget df 0 j - mget df 1 j)),
     vbuild (fun j => Num 200 * (mget df 1 j - mget df 2 j))) in
  let error := F64.sqrt (np_sum (map F64.square
    [vget Lab 0 - vget target 0;
     vget Lab 1 - vget target 1;
     vget Lab 2 - vget target 2])) in
  let derror : vec3 := vbuild (fun i =>
    (Num 0
     + mget dLab 0 i * (vget Lab 0 - vget target 0)
     + mget dLab 1 i * (vget Lab 1 - vget target 1)
     + mget dLab 2 i * (vget Lab 2 - vget target 2)) / error) in
  Ok (mkLocals wv U R_ dR XYZ Lab dLab error derror).

Inductive error_function_output : Type :=
| ErrorGradient (error : float64) (derror : vec3)
| ErrorGradientIntermediates (error : float64) (derror : vec3)
    (R_ : list float64) (XYZ Lab : vec3).

Definition error_function_Jakob2019 (coefficients target : vec3)
    (shape : SpectralShape) (cmfs : MultiSpectralDistributions)
    (illuminant : SpectralDistribution) (illuminant_XYZ : array_like)
    (return_intermediates : bool) : result error_function_output :=
  l ← error_function_body coefficients target shape cmfs illuminant
        illuminant_XYZ;
  if return_intermediates
  then Ok (ErrorGradientIntermediates (ef_error l) (ef_derror l) (ef_R l)
             (ef_XYZ l) (ef_Lab l))
  else Ok (ErrorGradient (ef_error l) (ef_derror l)).

End ErrorFunction.

(** ** Binary files *)

#[global] Instance byte_eq_decision : EqDecision byte := byte_eq_dec.

Definition byte_val (b : byte) : Z := Z.of_N (Byte.to_N b).

(** The file object: the bytes that remain to be read. *)
Definition file : Type := list byte.

(** [fd.read(n)]: up to [n] bytes. *)
Definition read (n : nat) (fd : file) : list byte * file :=
  (take n fd, drop n fd).

Definition le_u32 (b0 b1 b2 b3 : byte) : Z :=
  byte_val b0 + 256 * byte_val b1 + 65536 * byte_val b2
  + 16777216 * byte_val b3.

(** [struct.unpack('i', b)[0]]: a signed 32-bit integer in native
    (little-endian) byte order; anything but four bytes raises
    [struct.error]. *)
Definition unpack_i (b : list byte) : result Z :=
  match b with
  | [b0; b1; b2; b3] =>
      let u := le_u32 b0 b1 b2 b3 in
      Ok (if u <? 2 ^ 31 then u else u - 2 ^ 32)%Z
  | _ => Raise StructError
  end.

(** The number a 32-bit IEEE 754 pattern denotes. *)
Definition float32_of_bits (w : Z) : float64 :=
  let sign := Z.testbit w 31 in
  let e := Z.land (Z.shiftr w 23) 255 in
  let m := Z.land w (2 ^ 23 - 1) in
  if (e =? 255)%Z then
    if (m =? 0)%Z then (if sign then NInf else PInf) else NaN
  else
    let mag := if (e =? 0)%Z then (IZR m * powerRZ 2 (-149))%R
               else (IZR (2 ^ 23 + m) * powerRZ 2 (e - 150))%R in
    Num (if sign then - mag else mag)%R.

Fixpoint decode_float32s (b : list byte) : list float64 :=
  match b with
  | b0 :: b1 :: b2 :: b3 :: b' =>
      float32_of_bits (le_u32 b0 b1 b2 b3) :: decode_float32s b'
  | _ => []
  end.

(** [np.fromfile(fd, count=count, dtype=np.float32)].  The count is
    converted to a C [ssize_t], which raises [OverflowError] outside
    [-2^63 .. 2^63 - 1].  Then [count] items are read, or every remaining
    item when [count] is negative; when the file holds fewer items the
    array is shorter, and no error is raised. *)
Definition fromfile (fd : file) (count : Z) : result (list float64 * file) :=
  if ((count <? - 2 ^ 63) || (2 ^ 63 <=? count))%Z then Raise OverflowError
  else
    let avail := (length fd / 4)%nat in
    let n :=
      if (count <? 0)%Z then avail else Nat.min (Z.to_nat count) avail in
    Ok (decode_float32s (take (4 * n) fd), drop (4 * n) fd).

(** ** n-dimensional arrays and the grid interpolator *)

(** A row-major array: its shape and its items. *)
Record ndarray : Type := mkArray {
  shape : list nat;
  data : list float64
}.

(** [a.reshape(dims)]: the sizes must be non-negative (the code never passes
    a single -1) and multiply to the number of items. *)
Definition reshape (a : list float64) (dims : list Z) : result ndarray :=
  if forallb (fun d => 0 <=? d)%Z dims
     && (Z.of_nat (length a) =? fold_right Z.mul 1 dims)%Z
  then Ok (mkArray (map Z.to_nat dims) a)
  else Raise ValueError.

(** One index of a numpy subscript: negative indices wrap, indices out of
    range raise [IndexError]. *)
Definition wrap_index (n : nat) (i : Z) : result Z :=
  let j := if (i <? 0)%Z then (i + Z.of_nat n)%Z else i in
  if ((j <? 0) || (Z.of_nat n <=? j))%Z then Raise IndexError else Ok j.

(** The flat offset of a (partial) subscript, by Horner's rule over the
    leading axes. *)
Fixpoint offset (dims : list nat) (idx : list Z) (acc : Z) : result Z :=
  match dims, idx with
  | n :: dims', i :: idx' =>
      j ← wrap_index n i; offset dims' idx' (acc * Z.of_nat n + j)%Z
  | _, [] => Ok (fold_left (fun a n => a * Z.of_nat n)%Z dims acc)
  | [], _ :: _ => Raise IndexError
  end.

(** [values[e0, e1, e2, e3]] on an array whose last axis has length three. *)
Definition getitem3 (a : ndarray) (idx : list Z) : result vec3 :=
  o ← offset (shape a) idx 0;
  match drop (Z.to_nat o) (data a) with
  | v0 :: v1 :: v2 :: _ => Ok (v0, v1, v2)
  | _ => Raise IndexError
  end.

(** [scipy.interpolate.RegularGridInterpolator], method "linear". *)
Record RegularGridInterpolator : Type := mkRGI {
  grid : list (list float64);
  rgi_values : ndarray;
  bounds_error : bool;
  fill_value : option float64
}.

Section Interpolation.
Local Open Scope float64_scope.

(** [np.all(np.diff(p) > 0.)]. *)
Fixpoint strictly_ascending (p : list float64) : bool :=
  match p with
  | x :: (y :: _) as p' => F64.ltb (Num 0) (y - x) && strictly_ascending p'
  | _ => true
  end.

(** The constructor checks each axis against the values, as the releases of
    scipy did when the module was written (later ones also take strictly
    descending axes, which this one refuses). *)
Definition RegularGridInterpolator_init (points : list (list float64))
    (values : ndarray) (bounds_error : bool)
    : result RegularGridInterpolator :=
  if (length (shape values) <? length points)%nat then Raise ValueError
  else if forallb strictly_ascending points
          && forallb (fun '(p, n) => (length p =? n)%nat)
               (zip points (shape values))
  then Ok (mkRGI points values bounds_error (Some NaN))
  else Raise ValueError.

(** The order numpy sorts by: NaN comes after every number. *)
Definition sort_lt (x y : float64) : bool :=
  match x, y with
  | NaN, _ => false
  | _, NaN => true
  | _, _ => F64.ltb x y
  end.

(** [np.searchsorted(a, v)] on an ascending array: the number of items
    that come before [v]. *)
Fixpoint searchsorted (a : list float64) (v : float64) : Z :=
  match a with
  | y :: a' => if sort_lt y v then (1 + searchsorted a' v)%Z else 0%Z
  | [] => 0%Z
  end.

(** One axis of [_find_indices]: the lower edge, the normalised distance to
    it, and whether the coordinate is out of bounds. *)
Definition find_index (g : list float64) (x : float64)
    : result (Z * float64 * bool) :=
  let size := Z.of_nat (length g) in
  let i := (searchsorted g x - 1)%Z in
  let i := if (i <? 0)%Z then 0%Z else i in
  let i := if (size - 2 <? i)%Z then (size - 2)%Z else i in
  gi ← py_index g i;
  gi1 ← py_index g (i + 1);
  let norm_distance := (x - gi) / (gi1 - gi) in
  g0 ← py_index g 0;
  glast ← py_index g (-1);
  Ok (i, norm_distance, F64.ltb x g0 || F64.ltb glast x).

Fixpoint find_indices (grid : list (list float64)) (xi : list float64)
    : result (list (Z * float64) * bool) :=
  match xi, grid with
  | x :: xi', g :: grid' =>
      '(i, y, o) ← find_index g x;
      '(rest, out_of_bounds) ← find_indices grid' xi';
      Ok ((i, y) :: rest, o || out_of_bounds)
  | _, _ => Ok ([], false)
  end.

(** The corners [itertools.product] enumerates from the pairs
    [[i, i + 1]], one pair for each axis, each corner with
    its weight: the product over the axes of [1 - y] at the lower edge and
    [y] at the upper one. *)
Fixpoint edges (indices : list (Z * float64)) (e : list Z) (weight : float64)
    : list (list Z * float64) :=
  match indices with
  | (i, y) :: rest =>
      edges rest (e ++ [i]) (weight * (Num 1 - y))
      ++ edges rest (e ++ [(i + 1)%Z]) (weight * y)
  | [] => [(e, weight)]
  end.

Definition vadd (a b : vec3) : vec3 := vmap2 F64.add a b.
Definition vscale (a : vec3) (w : float64) : vec3 :=
  vbuild (fun i => vget a i * w).

Fixpoint accumulate (values : ndarray) (corners : list (list Z * float64))
    (acc : vec3) : result vec3 :=
  match corners with
  | (e, w) :: corners' =>
      v ← getitem3 values e;
      accumulate values corners' (vadd acc (vscale v w))
  | [] => Ok acc
  end.

Definition evaluate_linear (values : ndarray) (indices : list (Z * float64))
    : result vec3 :=
  accumulate values (edges indices [] (Num 1)) (Num 0, Num 0, Num 0).

(** [interpolator(xi)] for one point [xi]. *)
Definition RegularGridInterpolator_call (self : RegularGridInterpolator)
    (xi : list float64) : result vec3 :=
  if negb (length xi =? length (grid self))%nat then Raise ValueError
  else
    '(indices, out_of_bounds) ← find_indices (grid self) xi;
    if bounds_error self && out_of_bounds then Raise ValueError
    else
      result ← evaluate_linear (rgi_values self) indices;
      match fill_value self with
      | Some fill =>
          if negb (bounds_error self) && out_of_bounds
          then Ok (fill, fill, fill)
          else Ok result
      | None => Ok result
      end.

End Interpolation.

(** ** The table interpolator *)

(** The attributes of a [Jakob2019Interpolator] object; [None] is an
    attribute that has not been assigned. *)
Record Jakob2019Interpolator : Type := mkInterpolator {
  res : option Z;
  scale : option (list float64);
  cubes : option RegularGridInterpolator
}.

(** [Jakob2019Interpolator()]: [__init__] assigns nothing. *)
Definition Jakob2019Interpolator_init : Jakob2019Interpolator :=
  mkInterpolator None None None.

Definition SPEC : list byte := [x53; x50; x45; x43].

Section Interpolator.
Local Open Scope float64_scope.

(** [from_file] on the content of the file at [path].  The object is
    mutated in place, so its state is returned whether or not an exception
    is raised. *)
Definition from_file (self : Jakob2019Interpolator) (content : list byte)
    : Jakob2019Interpolator * result unit :=
  let '(magic, fd) := read 4 content in
  if decide (magic ≠ SPEC) then (self, Raise ValueError)
  else
    let '(b, fd) := read 4 fd in
    match unpack_i b with
    | Raise e => (self, Raise e)
    | Ok n =>
        let self := mkInterpolator (Some n) (scale self) (cubes self) in
        match fromfile fd n with
        | Raise e => (self, Raise e)
        | Ok (sc, fd) =>
            let self := mkInterpolator (res self) (Some sc) (cubes self) in
            match fromfile fd (3 * n ^ 3 * 3) with
            | Raise e => (self, Raise e)
            | Ok (coeffs, fd) =>
                match reshape coeffs [3; n; n; n; 3]%Z with
                | Raise e => (self, Raise e)
                | Ok coeffs =>
                    let samples := linspace (Num 0) (Num 1) (Z.to_nat n) in
                    let axes :=
                      [[Num 0; Num 1; Num 2]; sc; samples; samples] in
                    match RegularGridInterpolator_init axes coeffs false with
                    | Raise e => (self, Raise e)
                    | Ok c =>
                        (mkInterpolator (res self) (scale self) (Some c),
                         Ok ())
                    end
                end
            end
        end
    end.

(** [np.max] over the last axis: NaN propagates. *)
Definition np_max3 (v : vec3) : float64 :=
  let maximum a b :=
    match a, b with
    | NaN, _ | _, NaN => NaN
    | _, _ => if F64.ltb a b then b else a
    end in
  let '(r, g, b) := v in maximum (maximum r g) b.

(** [np.argmax] over the last axis: the first maximum, or the first NaN. *)
Definition np_argmax3 (v : vec3) : nat :=
  let isnan a := match a with NaN => true | _ => false end in
  let '(r, g, b) := v in
  if isnan r then 0%nat
  else if isnan g then 1%nat
  else if isnan b then 2%nat
  else if F64.ltb r g || F64.ltb r b
       then (if F64.ltb g b then 2%nat else 1%nat)
       else 0%nat.

(** The interpolation coordinates of an [RGB] triplet. *)
Definition coordinates (RGB : vec3) : list float64 :=
  let vmax := np_max3 RGB in
  let imax := np_argmax3 RGB in
  let chroma := vbuild (fun i => vget RGB i / (vmax + Num (1 / 10 ^ 10))) in
  let vmax := np_max3 RGB in
  let v2 := vget chroma ((imax + 2) mod 3) in
  let v3 := vget chroma ((imax + 1) mod 3) in
  [Num (INR imax); vmax; v2; v3].

Definition coefficients (self : Jakob2019Interpolator) (RGB : vec3)
    : result vec3 :=
  match cubes self with
  | None => Raise AttributeError
  | Some c => RegularGridInterpolator_call c (coordinates RGB)
  end.

Definition RGB_to_sd (self : Jakob2019Interpolator) (RGB : vec3)
    (shape : SpectralShape) : result SpectralDistribution :=
  c ← coefficients self RGB;
  Ok (spectral_model c shape (Some (NamedByRGB RGB))).

End Interpolator.

(** ** The coefficient solver *)

(** [scipy.optimize.OptimizeResult], the two fields the code reads. *)
Record OptimizeResult : Type := mkOpt {
  opt_x : vec3;
  opt_fun : float64
}.

(** What the solver uses from outside the verified module: properties and
    methods of the spectral classes, colorimetric conversions and the
    optimiser.  [align sd shape] is the state of the object [sd] after
    [sd.align(shape)]. *)
Class Externals : Type := {
  sd_shape : SpectralDistribution -> SpectralShape;
  msd_shape : MultiSpectralDistributions -> SpectralShape;
  align : SpectralDistribution -> SpectralShape -> SpectralDistribution;
  sd_to_XYZ : SpectralDistribution -> vec3;
  XYZ_to_xy : vec3 -> float64 * float64;
  XYZ_to_Lab : vec3 -> float64 * float64 -> vec3;
  minimize : (vec3 -> result error_function_output) -> vec3
             -> result OptimizeResult
}.

(** Modelled from the spec: [SpectralShape.__ne__] is not part of the
    verified module.  A shape is the descriptor "(start, end, interval)",
    and two shapes differ when their descriptors do. *)
Definition shape_ne (a b : SpectralShape) : bool :=
  negb (bool_decide (start a = start b)
        && bool_decide (end_ a = end_ b)
        && bool_decide (interval a = interval b)).

(** Objects are passed by reference. *)
Definition loc : Type := nat.

Inductive object : Type :=
| SD (sd : SpectralDistribution)
| MSD (cmfs : MultiSpectralDistributions).

(** [runtime_warning(...)]: the warnings issued so far. *)
Inductive warning : Type :=
| AligningIlluminant (illuminant_name cmfs_name : sd_name).

Record state : Type := mkState {
  objects : gmap loc object;
  warnings : list warning
}.

Definition get_sd (s : state) (l : loc) : result SpectralDistribution :=
  match objects s !! l with
  | Some (SD sd) => Ok sd
  | _ => Raise AttributeError
  end.

Definition get_msd (s : state) (l : loc) : result MultiSpectralDistributions :=
  match objects s !! l with
  | Some (MSD cmfs) => Ok cmfs
  | _ => Raise AttributeError
  end.

Definition runtime_warning (s : state) (w : warning) : state :=
  mkState (objects s) (warnings s ++ [w]).

(** [sd.copy()]: a new object with the same content. *)
Definition copy (s : state) (sd : SpectralDistribution) : state * loc :=
  let l := fresh (dom (objects s)) in
  (mkState (<[l := SD sd]> (objects s)) (warnings s), l).

Section Solver.
Context `{Externals}.
Local Open Scope float64_scope.

(** [sd.align(shape)] mutates the object in place and returns it. *)
Definition align_in_place (s : state) (l : loc) (shape : SpectralShape)
    : state * result loc :=
  match get_sd s l with
  | Ok sd => (mkState (<[l := SD (align sd shape)]> (objects s)) (warnings s),
              Ok l)
  | Raise e => (s, Raise e)
  end.

Definition coefficients_Jakob2019 (s : state) (target_XYZ : vec3)
    (cmfs illuminant : loc) (coefficients_0 : vec3) (dimensionalise : bool)
    : state * result (vec3 * float64) :=
  match get_sd s illuminant, get_msd s cmfs with
  | Raise e, _ | Ok _, Raise e => (s, Raise e)
  | Ok illuminant_sd, Ok cmfs_sd =>
      let '(s, illuminant) :=
        if shape_ne (sd_shape illuminant_sd) (msd_shape cmfs_sd) then
          let s := runtime_warning s
                     (AligningIlluminant (name illuminant_sd)
                        (msd_name cmfs_sd)) in
          let '(s, l) := copy s illuminant_sd in
          align_in_place s l (msd_shape cmfs_sd)
        else (s, Ok illuminant) in
      (s,
       illuminant ← illuminant;
       illuminant_sd ← get_sd s illuminant;
       let shape := sd_shape illuminant_sd in
       let illuminant_XYZ : vec3 :=
         vbuild (fun i => vget (sd_to_XYZ illuminant_sd) i / Num 100) in
       let illuminant_xy := XYZ_to_xy illuminant_XYZ in
       let target := XYZ_to_Lab target_XYZ illuminant_xy in
       opt ← minimize
               (fun x => error_function_Jakob2019 x target shape cmfs_sd
                           illuminant_sd illuminant_XYZ false)
               coefficients_0;
       let coefficients :=
         if dimensionalise then dimensionalise_coefficients (opt_x opt) shape
         else opt_x opt in
       Ok (coefficients, opt_fun opt))
  end.

Definition XYZ_to_sd_Jakob2019 (s : state) (target_XYZ : vec3)
    (cmfs illuminant : loc) (return_error : bool)
    : state * result (SpectralDistribution * option float64) :=
  let '(s, r) := coefficients_Jakob2019 s target_XYZ cmfs illuminant
                   (Num 0, Num 0, Num 0) true in
  (s,
   '(coefficients, error) ← r;
   cmfs_sd ← get_msd s cmfs;
   let sd := spectral_model coefficients (msd_shape cmfs_sd)
               (Some (NamedByXYZ target_XYZ)) in
   Ok (sd, if return_error then Some error else None)).

End Solver.

(** ** Finite triplets *)

Definition R3 : Type := R * R * R.

(** A triplet, or a 3x3 matrix, of finite numbers. *)
Definition vnum (v : R3) : vec3 :=
  let '(a, b, c) := v in (Num a, Num b, Num c).

Definition mnum (m : R3 * R3 * R3) : mat3 :=
  let '(r0, r1, r2) := m in (vnum r0, vnum r1, vnum r2).

Section Distance.
Local Open Scope R_scope.

(** The Euclidean distance between two triplets (the CIE76 colour
    difference when they are Lab triplets). *)
Definition euclidean_distance (a b : R3) : R :=
  let '(a0, a1, a2) := a in
  let '(b0, b1, b2) := b in
  sqrt ((a0 - b0) * (a0 - b0) + (a1 - b1) * (a1 - b1) + (a2 - b2) * (a2 - b2)).

(** [sum_j dLab[j][i] * (Lab[j] - target[j])], for the column [i] of
    [dLab] given as a triplet. *)
Definition weighted_difference (column : R3) (Lab target : R3) : R :=
  let '(d0, d1, d2) := column in
  let '(a0, a1, a2) := Lab in
  let '(b0, b1, b2) := target in
  d0 * (a0 - b0) + d1 * (a1 - b1) + d2 * (a2 - b2).

Definition column3 (m : R3 * R3 * R3) (i : nat) : R3 :=
  let pick (r : R3) : R :=
    let '(x, y, z) := r in
    match i with O => x | S O => y | _ => z end in
  let '(r0, r1, r2) := m in (pick r0, pick r1, pick r2).

(** The span of a shape in nanometres. *)
Definition span (shape : SpectralShape) : R := end_ shape - start shape.

End Distance.

(** ** Sample data *)

(** A two-sample shape with an equal-energy illuminant and flat
    colour-matching functions over it; the properties below are exercised
    on them. *)
Definition unit_shape : SpectralShape := mkShape 0 1 1.

Definition flat_illuminant : SpectralDistribution :=
  mkSD [Num 1; Num 1] [Num 0; Num 1] (Named "E").

Definition flat_cmfs : MultiSpectralDistributions :=
  mkMSD [(Num 1, Num 1, Num 1); (Num 1, Num 1, Num 1)] [Num 0; Num 1]
    (Named "flat").

Definition grey : vec3 := (Num 0, Num 0, Num 0).

Definition unit_white : vec3 := (Num 1, Num 1, Num 1).

(** ** Loaded tables and their grid *)

(** An interpolator object on which [from_file] has returned. *)
Definition loaded (self : Jakob2019Interpolator) : Prop :=
  exists (self0 : Jakob2019Interpolator) (content : list byte),
    from_file self0 content = (self, Ok ()).

(** [x] lies outside the range from [lo] to [hi]. *)
Definition outside (lo hi x : float64) : bool :=
  F64.ltb x lo || F64.ltb hi x.

(** The coordinates [(imax, vmax, v2, v3)] fall outside the axis ranges of
    a grid whose second axis is [scale]: the channel index outside
    [[0, 2]], [vmax] outside the range of [scale], or [v2] or [v3] outside
    [[0, 1]]. *)
Definition outside_axes (scale : list float64) (xi : list float64) : bool :=
  match xi, scale !! 0%nat, scale !! (length scale - 1)%nat with
  | [imax; vmax; v2; v3], Some lo, Some hi =>
      outside (Num 0) (Num 2) imax
      || outside lo hi vmax
      || outside (Num 0) (Num 1) v2
      || outside (Num 0) (Num 1) v3
  | _, _, _ => false
  end.

(** The number of items of an array with the dimensions [ds]. *)
Definition zprod (ds : list nat) : Z :=
  fold_right (fun d p => Z.of_nat d * p)%Z 1%Z ds.

(** [c] is a corner of the cell with the lower edges [indices]. *)
Definition corner (indices : list (Z * float64)) (c : list Z) : Prop :=
  Forall2 (fun (iy : Z * float64) (x : Z) => x = iy.1 \/ x = (iy.1 + 1)%Z)
    indices c.

(** Componentwise sum and scaling of finite triplets. *)
Definition r3_add (a b : R3) : R3 :=
  let '(a0, a1, a2) := a in
  let '(b0, b1, b2) := b in
  (a0 + b0, a1 + b1, a2 + b2)%R.

Definition r3_scale (a : R3) (w : R) : R3 :=
  let '(a0, a1, a2) := a in (a0 * w, a1 * w, a2 * w)%R.



(** The real number a finite [float64] holds. *)
Definition to_real (x : float64) : R :=
  match x with Num r => r | _ => 0%R end.

Definition vreal (v : vec3) : R3 :=
  let '(a, b, c) := v in (to_real a, to_real b, to_real c).


(** A table of resolution 2 with the scale axis [0, 1] and every
    coefficient zero. *)
Definition zero_table : list byte :=
  SPEC ++ [x02; x00; x00; x00]
  ++ [x00; x00; x00; x00] ++ [x00; x00; x80; x3f]
  ++ repeat x00 288.

(** A file that declares the resolution 2 and ends there. *)
Definition truncated_table : list byte := SPEC ++ [x02; x00; x00; x00].

(** ** Sample surroundings of the solver *)

(** The shape of a list of wavelengths: its first and last item and the
    step between the first two. *)
Definition shape_of (wl : list float64) : SpectralShape :=
  match map to_real wl with
  | w0 :: w1 :: rest => mkShape w0 (List.last rest w1) (w1 - w0)
  | _ => mkShape 0 0 1
  end.

(** A stand-in for the surroundings of the solver: distributions resampled
    by repeating their first value, an equal-energy white and an optimiser
    that stops at its starting point. *)
Definition sample_externals : Externals := {|
  sd_shape sd := shape_of (wavelengths sd);
  msd_shape cmfs := shape_of (msd_wavelengths cmfs);
  align sd shape :=
    mkSD (map (fun _ => hd (Num 0) (values sd)) (range shape)) (range shape)
      (name sd);
  sd_to_XYZ sd := (Num 100, Num 100, Num 100);
  XYZ_to_xy XYZ := (Num (1 / 3), Num (1 / 3));
  XYZ_to_Lab XYZ xy := XYZ;
  minimize f x0 :=
    match f x0 with
    | Ok (ErrorGradient error _)
    | Ok (ErrorGradientIntermediates error _ _ _ _) => Ok (mkOpt x0 error)
    | Raise e => Raise e
    end
|}.

(** An illuminant sampled at 0 and 2, so not on the shape of [flat_cmfs]. *)
Definition wide_illuminant : SpectralDistribution :=
  mkSD [Num 1; Num 1] [Num 0; Num 2] (Named "wide").

Definition sample_state : state :=
  mkState (<[0%nat := MSD flat_cmfs]>
             (<[1%nat := SD flat_illuminant]>
                (<[2%nat := SD wide_illuminant]> ∅)))
    [].

(** ** Notions used by the further properties *)

(** Linear interpolation nested over the axes of a cell: along each axis,
    between the value at the lower edge [i] and the one at the upper edge
    [i + 1], at the normalised distance [y]. *)
Fixpoint multilinear (V : list Z -> R3) (iys : list (Z * R)) (e : list Z)
    : R3 :=
  match iys with
  | (i, y) :: rest =>
      r3_add (r3_scale (multilinear V rest (e ++ [i])) (1 - y))
             (r3_scale (multilinear V rest (e ++ [(i + 1)%Z])) y)
  | [] => V e
  end.

(** A cell with finite normalised distances. *)
Definition finite_cell (iys : list (Z * R)) : list (Z * float64) :=
  map (fun iy : Z * R => (iy.1, Num iy.2)) iys.

(** Every component of a triplet lies between [lo] and [hi]. *)
Definition within (lo hi : R) (t : R3) : Prop :=
  let '(a, b, c) := t in
  (lo <= a <= hi /\ lo <= b <= hi /\ lo <= c <= hi)%R.

(** The finite triplet an array holds at a subscript; zero where the
    subscript is out of range or an item is not finite. *)
Definition entry (values : ndarray) (idx : list Z) : R3 :=
  vreal (match getitem3 values idx with
         | Ok v => v
         | Raise _ => (NaN, NaN, NaN)
         end).

(** The channel [i] of a triplet of reals. *)
Definition channel (rgb : R3) (i : nat) : R :=
  let '(r, g, b) := rgb in
  match i with O => r | S O => g | _ => b end.

(** A number between [lo] and [hi]. *)
Definition bounded (lo hi : R) (v : float64) : Prop :=
  exists x : R, v = Num x /\ (lo <= x <= hi)%R.

(** The cell [i] of an axis, from [a] to [b], holds the coordinate [x]. *)
Definition holds (rs : list R) (x : R) (i : nat) (a b : R) : Prop :=
  rs !! i = Some a /\ rs !! S i = Some b /\ (a <= x <= b)%R /\ (a < b)%R.

(** The reflectance [1/2 + u / (2 * sqrt(1 + u^2))] of a real [u]. *)
Definition sigmoid (u : R) : R := (1 / 2 + u / (2 * sqrt (1 + u * u)))%R.

(** [-c] on a triplet. *)
Definition vopp (c : vec3) : vec3 :=
  let '(c_0, c_1, c_2) := c in (F64.opp c_0, F64.opp c_1, F64.opp c_2).

(** The layout of a table file of resolution [n], as [from_file] reads it:
    the magic number and the resolution (8 bytes), [n] floats of scale,
    [9 n^3] floats of coefficients. *)
Definition table_size (n : nat) : nat := 8 + 4 * n + 4 * (3 * n ^ 3 * 3).

Definition table_scale (content : list byte) (n : nat) : list float64 :=
  decode_float32s (take (4 * n) (drop 8 content)).

Definition table_coefficients (content : list byte) (n : nat)
    : list float64 :=
  decode_float32s (take (4 * (3 * n ^ 3 * 3)) (drop (8 + 4 * n) content)).

(** The object a table file of resolution [n] describes. *)
Definition table_interpolator (content : list byte) (n : nat)
    : Jakob2019Interpolator :=
  mkInterpolator (Some (Z.of_nat n)) (Some (table_scale content n))
    (Some (mkRGI
             [[Num 0; Num 1; Num 2]; table_scale content n;
              linspace (Num 0) (Num 1) n; linspace (Num 0) (Num 1) n]
             (mkArray [3; n; n; n; 3]%nat (table_coefficients content n))
             false (Some NaN))).

(** A complete table file of resolution [n]: the magic number, the
    resolution, and the bytes of the scale array and of the tensor. *)
Definition complete_table (content : list byte) (n : nat) : Prop :=
  take 4 content = SPEC
  /\ unpack_i (take 4 (drop 4 content)) = Ok (Z.of_nat n)
  /\ table_size n <= length content.

(** A complete table file of resolution [n] with an ascending scale. *)
Definition well_formed (content : list byte) (n : nat) : Prop :=
  take 4 content = SPEC
  /\ unpack_i (take 4 (drop 4 content)) = Ok (Z.of_nat n)
  /\ table_size n <= length content
  /\ strictly_ascending (table_scale content n) = true.

(** numpy's broadcasting rule for one-dimensional arrays of [m] and [n]
    items: the lengths agree or one of them is 1; the result has the length
    of the longer array (of the other one, when one has a single item). *)
Definition compatible (m n : nat) : bool :=
  (m =? n)%nat || (m =? 1)%nat || (n =? 1)%nat.

Definition broadcast_length (m n : nat) : nat :=
  if (m =? 1)%nat then n else m.

(** The sum of a list of reals. *)
Definition rsum (l : list R) : R := fold_right Rplus 0%R l.

(** The polynomial of the model over the reals and the derivative of the
    reflectance with respect to it. *)
Definition poly (c : R3) (t : R) : R :=
  (channel c 0 * (t * t) + channel c 1 * t + channel c 2)%R.

Definition sigmoid' (u : R) : R :=
  (1 / (2 * sqrt (1 + u * u))
   - u * u / (2 * (sqrt (1 + u * u) * sqrt (1 + u * u) * sqrt (1 + u * u))))%R.

(** The derivative of the polynomial at [t] with respect to the
    coefficient [j]. *)
Definition weight (j : nat) (t : R) : R :=
  match j with O => (t * t)%R | S O => t | _ => 1%R end.

(** The triplet [c] with its component [j] replaced by [x]. *)
Definition with_channel (c : R3) (j : nat) (x : R) : R3 :=
  let '(c_0, c_1, c_2) := c in
  match j with O => (x, c_1, c_2) | S O => (c_0, x, c_2) | _ => (c_0, c_1, x) end.

(** [sum_k I[k] * rs[k] * ys[k]]. *)
Definition dot3 (I rs ys : list R) : R :=
  rsum (zip_with Rmult (zip_with Rmult I rs) ys).

(** The tristimulus value [i] of the model with the coefficients [c], over
    the samples [ts] of [[0, 1]], for the illuminant values [I] and the rows
    [M] of colour-matching values, and its derivative with respect to the
    coefficient [j]. *)
Definition model_XYZ (ts I : list R) (M : list R3) (c : R3) (i : nat) : R :=
  (100 * dot3 I (map (fun t => sigmoid (poly c t)) ts)
           (map (fun m => channel m i) M)
   / rsum (zip_with Rmult (map (fun m => channel m 1) M) I))%R.

Definition model_dXYZ (ts I : list R) (M : list R3) (c : R3) (i j : nat)
    : R :=
  (100 * dot3 I (map (fun t => weight j t * sigmoid' (poly c t)) ts)
           (map (fun m => channel m i) M)
   / rsum (zip_with Rmult (map (fun m => channel m 1) M) I))%R.

(** The Lab triplet of the model relative to the white [Wr], with the
    cube root as the lightness function. *)
Definition model_Lab (ts I : list R) (M : list R3) (Wr c : R3) : R3 :=
  let f i := Rpower (model_XYZ ts I M c i / channel Wr i) (1 / 3) in
  (116 * f 1%nat - 16, 500 * (f 0%nat - f 1%nat),
   200 * (f 1%nat - f 2%nat))%R.

(** The matrix [dLab] as the code computes it. *)
Definition model_dLab (ts I : list R) (M : list R3) (Wr c : R3)
    : R3 * R3 * R3 :=
  let df i j :=
    (1 / (3 * Rpower (channel Wr i) (1 / 3)
          * Rpower (model_XYZ ts I M c i) (2 / 3))
     * model_dXYZ ts I M c i j)%R in
  let d (i j : nat) : R := df i j in
  ((116 * d 1%nat 0%nat, 116 * d 1%nat 1%nat, 116 * d 1%nat 2%nat),
   (500 * (d 0%nat 0%nat - d 1%nat 0%nat),
    500 * (d 0%nat 1%nat - d 1%nat 1%nat),
    500 * (d 0%nat 2%nat - d 1%nat 2%nat)),
   (200 * (d 1%nat 0%nat - d 2%nat 0%nat),
    200 * (d 1%nat 1%nat - d 2%nat 1%nat),
    200 * (d 1%nat 2%nat - d 2%nat 2%nat)))%R.

(** The samples of [np.linspace(0, 1, n)] as reals. *)
Definition unit_samples (n : nat) : list R :=
  map (fun i : nat => (INR i / INR (n - 1))%R) (seq 0 n).

(** The error a run of the error function returned. *)
Definition error_of (r : result error_function_output) : R :=
  match r with
  | Ok (ErrorGradient error _)
  | Ok (ErrorGradientIntermediates error _ _ _ _) => to_real error
  | Raise _ => 0%R
  end.

(** ** The spectral model in binary64 *)

(** The lines of [spectral_model] and of [error_function_Jakob2019] that
    compute [U] and [R], over the binary64 numbers numpy computes with: each
    operation rounds to the nearest number, as the processor does. *)
Module B64.

Definition U_poly (coefficients : float * float * float) (w : float)
    : float :=
  let '(c_0, c_1, c_2) := coefficients in
  (c_0 * (w * w) + c_1 * w + c_2)%float.

Definition reflectance (U : float) : float :=
  (1 / 2 + U / (2 * PrimFloat.sqrt (1 + U * U)))%float.

(** The values of the distribution that [spectral_model] returns over the
    sample wavelengths [wl]. *)
Definition spectral_model (coefficients : float * float * float)
    (wl : list float) : list float :=
  map (fun w => reflectance (U_poly coefficients w)) wl.

End B64.

(** ** Notions used by the amended claims *)

(** The item [i] of an [array_like] is a negative Python number. *)
Definition python_negative (a : array_like) (i : nat) : Prop :=
  exists (v : vec3) (x : R), a = Sequence v /\ vget v i = Num x /\ (x < 0)%R.

(** The position, in the items of a [(3, n, n, n, 3)] array, of the triplet
    at the index [(c, i, j, k)]. *)
Definition position (n c i j k : nat) : nat :=
  (((c * n + i) * n + j) * n + k) * 3.

(** The three items a list holds from a position on. *)
Definition triplet_at (items : list float64) (o : nat) : option vec3 :=
  match items !! o, items !! (o + 1)%nat, items !! (o + 2)%nat with
  | Some v0, Some v1, Some v2 => Some (v0, v1, v2)
  | _, _, _ => None
  end.

(** The four bytes of a 32-bit pattern, the least significant first. *)
Definition byte_of (z : Z) : byte :=
  match Byte.of_N (Z.to_N z) with
  | Some b => b
  | None => x00
  end.

Definition le_bytes (w : Z) : list byte :=
  [byte_of (w mod 256); byte_of (w / 256 mod 256);
   byte_of (w / 65536 mod 256); byte_of (w / 16777216 mod 256)].

(** A table file with the resolution [n], written from the bit patterns of
    its scale array and of its coefficients. *)
Definition table_file (n : Z) (scale coeffs : list Z) : list byte :=
  SPEC ++ le_bytes n ++ flat_map le_bytes scale ++ flat_map le_bytes coeffs.

(** The bit patterns of the [float32] numbers 0, 1, 2, 3 and 4 and of a
    NaN. *)
Definition bits_0 : Z := 0.
Definition bits_1 : Z := 1065353216.
Definition bits_2 : Z := 1073741824.
Definition bits_3 : Z := 1077936128.
Definition bits_4 : Z := 1082130432.

(** A table of resolution 2 with the scale axis [0, 1]: the triplet
    [(3, 2, 1)] at the index [(1, 0, 0, 1)], the triplet [(1, 2, 3)] at the
    index [(1, 1, 0, 1)], and 4 everywhere else. *)
Definition sample_table : list byte :=
  table_file 2 [bits_0; bits_1]
    (repeat bits_4 27 ++ [bits_3; bits_2; bits_1] ++ repeat bits_4 9
     ++ [bits_1; bits_2; bits_3] ++ repeat bits_4 30).

Definition sample_coefficients : list float64 :=
  repeat (Num 4) 27 ++ [Num 3; Num 2; Num 1] ++ repeat (Num 4) 9
  ++ [Num 1; Num 2; Num 3] ++ repeat (Num 4) 30.



(** The interpolator [from_file] builds for a table of resolution 2 with
    the scale axis [0, 1]. *)
Definition unit_cubes (coeffs : list float64) : RegularGridInterpolator :=
  mkRGI [[Num 0; Num 1; Num 2]; [Num 0; Num 1]; [Num 0; Num 1];
         [Num 0; Num 1]]
    (mkArray [3; 2; 2; 2; 3]%nat coeffs) false (Some NaN).

(* ================================================================== *)
(** * Part II. Properties                                                *)
(* ================================================================== *)

(** ** Arithmetic on finite numbers *)

#[global] Arguments F64.add : simpl never.
#[global] Arguments F64.sub : simpl never.
#[global] Arguments F64.mul : simpl never.
#[global] Arguments F64.div : simpl never.
#[global] Arguments F64.sqrt : simpl never.
#[global] Arguments F64.pow : simpl never.
#[global] Arguments F64.square : simpl never.
#[global] Arguments F64.cube : simpl never.
#[global] Arguments F64.ltb : simpl never.
#[global] Arguments F64.eqb : simpl never.

Section Arithmetic.
Local Open Scope R_scope.

Lemma add_Num a b : F64.add (Num a) (Num b) = Num (a + b).
Proof. reflexivity. Qed.

Lemma sub_Num a b : F64.sub (Num a) (Num b) = Num (a - b).
Proof. reflexivity. Qed.

Lemma mul_Num a b : F64.mul (Num a) (Num b) = Num (a * b).
Proof. reflexivity. Qed.

Lemma square_Num a : F64.square (Num a) = Num (a * a).
Proof. reflexivity. Qed.

Lemma div_Num a b : b <> 0 -> F64.div (Num a) (Num b) = Num (a / b).
Proof.
  intros Hb. unfold F64.div. destruct (Req_dec_T b 0); [contradiction | reflexivity].
Qed.

Lemma div_zero_zero : F64.div (Num 0) (Num 0) = NaN.
Proof.
  unfold F64.div, F64.signed_inf.
  destruct (Req_dec_T 0 0) as [_ | H]; [| now elim H].
  destruct (total_order_T 0 0) as [[H | H] | H]; try reflexivity; lra.
Qed.

Lemma sqrt_Num a : 0 <= a -> F64.sqrt (Num a) = Num (sqrt a).
Proof.
  intros Ha. unfold F64.sqrt. destruct (Rlt_dec a 0); [lra | reflexivity].
Qed.

Lemma sqrt_gt_abs u : Rabs u < sqrt (1 + u * u).
Proof.
  rewrite <- (sqrt_Rsqr_abs u). apply sqrt_lt_1_alt. unfold Rsqr. nra.
Qed.

End Arithmetic.

(** ** The spectral model *)

Section ModelProperties.
Local Open Scope R_scope.

(** The reflectance of a finite [u] is a number strictly between 0 and 1. *)
Lemma reflectance_bounds (u : R) :
  exists r : R,
    F64.add (F64.div (Num 1) (Num 2))
      (F64.div (Num u)
         (F64.mul (Num 2) (F64.sqrt (F64.add (Num 1) (F64.square (Num u))))))
    = Num r /\ 0 < r < 1.
Proof.
  pose proof (sqrt_gt_abs u) as Habs.
  assert (Ht : 0 < sqrt (1 + u * u)).
  { apply Rle_lt_trans with (Rabs u); [apply Rabs_pos | exact Habs]. }
  exists (1 / 2 + u / (2 * sqrt (1 + u * u))).
  rewrite square_Num, add_Num, sqrt_Num by nra.
  rewrite mul_Num, !div_Num by lra.
  rewrite add_Num. split; [reflexivity |].
  assert (Hq : - (1 / 2) < u / (2 * sqrt (1 + u * u)) < 1 / 2).
  { destruct (Rabs_def2 _ _ Habs) as [Hlo Hhi].
    split.
    - apply Rmult_lt_reg_r with (2 * sqrt (1 + u * u)); [lra |].
      unfold Rdiv at 2. rewrite Rmult_assoc, Rinv_l by lra. lra.
    - apply Rmult_lt_reg_r with (2 * sqrt (1 + u * u)); [lra |].
      unfold Rdiv at 1. rewrite Rmult_assoc, Rinv_l by lra. lra. }
  lra.
Qed.

Lemma U_poly_zero (w : R) : U_poly (Num 0, Num 0, Num 0) (Num w) = Num 0.
Proof. unfold U_poly. rewrite square_Num, !mul_Num, !add_Num. f_equal. lra. Qed.

Lemma reflectance_zero :
  F64.add (F64.div (Num 1) (Num 2))
    (F64.div (Num 0)
       (F64.mul (Num 2) (F64.sqrt (F64.add (Num 1) (F64.square (Num 0))))))
  = Num (1 / 2).
Proof.
  rewrite square_Num, add_Num, sqrt_Num by lra.
  replace (1 + 0 * 0) with 1 by lra. rewrite sqrt_1.
  rewrite mul_Num, !div_Num by lra. rewrite add_Num. f_equal. lra.
Qed.

Lemma range_length (shape : SpectralShape) :
  length (range shape)
  = Z.to_nat (up ((end_ shape - start shape) / interval shape)).
Proof. unfold range. now rewrite length_map, length_seq. Qed.

Lemma range_lookup (shape : SpectralShape) (i : nat) (w : float64) :
  range shape !! i = Some w ->
  w = Num (start shape + INR i * interval shape).
Proof.
  unfold range. rewrite list_lookup_fmap.
  destruct (seq _ _ !! i) as [k |] eqn:Hk; [| discriminate].
  apply lookup_seq in Hk as [-> _]. simpl. congruence.
Qed.

(** A well-formed shape has at least one sample. *)
Lemma range_nonempty (shape : SpectralShape) :
  start shape <= end_ shape -> 0 < interval shape ->
  (0 < length (range shape))%nat.
Proof.
  intros Hse Hi. rewrite range_length.
  pose proof (archimed ((end_ shape - start shape) / interval shape)) as [Hup _].
  assert (Hq : 0 <= (end_ shape - start shape) / interval shape).
  { apply Rmult_le_pos; [lra |]. left. now apply Rinv_0_lt_compat. }
  assert (Hz : 0 < IZR (up ((end_ shape - start shape) / interval shape)))
    by lra.
  apply lt_IZR in Hz. lia.
Qed.

End ModelProperties.

(** ** Sequencing *)

Lemma bind_Ok {A B : Type} (a : A) (k : A -> result B) : (Ok a ≫= k) = k a.
Proof. reflexivity. Qed.

Lemma bind_Raise {A B : Type} (e : exn) (k : A -> result B) :
  (Raise e ≫= k) = Raise e.
Proof. reflexivity. Qed.

Lemma bind_inv {A B : Type} (m : result A) (k : A -> result B) (b : B) :
  (m ≫= k) = Ok b -> exists a, m = Ok a /\ k a = Ok b.
Proof. destruct m as [a | e]; [eauto | discriminate]. Qed.

Ltac bind_inv H :=
  let a := fresh "a" in
  let Ha := fresh "H" a in
  apply bind_inv in H as (a & Ha & H).

Lemma zip_with_map_same {A B C D : Type} (f : B -> C -> D) (g : A -> B)
    (h : A -> C) (l : list A) :
  zip_with f (map g l) (map h l) = map (fun x => f (g x) (h x)) l.
Proof. induction l as [| x l IH]; simpl; [reflexivity | now rewrite IH]. Qed.

Lemma zip_with_map_left {A B C : Type} (f : A -> B -> C) (h : A -> B)
    (l : list A) :
  zip_with f l (map h l) = map (fun x => f x (h x)) l.
Proof. induction l as [| x l IH]; simpl; [reflexivity | now rewrite IH]. Qed.

(** ** The reflectance computed by the error function *)

Section ErrorFunctionReflectance.
Local Open Scope R_scope.

Lemma error_function_body_R coefficients target shape cmfs illuminant
    illuminant_XYZ l :
  error_function_body coefficients target shape cmfs illuminant illuminant_XYZ
  = Ok l ->
  ef_R l
  = map (fun t =>
           let u := U_poly coefficients t in
           F64.add (F64.div (Num 1) (Num 2))
             (F64.div u
                (F64.mul (Num 2) (F64.sqrt (F64.add (Num 1) (F64.square u))))))
      (linspace (Num 0) (Num 1) (length (range shape))).
Proof.
  unfold error_function_body. intros Hrun.
  repeat bind_inv Hrun. injection Hrun as <-. simpl.
  rewrite zip_with_map_left, map_map. reflexivity.
Qed.

End ErrorFunctionReflectance.

(** ** Evaluating the error function on the sample data *)

Section SampleRun.
Local Open Scope R_scope.

Lemma cube_Num a : F64.cube (Num a) = Num (a * a * a).
Proof. reflexivity. Qed.

Lemma pow_Num a y : 0 < a -> F64.pow (Num a) y = Num (Rpower a y).
Proof.
  intros Ha. unfold F64.pow.
  destruct (total_order_T a 0) as [[Hlt | Heq] | Hgt]; [lra | lra | reflexivity].
Qed.

Lemma eqb_Num_ne a b : a <> b -> F64.eqb (Num a) (Num b) = false.
Proof. intros Hab. unfold F64.eqb. destruct (Req_dec_T a b); congruence. Qed.

Lemma ltb_Num_lt a b : a < b -> F64.ltb (Num a) (Num b) = true.
Proof. intros Hab. unfold F64.ltb. destruct (Rlt_dec a b); [reflexivity | lra]. Qed.

Lemma ltb_Num_ge a b : b <= a -> F64.ltb (Num a) (Num b) = false.
Proof. intros Hab. unfold F64.ltb. destruct (Rlt_dec a b); [lra | reflexivity]. Qed.

Lemma Rpower_pos a y : 0 < Rpower a y.
Proof. unfold Rpower. apply exp_pos. Qed.

Lemma up_1 : up 1 = 2%Z.
Proof.
  symmetry. apply (up_tech 1 1); [lra | change (IZR (1 + 1)) with 2; lra].
Qed.

Lemma range_unit_shape : range unit_shape = [Num 0; Num 1].
Proof.
  unfold range, unit_shape. simpl.
  replace ((1 - 0) / 1) with 1 by lra. rewrite up_1. simpl.
  repeat f_equal; lra.
Qed.

Lemma linspace_2 : linspace (Num 0) (Num 1) 2 = [Num 0; Num 1].
Proof.
  unfold linspace. simpl.
  rewrite sub_Num. rewrite div_Num by lra.
  rewrite eqb_Num_ne by lra. simpl.
  rewrite !mul_Num, !add_Num. simpl. repeat f_equal. lra.
Qed.

Lemma sqrt_one_plus_zero :
  F64.sqrt (F64.add (Num 1) (F64.square (Num 0))) = Num 1.
Proof.
  rewrite square_Num, add_Num, sqrt_Num by lra.
  replace (1 + 0 * 0) with 1 by lra. now rewrite sqrt_1.
Qed.

End SampleRun.

Ltac pos_side :=
  solve [ lra
        | apply Rgt_not_eq; repeat apply Rmult_lt_0_compat;
          solve [lra | apply Rpower_pos]
        | repeat apply Rmult_lt_0_compat; solve [lra | apply Rpower_pos] ].

(** Evaluate arithmetic on finite numbers, leaving the side conditions of
    division, square root and power to [side]. *)
Ltac f64_eval_by side :=
  repeat first
    [ rewrite add_Num | rewrite sub_Num | rewrite mul_Num | rewrite square_Num
    | rewrite cube_Num
    | rewrite div_Num by side
    | rewrite sqrt_Num by side
    | rewrite pow_Num by side ].

Ltac f64_eval := f64_eval_by pos_side.

Section SampleRunResult.
Local Open Scope R_scope.

(** On the sample data the error function returns, whatever the target, with
    the same finite Lab triplet, whose [a] component is zero, and the same
    finite [dLab]. *)
Lemma sample_run : exists L D,
  (forall target : vec3, exists l,
      error_function_body grey target unit_shape flat_cmfs flat_illuminant
        unit_white = Ok l
      /\ ef_Lab l = vnum L /\ ef_dLab l = mnum D)
  /\ L.1.2 = 0.
Proof.
  eexists (_, _, _). eexists ((_, _, _), (_, _, _), (_, _, _)).
  split.
  - intros target.
    unfold error_function_body. rewrite range_unit_shape. simpl length.
    rewrite linspace_2. cbn [map]. unfold grey. rewrite !U_poly_zero.
    cbn. rewrite !sqrt_one_plus_zero. f64_eval.
    eexists. split; [reflexivity |]. cbn. f64_eval.
    split; reflexivity.
  - cbn. lra.
Qed.

(** The samples of [np.linspace(0, 1, n)] are [i / (n - 1)]. *)
Lemma linspace_unit_lookup (n i : nat) :
  (2 <= n)%nat -> (i < n)%nat ->
  linspace (Num 0) (Num 1) n !! i = Some (Num (INR i / INR (n - 1))).
Proof.
  intros Hn Hi. unfold linspace.
  assert (Hdiv : 0 < INR (n - 1)) by (apply lt_0_INR; lia).
  destruct (Nat.ltb_spec 0 (n - 1)) as [_ | Hc]; [| lia].
  destruct (Nat.ltb_spec 1 n) as [_ | Hc]; [| lia].
  rewrite sub_Num, div_Num by lra.
  rewrite eqb_Num_ne.
  2:{ apply Rgt_not_eq. apply Rdiv_lt_0_compat; lra. }
  rewrite !map_map.
  destruct (decide (i = n - 1)%nat) as [-> | Hne].
  - rewrite lookup_app_r by (rewrite length_take, length_map, length_seq; lia).
    rewrite length_take, length_map, length_seq.
    replace (n - 1 - (n - 1) `min` n)%nat with 0%nat by lia. simpl.
    do 2 f_equal. field. lra.
  - rewrite lookup_app_l by (rewrite length_take, length_map, length_seq; lia).
    rewrite lookup_take_lt by lia.
    rewrite list_lookup_fmap, lookup_seq_lt by lia. simpl.
    rewrite mul_Num, add_Num. do 2 f_equal. field. lra.
Qed.

Lemma linspace_length (a b : float64) (n : nat) : length (linspace a b n) = n.
Proof.
  unfold linspace.
  destruct (Nat.ltb_spec 1 n) as [H1 | H1].
  - rewrite length_app, length_take, length_map. simpl.
    destruct (0 <? n - 1)%nat; [destruct (F64.eqb _ _) |];
      rewrite length_map, length_map, length_seq; lia.
  - rewrite length_map.
    destruct (0 <? n - 1)%nat; [destruct (F64.eqb _ _) |];
      rewrite length_map, length_map, length_seq; lia.
Qed.

End SampleRunResult.

(** ** The reflectance in binary64 *)

Section Binary64.
Local Open Scope float_scope.

(** C4, as stated, fails in the binary64 numbers the code computes with:
    for the coefficients [(0, 0, 1e8)] the polynomial is the finite number
    [1e8] at every wavelength, and the reflectance is exactly 1, not below
    it, both over the wavelengths 360, 570 and 780 that [spectral_model]
    samples and over the normalised axis 0, 1/2, 1 of
    [error_function_Jakob2019]; for [(0, 0, -1e8)] it is exactly 0. *)
Lemma reflectance_is_1_at_large_polynomial :
  B64.U_poly (0, 0, 1e8) 360 = 1e8
  /\ PrimFloat.is_nan 1e8 = false /\ PrimFloat.is_infinity 1e8 = false
  /\ B64.reflectance 1e8 = 1
  /\ (B64.reflectance 1e8 <? 1) = false
  /\ B64.spectral_model (0, 0, 1e8) [360; 570; 780] = [1; 1; 1]
  /\ B64.spectral_model (0, 0, 1e8) [0; 0.5; 1] = [1; 1; 1]
  /\ B64.reflectance (-1e8) = 0
  /\ (0 <? B64.reflectance (-1e8)) = false
  /\ B64.spectral_model (0, 0, -1e8) [360; 570; 780] = [0; 0; 0]
  /\ B64.spectral_model (0, 0, -1e8) [0; 0.5; 1] = [0; 0; 0].
Proof. repeat split; reflexivity. Qed.

End Binary64.

(** ** Claims about the spectral model and the coefficients *)

Section ModelClaims.
Local Open Scope R_scope.

(** C1. [dimensionalise_coefficients] reverses the normalisation of the
    wavelength axis to [[0,1]]: for a finite triplet [(cp0, cp1, cp2)] and a
    shape with [span = end - start > 0] it returns
    [(cp0/span^2, cp1/span - 2*cp0*start/span^2,
      cp0*start^2/span^2 - cp1*start/span + cp2)]; the polynomial with these
    coefficients at a wavelength [lambda] between start and end equals the
    polynomial with the nondimensional coefficients at
    [t = (lambda - start)/span]; and converting dimensional coefficients to
    nondimensional ones and back (or the other way round) reproduces the
    triplet. *)
Theorem dimensionalise_coefficients_reverses_normalisation
    (cp0 cp1 cp2 : R) (shape : SpectralShape) :
  0 < span shape ->
  dimensionalise_coefficients (Num cp0, Num cp1, Num cp2) shape
  = (Num (cp0 / span shape ^ 2),
     Num (cp1 / span shape - 2 * cp0 * start shape / span shape ^ 2),
     Num (cp0 * start shape ^ 2 / span shape ^ 2
          - cp1 * start shape / span shape + cp2))
  /\ (forall lambda : R,
        start shape <= lambda <= end_ shape ->
        U_poly (dimensionalise_coefficients (Num cp0, Num cp1, Num cp2) shape)
          (Num lambda)
        = U_poly (Num cp0, Num cp1, Num cp2)
            (Num ((lambda - start shape) / span shape)))
  /\ dimensionalise_coefficients
       (nondimensionalise_coefficients (Num cp0, Num cp1, Num cp2) shape) shape
     = (Num cp0, Num cp1, Num cp2)
  /\ nondimensionalise_coefficients
       (dimensionalise_coefficients (Num cp0, Num cp1, Num cp2) shape) shape
     = (Num cp0, Num cp1, Num cp2).
Proof.
  unfold span. intros Hspan.
  assert (Hne : end_ shape - start shape <> 0) by lra.
  assert (Hsq : (end_ shape - start shape) * (end_ shape - start shape) <> 0)
    by nra.
  assert (Hdim :
    dimensionalise_coefficients (Num cp0, Num cp1, Num cp2) shape
    = (Num (cp0 / (end_ shape - start shape) ^ 2),
       Num (cp1 / (end_ shape - start shape)
            - 2 * cp0 * start shape / (end_ shape - start shape) ^ 2),
       Num (cp0 * start shape ^ 2 / (end_ shape - start shape) ^ 2
            - cp1 * start shape / (end_ shape - start shape) + cp2))).
  { unfold dimensionalise_coefficients. f64_eval_by assumption.
    repeat f_equal; field; assumption. }
  split; [exact Hdim |]. split; [| split].
  - intros lambda _. rewrite Hdim. unfold U_poly.
    f64_eval_by assumption. f_equal. field. assumption.
  - unfold nondimensionalise_coefficients, dimensionalise_coefficients.
    f64_eval_by assumption. repeat f_equal; field; assumption.
  - rewrite Hdim. unfold nondimensionalise_coefficients.
    f64_eval_by assumption. repeat f_equal; field; assumption.
Qed.

Lemma dimensionalise_coefficients_reverses_normalisation_witness :
  dimensionalise_coefficients (Num 1, Num 2, Num 3)
    DEFAULT_SPECTRAL_SHAPE_JAKOB_2019
  = (Num (1 / 420 ^ 2), Num (2 / 420 - 2 * 1 * 360 / 420 ^ 2),
     Num (1 * 360 ^ 2 / 420 ^ 2 - 2 * 360 / 420 + 3)).
Proof.
  pose proof (dimensionalise_coefficients_reverses_normalisation 1 2 3
                DEFAULT_SPECTRAL_SHAPE_JAKOB_2019) as H.
  unfold span, DEFAULT_SPECTRAL_SHAPE_JAKOB_2019 in H. simpl in H.
  destruct H as [H _]; [lra |].
  replace (780 - 360) with 420 in H by lra. exact H.
Defined.

(** C7. For the coefficients [(0, 0, 0)] and every shape, [spectral_model]
    returns a distribution over the sample wavelengths of the shape whose
    value is exactly 0.5 at each of them. *)
Theorem spectral_model_grey (shape : SpectralShape) (name : option sd_name) :
  wavelengths (spectral_model (Num 0, Num 0, Num 0) shape name) = range shape
  /\ values (spectral_model (Num 0, Num 0, Num 0) shape name)
     = replicate (length (range shape)) (Num (1 / 2)).
Proof.
  split; [reflexivity |].
  unfold spectral_model. cbn [values]. rewrite map_map.
  unfold range. rewrite map_map, length_map.
  induction (seq 0 _) as [| i l IH]; [reflexivity |].
  cbn [map length replicate]. rewrite IH. f_equal.
  rewrite U_poly_zero. apply reflectance_zero.
Qed.

(** C4, amended. Wherever [U] is finite, the reflectance that
    [spectral_model] returns, and the one [error_function_Jakob2019]
    computes, is as a real number (exact arithmetic, before any rounding)
    [1/2 + U / (2 * sqrt (1 + U^2))], which lies strictly between 0 and 1;
    no clamping is involved. *)
Theorem reflectance_strictly_between_0_and_1 :
  (forall (coefficients : vec3) (shape : SpectralShape)
          (name : option sd_name) (i : nat) (w : float64) (u : R),
      range shape !! i = Some w ->
      U_poly coefficients w = Num u ->
      exists r : R,
        values (spectral_model coefficients shape name) !! i = Some (Num r)
        /\ r = 1 / 2 + u / (2 * sqrt (1 + u * u))
        /\ 0 < r < 1)
  /\ (forall (coefficients target : vec3) (shape : SpectralShape)
             (cmfs : MultiSpectralDistributions)
             (illuminant : SpectralDistribution) (illuminant_XYZ : vec3)
             (l : error_function_locals) (i : nat) (t : float64) (u : R),
        error_function_body coefficients target shape cmfs illuminant
          illuminant_XYZ = Ok l ->
        linspace (Num 0) (Num 1) (length (range shape)) !! i = Some t ->
        U_poly coefficients t = Num u ->
        exists r : R,
          ef_R l !! i = Some (Num r)
          /\ r = 1 / 2 + u / (2 * sqrt (1 + u * u))
          /\ 0 < r < 1).
Proof.
  assert (Hval : forall u : R,
    F64.add (F64.div (Num 1) (Num 2))
      (F64.div (Num u)
         (F64.mul (Num 2) (F64.sqrt (F64.add (Num 1) (F64.square (Num u))))))
    = Num (1 / 2 + u / (2 * sqrt (1 + u * u)))).
  { intros u. pose proof (sqrt_gt_abs u) as Habs.
    pose proof (Rabs_pos u) as Hpos.
    rewrite square_Num, add_Num, sqrt_Num by nra.
    rewrite mul_Num, !div_Num by lra. now rewrite add_Num. }
  split.
  - intros coefficients shape name i w u Hw Hu.
    destruct (reflectance_bounds u) as (r & Hr & Hbounds).
    exists r. rewrite Hval in Hr. injection Hr as <-.
    split; [| split; [reflexivity | exact Hbounds]].
    unfold spectral_model. cbn [values].
    rewrite map_map, list_lookup_fmap, Hw. simpl. now rewrite Hu, Hval.
  - intros coefficients target shape cmfs illuminant illuminant_XYZ l i t u
      Hrun Ht Hu.
    destruct (reflectance_bounds u) as (r & Hr & Hbounds).
    exists r. rewrite Hval in Hr. injection Hr as <-.
    split; [| split; [reflexivity | exact Hbounds]].
    rewrite (error_function_body_R _ _ _ _ _ _ _ Hrun).
    rewrite list_lookup_fmap, Ht. simpl. now rewrite Hu, Hval.
Qed.

Lemma reflectance_strictly_between_0_and_1_witness :
  (exists r : R,
      values (spectral_model grey unit_shape None) !! 1%nat = Some (Num r)
      /\ 0 < r < 1)
  /\ (exists l r,
        error_function_body grey grey unit_shape flat_cmfs flat_illuminant
          unit_white = Ok l
        /\ ef_R l !! 1%nat = Some (Num r) /\ 0 < r < 1).
Proof.
  destruct reflectance_strictly_between_0_and_1 as [Hmodel Herror].
  split.
  - destruct (Hmodel grey unit_shape None 1%nat (Num 1) 0) as (r & Hr & _ & Hb).
    + now rewrite range_unit_shape.
    + apply U_poly_zero.
    + exists r. split; assumption.
  - destruct sample_run as (L & D & Hrun & _).
    destruct (Hrun grey) as (l & Hl & _).
    destruct (Herror grey grey unit_shape flat_cmfs flat_illuminant unit_white
                l 1%nat (Num 1) 0 Hl) as (r & Hr & _ & Hb).
    + rewrite range_unit_shape. simpl length. now rewrite linspace_2.
    + apply U_poly_zero.
    + exists l, r. repeat split; assumption || apply Hb.
Defined.

End ModelClaims.

(** ** Claims about the error function *)

Section ErrorFunctionClaims.
Local Open Scope R_scope.

(** The last two statements of the function, in terms of its locals. *)
Lemma error_function_body_error coefficients target shape cmfs illuminant
    illuminant_XYZ l :
  error_function_body coefficients target shape cmfs illuminant illuminant_XYZ
  = Ok l ->
  ef_error l
  = F64.sqrt (np_sum (map F64.square
      [F64.sub (vget (ef_Lab l) 0) (vget target 0);
       F64.sub (vget (ef_Lab l) 1) (vget target 1);
       F64.sub (vget (ef_Lab l) 2) (vget target 2)]))
  /\ ef_derror l
     = vbuild (fun i =>
         F64.div
           (F64.add (F64.add (F64.add (Num 0)
              (F64.mul (mget (ef_dLab l) 0 i)
                 (F64.sub (vget (ef_Lab l) 0) (vget target 0))))
              (F64.mul (mget (ef_dLab l) 1 i)
                 (F64.sub (vget (ef_Lab l) 1) (vget target 1))))
              (F64.mul (mget (ef_dLab l) 2 i)
                 (F64.sub (vget (ef_Lab l) 2) (vget target 2))))
           (ef_error l)).
Proof.
  unfold error_function_body. intros Hrun.
  repeat bind_inv Hrun. injection Hrun as <-. split; reflexivity.
Qed.

Lemma euclidean_distance_pos (a b : R3) : a <> b -> 0 < euclidean_distance a b.
Proof.
  destruct a as [[a0 a1] a2], b as [[b0 b1] b2]. intros Hne.
  unfold euclidean_distance. apply sqrt_lt_R0.
  pose proof (Rle_0_sqr (a0 - b0)) as S0.
  pose proof (Rle_0_sqr (a1 - b1)) as S1.
  pose proof (Rle_0_sqr (a2 - b2)) as S2.
  assert (Hsq : forall x y : R, x <> y -> 0 < Rsqr (x - y))
    by (intros x y Hxy; apply Rsqr_pos_lt; lra).
  unfold Rsqr in *.
  destruct (Req_dec_T a0 b0) as [-> | H0]; [| specialize (Hsq _ _ H0); lra].
  destruct (Req_dec_T a1 b1) as [-> | H1]; [| specialize (Hsq _ _ H1); lra].
  destruct (Req_dec_T a2 b2) as [-> | H2]; [| specialize (Hsq _ _ H2); lra].
  now elim Hne.
Qed.

(** C2. When the computed Lab triplet differs from the target, the error is
    the Euclidean distance between them, and component [i] of the gradient
    is [sum_j dLab[j][i] * (Lab[j] - target[j])] divided by that error.
    When Lab equals the target the error is zero and the division is not
    guarded: every component of the gradient is [0 / 0], that is NaN. *)
Theorem error_is_distance_and_gradient_is_normalised
    (coefficients target : vec3) (shape : SpectralShape)
    (cmfs : MultiSpectralDistributions) (illuminant : SpectralDistribution)
    (illuminant_XYZ : vec3) (l : error_function_locals)
    (Lab T : R3) (dLab : R3 * R3 * R3) :
  error_function_body coefficients target shape cmfs illuminant illuminant_XYZ
  = Ok l ->
  ef_Lab l = vnum Lab ->
  target = vnum T ->
  ef_dLab l = mnum dLab ->
  (Lab <> T ->
     0 < euclidean_distance Lab T
     /\ error_function_Jakob2019 coefficients target shape cmfs illuminant
          illuminant_XYZ false
        = Ok (ErrorGradient (Num (euclidean_distance Lab T))
                (vnum (weighted_difference (column3 dLab 0) Lab T
                         / euclidean_distance Lab T,
                       weighted_difference (column3 dLab 1) Lab T
                         / euclidean_distance Lab T,
                       weighted_difference (column3 dLab 2) Lab T
                         / euclidean_distance Lab T))))
  /\ (Lab = T ->
        error_function_Jakob2019 coefficients target shape cmfs illuminant
          illuminant_XYZ false
        = Ok (ErrorGradient (Num 0) (NaN, NaN, NaN))).
Proof.
  intros Hrun HLab HT HdLab.
  destruct (error_function_body_error _ _ _ _ _ _ _ Hrun) as [Herr Hderr].
  unfold error_function_Jakob2019. rewrite Hrun, bind_Ok.
  rewrite Hderr, Herr, HLab, HdLab, HT.
  destruct Lab as [[a0 a1] a2], T as [[b0 b1] b2],
    dLab as [[[[d00 d01] d02] [[d10 d11] d12]] [[d20 d21] d22]].
  unfold vbuild. cbn [vnum mnum vget mget map np_sum fold_left].
  rewrite !sub_Num, !square_Num, !add_Num.
  assert (Hsum : 0 + (a0 - b0) * (a0 - b0) + (a1 - b1) * (a1 - b1)
                 + (a2 - b2) * (a2 - b2)
                 = (a0 - b0) * (a0 - b0) + (a1 - b1) * (a1 - b1)
                   + (a2 - b2) * (a2 - b2)) by ring.
  pose proof (Rle_0_sqr (a0 - b0)) as S0.
  pose proof (Rle_0_sqr (a1 - b1)) as S1.
  pose proof (Rle_0_sqr (a2 - b2)) as S2.
  unfold Rsqr in S0, S1, S2.
  rewrite sqrt_Num by lra. rewrite Hsum.
  split.
  - intros Hne. pose proof (euclidean_distance_pos _ _ Hne) as Hpos.
    split; [exact Hpos |].
    unfold euclidean_distance in *. rewrite !mul_Num, !add_Num.
    rewrite !div_Num by lra.
    unfold weighted_difference, column3.
    do 2 f_equal. repeat f_equal; ring.
  - intros Heq. injection Heq as -> -> ->.
    replace ((b0 - b0) * (b0 - b0) + (b1 - b1) * (b1 - b1)
             + (b2 - b2) * (b2 - b2)) with 0 by ring.
    rewrite sqrt_0, !mul_Num, !add_Num.
    replace (0 + d00 * (b0 - b0) + d10 * (b1 - b1) + d20 * (b2 - b2))
      with 0 by ring.
    replace (0 + d01 * (b0 - b0) + d11 * (b1 - b1) + d21 * (b2 - b2))
      with 0 by ring.
    replace (0 + d02 * (b0 - b0) + d12 * (b1 - b1) + d22 * (b2 - b2))
      with 0 by ring.
    now rewrite div_zero_zero.
Qed.

Lemma error_is_distance_and_gradient_is_normalised_witness :
  (exists e g,
      0 < e
      /\ error_function_Jakob2019 grey (Num 0, Num 1, Num 0) unit_shape
           flat_cmfs flat_illuminant unit_white false
         = Ok (ErrorGradient (Num e) (vnum g)))
  /\ (exists target : R3,
        error_function_Jakob2019 grey (vnum target) unit_shape flat_cmfs
          flat_illuminant unit_white false
        = Ok (ErrorGradient (Num 0) (NaN, NaN, NaN))).
Proof.
  destruct sample_run as (L & D & Hrun & HL1).
  split.
  - destruct (Hrun (Num 0, Num 1, Num 0)) as (l & Hl & HLab & HdLab).
    destruct (error_is_distance_and_gradient_is_normalised _ _ _ _ _ _ l L
                (0, 1, 0) D Hl HLab eq_refl HdLab) as [Hne _].
    destruct Hne as [Hpos Hout].
    + intros ->. simpl in HL1. lra.
    + eexists _, _. split; [exact Hpos | exact Hout].
  - exists L.
    destruct (Hrun (vnum L)) as (l & Hl & HLab & HdLab).
    destruct (error_is_distance_and_gradient_is_normalised _ _ _ _ _ _ l L
                L D Hl HLab eq_refl HdLab) as [_ Heq].
    now apply Heq.
Defined.

End ErrorFunctionClaims.

(** ** Loading a table *)

Section Loading.

Lemma decode_float32s_length (b : list byte) :
  length (decode_float32s b) = (length b / 4)%nat.
Proof.
  revert b. fix IH 1.
  intros [| b0 [| b1 [| b2 [| b3 b']]]]; try reflexivity.
  cbn [decode_float32s length]. rewrite IH.
  change (S (S (S (S (length b'))))) with (1 * 4 + length b')%nat.
  now rewrite Nat.div_add_l by lia.
Qed.

Lemma unpack_i_short (b : list byte) :
  length b <> 4%nat -> unpack_i b = Raise StructError.
Proof.
  destruct b as [| b0 [| b1 [| b2 [| b3 [| b4 b']]]]]; simpl; intros Hlen;
    try reflexivity; lia.
Qed.

(** Within the range of [ssize_t] [np.fromfile] reads, and outside it
    raises. *)
Lemma fromfile_in_range (fd : file) (count : Z) :
  (- 2 ^ 63 <= count < 2 ^ 63)%Z ->
  fromfile fd count
  = Ok (let n := if (count <? 0)%Z then (length fd / 4)%nat
                 else Nat.min (Z.to_nat count) (length fd / 4) in
        (decode_float32s (take (4 * n) fd), drop (4 * n) fd)).
Proof.
  intros Hc. unfold fromfile.
  destruct (Z.ltb_spec count (- 2 ^ 63)) as [Hlo | _]; [lia |].
  destruct (Z.leb_spec (2 ^ 63) count) as [Hhi | _]; [lia |].
  reflexivity.
Qed.

Lemma fromfile_overflow (fd : file) (count : Z) :
  (count < - 2 ^ 63 \/ 2 ^ 63 <= count)%Z ->
  fromfile fd count = Raise OverflowError.
Proof.
  intros Hc. unfold fromfile.
  destruct (Z.ltb_spec count (- 2 ^ 63)) as [Hlo | Hlo]; [reflexivity |].
  destruct (Z.leb_spec (2 ^ 63) count) as [Hhi | Hhi]; [reflexivity | lia].
Qed.

(** What [np.fromfile] returned when it did. *)
Lemma fromfile_inv (fd fd' : file) (count : Z) (a : list float64) :
  fromfile fd count = Ok (a, fd') ->
  (- 2 ^ 63 <= count < 2 ^ 63)%Z
  /\ (let n := if (count <? 0)%Z then (length fd / 4)%nat
               else Nat.min (Z.to_nat count) (length fd / 4) in
      a = decode_float32s (take (4 * n) fd) /\ fd' = drop (4 * n) fd).
Proof.
  intros Hrun.
  destruct (Z.lt_ge_cases count (- 2 ^ 63)) as [Hlo | Hlo].
  { rewrite fromfile_overflow in Hrun by lia. discriminate. }
  destruct (Z.lt_ge_cases count (2 ^ 63)) as [Hhi | Hhi].
  - rewrite fromfile_in_range in Hrun by lia.
    injection Hrun as <- <-. split; [lia | split; reflexivity].
  - rewrite fromfile_overflow in Hrun by lia. discriminate.
Qed.

(** [np.fromfile] returns as many items as asked for, or as the file
    holds. *)
Lemma fromfile_length (fd fd' : file) (count : Z) (a : list float64) :
  (0 <= count)%Z ->
  fromfile fd count = Ok (a, fd') ->
  length a = Nat.min (Z.to_nat count) (length fd / 4)
  /\ length fd' = (length fd - 4 * Nat.min (Z.to_nat count) (length fd / 4))%nat.
Proof.
  intros Hcount Hrun. apply fromfile_inv in Hrun as (_ & Hrun).
  destruct (Z.ltb_spec count 0) as [Hneg | _]; [lia |].
  cbv zeta in Hrun. destruct Hrun as [-> ->].
  pose proof (Nat.div_mod_eq (length fd) 4) as Hdm.
  pose proof (Nat.mod_upper_bound (length fd) 4 ltac:(lia)) as Hmod.
  rewrite decode_float32s_length, length_take, length_drop.
  split; [| reflexivity].
  rewrite Nat.min_l by lia.
  rewrite Nat.mul_comm. apply Nat.div_mul. lia.
Qed.

(** A file too short for the declared scale array and coefficient tensor
    leaves fewer than [9 n^3] items for the tensor. *)
Lemma fromfile_truncated (fd fd1 fd2 : file) (n : Z) (sc coeffs : list float64) :
  (1 <= n)%Z ->
  (Z.of_nat (length fd) < 4 * n + 4 * (3 * n ^ 3 * 3))%Z ->
  fromfile fd n = Ok (sc, fd1) ->
  fromfile fd1 (3 * n ^ 3 * 3) = Ok (coeffs, fd2) ->
  (Z.of_nat (length coeffs) < 3 * n ^ 3 * 3)%Z.
Proof.
  intros Hn Hshort Hsc Hco.
  assert (Hcube : (0 < n ^ 3)%Z) by (apply Z.pow_pos_nonneg; lia).
  destruct (fromfile_length fd fd1 n sc ltac:(lia) Hsc) as [_ Hrest].
  destruct (fromfile_length fd1 fd2 (3 * n ^ 3 * 3) coeffs ltac:(lia) Hco)
    as [Hlen _].
  rewrite Hlen, Hrest. clear Hlen Hrest.
  pose proof (Nat.div_mod_eq (length fd) 4) as Hdm.
  pose proof (Nat.mod_upper_bound (length fd) 4 ltac:(lia)) as Hmod.
  set (avail := (length fd / 4)%nat) in *.
  set (m := Nat.min (Z.to_nat n) avail).
  assert (Hdiv : ((length fd - 4 * m) / 4 = avail - m)%nat).
  { assert (Hm : (m <= avail)%nat) by (unfold m; lia).
    replace (length fd - 4 * m)%nat
      with ((avail - m) * 4 + length fd mod 4)%nat by lia.
    rewrite Nat.div_add_l by lia. rewrite Nat.div_small by lia. lia. }
  rewrite Hdiv. unfold m. lia.
Qed.

Lemma byte_val_range (b : byte) : (0 <= byte_val b < 256)%Z.
Proof. destruct b; cbv; split; discriminate || reflexivity. Qed.

(** The resolution field holds a signed 32-bit integer. *)
Lemma unpack_i_range (b : list byte) (n : Z) :
  unpack_i b = Ok n -> (- 2 ^ 31 <= n < 2 ^ 31)%Z.
Proof.
  destruct b as [| b0 [| b1 [| b2 [| b3 [| b4 b']]]]]; try discriminate.
  cbn [unpack_i]. intros Hn. injection Hn as <-. unfold le_u32.
  pose proof (byte_val_range b0). pose proof (byte_val_range b1).
  pose proof (byte_val_range b2). pose proof (byte_val_range b3).
  change (2 ^ 31)%Z with 2147483648%Z. change (2 ^ 32)%Z with 4294967296%Z.
  destruct (Z.ltb_spec (byte_val b0 + 256 * byte_val b1 + 65536 * byte_val b2
                        + 16777216 * byte_val b3) 2147483648); lia.
Qed.

(** C3, as stated, fails: a file with a good magic number that ends after the
    resolution makes [from_file] raise, and by then the object has its [res]
    attribute (and [scale]) assigned. *)
Lemma from_file_truncated_table_sets_res :
  (exists e : exn,
      (from_file Jakob2019Interpolator_init truncated_table).2 = Raise e)
  /\ res (from_file Jakob2019Interpolator_init truncated_table).1 = Some 2%Z
  /\ ~ (res (from_file Jakob2019Interpolator_init truncated_table).1 = None
        /\ scale (from_file Jakob2019Interpolator_init truncated_table).1
           = None
        /\ cubes (from_file Jakob2019Interpolator_init truncated_table).1
           = None).
Proof.
  assert (Hrun : from_file Jakob2019Interpolator_init truncated_table
                 = (mkInterpolator (Some 2%Z) (Some []) None, Raise ValueError))
    by reflexivity.
  rewrite Hrun. cbn [fst snd res]. split; [eauto |]. split; [reflexivity |].
  intros [Hres _]. discriminate.
Qed.

(** C3, amended. [from_file] fails on a malformed or truncated file, and the
    [cubes] attribute is never assigned.  With a wrong magic number (or
    fewer than four bytes) it raises [ValueError], and with fewer than four
    bytes for the resolution it raises [struct.error]; in both cases the
    object is left as it was.  With a declared resolution [n >= 1] and too
    few bytes for the scale array and the coefficient tensor it raises an
    exception after [res] and [scale] have been assigned: [res] is [n] and
    [scale] holds the items that could be read. *)
Theorem from_file_fails_on_malformed_file
    (self : Jakob2019Interpolator) (content : list byte) :
  (take 4 content <> SPEC -> from_file self content = (self, Raise ValueError))
  /\ (take 4 content = SPEC ->
      (length content < 8)%nat ->
      from_file self content = (self, Raise StructError))
  /\ (forall n : Z,
        take 4 content = SPEC ->
        unpack_i (take 4 (drop 4 content)) = Ok n ->
        (1 <= n)%Z ->
        (Z.of_nat (length content) < 8 + 4 * n + 4 * (3 * n ^ 3 * 3))%Z ->
        exists e : exn,
          from_file self content
          = (mkInterpolator (Some n)
               (Some (decode_float32s
                        (take (4 * Nat.min (Z.to_nat n)
                                      ((length content - 8) / 4))
                           (drop 8 content))))
               (cubes self),
             Raise e)).
Proof.
  unfold from_file, read. split; [| split].
  - intros Hmagic. destruct (decide (take 4 content ≠ SPEC)) as [_ | Hc];
      [reflexivity | contradiction].
  - intros Hmagic Hlen.
    destruct (decide (take 4 content ≠ SPEC)) as [Hc | _]; [contradiction |].
    rewrite unpack_i_short; [reflexivity |].
    rewrite length_take, length_drop. lia.
  - intros n Hmagic Hn Hpos Hshort.
    destruct (decide (take 4 content ≠ SPEC)) as [Hc | _]; [contradiction |].
    rewrite Hn. pose proof (unpack_i_range _ _ Hn) as Hrange.
    assert (Hlen : (8 <= length content)%nat).
    { destruct (Nat.le_gt_cases 8 (length content)) as [Hle | Hgt];
        [exact Hle |].
      rewrite unpack_i_short in Hn; [discriminate |].
      rewrite length_take, length_drop. lia. }
    rewrite drop_drop. change (4 + 4)%nat with 8%nat.
    assert (Hsc : fromfile (drop 8 content) n
                  = Ok (decode_float32s
                          (take (4 * Nat.min (Z.to_nat n)
                                        ((length content - 8) / 4))
                             (drop 8 content)),
                        drop (4 * Nat.min (Z.to_nat n)
                                     ((length content - 8) / 4))
                          (drop 8 content))).
    { rewrite fromfile_in_range by lia.
      destruct (Z.ltb_spec n 0) as [Hneg | _]; [lia |].
      now rewrite length_drop. }
    rewrite Hsc. cbn [res scale cubes].
    destruct (fromfile _ (3 * n ^ 3 * 3)) as [[coeffs fd'] | e] eqn:Hco;
      [| eauto].
    pose proof (fun H => fromfile_truncated (drop 8 content) _ fd' n _ coeffs
                           Hpos H Hsc Hco) as Htr.
    rewrite length_drop in Htr. specialize (Htr ltac:(lia)).
    exists ValueError. unfold reshape.
    replace (Z.of_nat (length coeffs) =? fold_right Z.mul 1 [3; n; n; n; 3])%Z
      with false; [now rewrite andb_false_r |].
    symmetry. apply Z.eqb_neq. cbn [fold_right].
    replace (n ^ 3)%Z with (n * (n * n))%Z in Htr by ring. lia.
Qed.

Lemma from_file_fails_on_malformed_file_witness :
  from_file Jakob2019Interpolator_init [x53; x50; x45; x44]
  = (Jakob2019Interpolator_init, Raise ValueError)
  /\ from_file Jakob2019Interpolator_init (SPEC ++ [x02; x00])
     = (Jakob2019Interpolator_init, Raise StructError)
  /\ exists e : exn,
       from_file Jakob2019Interpolator_init truncated_table
       = (mkInterpolator (Some 2%Z) (Some []) None, Raise e).
Proof.
  split; [| split].
  - apply (from_file_fails_on_malformed_file Jakob2019Interpolator_init
             [x53; x50; x45; x44]).
    discriminate.
  - apply (from_file_fails_on_malformed_file Jakob2019Interpolator_init
             (SPEC ++ [x02; x00])); [reflexivity | simpl; lia].
  - destruct (from_file_fails_on_malformed_file Jakob2019Interpolator_init
                truncated_table) as (_ & _ & Htruncated).
    apply (Htruncated 2%Z); [reflexivity | reflexivity | lia |].
    simpl. lia.
Defined.

End Loading.

(** ** The grid interpolator *)

Section Grid.
Local Open Scope Z_scope.

Lemma py_index_wrap {A : Type} (a : list A) (i j : Z) :
  j = (if i <? 0 then i + Z.of_nat (length a) else i) ->
  0 <= j < Z.of_nat (length a) ->
  exists x, py_index a i = Ok x /\ a !! Z.to_nat j = Some x.
Proof.
  intros Hj Hrange. unfold py_index. rewrite <- Hj.
  replace ((j <? 0) || (Z.of_nat (length a) <=? j)) with false.
  2:{ symmetry. apply orb_false_intro; [apply Z.ltb_ge | apply Z.leb_gt]; lia. }
  destruct (a !! Z.to_nat j) as [x |] eqn:Hx.
  - exists x. split; reflexivity.
  - apply lookup_ge_None in Hx. lia.
Qed.

Lemma py_index_nonneg {A : Type} (a : list A) (i : Z) :
  0 <= i < Z.of_nat (length a) ->
  exists x, py_index a i = Ok x /\ a !! Z.to_nat i = Some x.
Proof.
  intros Hi. apply py_index_wrap; [| exact Hi].
  destruct (Z.ltb_spec i 0); [lia | reflexivity].
Qed.

Lemma py_index_last {A : Type} (a : list A) :
  (0 < length a)%nat ->
  exists x, py_index a (-1) = Ok x /\ a !! (length a - 1)%nat = Some x.
Proof.
  intros Hlen.
  destruct (py_index_wrap a (-1) (Z.of_nat (length a) - 1)) as (x & Hx & Hl).
  - simpl. lia.
  - lia.
  - exists x. split; [exact Hx |].
    now replace (length a - 1)%nat with (Z.to_nat (Z.of_nat (length a) - 1))
      by lia.
Qed.

(** On an axis with at least two points, [_find_indices] returns a lower
    edge with an upper neighbour, and flags the coordinates outside the
    axis. *)
Lemma find_index_ok (g : list float64) (x : float64) :
  (2 <= length g)%nat ->
  exists i y g0 glast,
    find_index g x = Ok (i, y, outside g0 glast x)
    /\ 0 <= i <= Z.of_nat (length g) - 2
    /\ g !! 0%nat = Some g0 /\ g !! (length g - 1)%nat = Some glast.
Proof.
  intros Hlen. unfold find_index.
  set (i0 := searchsorted g x - 1).
  set (i1 := if i0 <? 0 then 0 else i0).
  set (i := if Z.of_nat (length g) - 2 <? i1 then Z.of_nat (length g) - 2
            else i1).
  assert (Hi : 0 <= i <= Z.of_nat (length g) - 2).
  { unfold i, i1.
    repeat match goal with
           | |- context [?a <? ?b] => destruct (Z.ltb_spec a b)
           end; lia. }
  destruct (py_index_nonneg g i ltac:(lia)) as (gi & -> & _).
  destruct (py_index_nonneg g (i + 1) ltac:(lia)) as (gi1 & -> & _).
  destruct (py_index_nonneg g 0 ltac:(lia)) as (g0 & -> & Hg0).
  destruct (py_index_last g ltac:(lia)) as (glast & -> & Hglast).
  rewrite !bind_Ok.
  exists i, (F64.div (F64.sub x gi) (F64.sub gi1 gi)), g0, glast.
  repeat split; try assumption; lia.
Qed.

End Grid.


Section Arrays.
Local Open Scope Z_scope.

Lemma zprod_nonneg ds : 0 <= zprod ds.
Proof. induction ds as [| d ds IH]; simpl; [lia | nia]. Qed.

Lemma fold_left_zprod (rest : list nat) (acc : Z) :
  fold_left (fun a n => a * Z.of_nat n) rest acc = acc * zprod rest.
Proof.
  revert acc. induction rest as [| d rest IH]; intros acc; simpl; [lia |].
  rewrite IH. ring.
Qed.

Lemma wrap_index_nonneg (n : nat) (i : Z) :
  0 <= i < Z.of_nat n -> wrap_index n i = Ok i.
Proof.
  intros Hi. unfold wrap_index.
  destruct (Z.ltb_spec i 0) as [Hneg | _]; [lia |].
  replace ((i <? 0) || (Z.of_nat n <=? i)) with false; [reflexivity |].
  symmetry. apply orb_false_intro; [apply Z.ltb_ge | apply Z.leb_gt]; lia.
Qed.

(** The flat offset of a subscript within bounds addresses a block inside
    the array. *)
Lemma offset_bounds (ds : list nat) (idx : list Z) (rest : list nat) :
  Forall2 (fun d x => 0 <= x < Z.of_nat d) ds idx ->
  forall acc : Z, 0 <= acc ->
  exists o : Z,
    offset (ds ++ rest) idx acc = Ok o
    /\ acc * zprod ds * zprod rest <= o
    /\ o + zprod rest <= (acc + 1) * zprod ds * zprod rest.
Proof.
  induction 1 as [| d x ds idx Hx Hrest IH]; intros acc Hacc.
  - exists (acc * zprod rest). simpl.
    split; [| lia].
    destruct rest; simpl; [f_equal; lia |].
    f_equal. rewrite fold_left_zprod. ring.
  - cbn [app offset]. rewrite (wrap_index_nonneg d x Hx), bind_Ok.
    destruct (IH (acc * Z.of_nat d + x) ltac:(nia)) as (o & Ho & Hlo & Hhi).
    exists o. split; [exact Ho |].
    pose proof (zprod_nonneg ds) as Hds. pose proof (zprod_nonneg rest) as Hr.
    cbn [zprod fold_right]. fold (zprod ds).
    assert (Hp : 0 <= zprod ds * zprod rest) by nia.
    split; nia.
Qed.

Lemma getitem3_ok (ds : list nat) (items : list float64) (idx : list Z) :
  Forall2 (fun d x => 0 <= x < Z.of_nat d) ds idx ->
  Z.of_nat (length items) = zprod ds * 3 ->
  exists (o : nat) v0 v1 v2,
    getitem3 (mkArray (ds ++ [3%nat]) items) idx = Ok (v0, v1, v2)
    /\ items !! o = Some v0 /\ items !! S o = Some v1
    /\ items !! S (S o) = Some v2.
Proof.
  intros Hidx Hlen. unfold getitem3. cbn [shape data].
  destruct (offset_bounds ds idx [3%nat] Hidx 0 ltac:(lia)) as (o & -> & Hlo & Hhi).
  rewrite bind_Ok. change (zprod [3%nat]) with 3 in *.
  pose proof (zprod_nonneg ds) as Hds.
  assert (Ho : (Z.to_nat o + 3 <= length items)%nat) by lia.
  destruct (drop (Z.to_nat o) items) as [| v0 [| v1 [| v2 tl]]] eqn:Hdrop;
    try (apply (f_equal length) in Hdrop; rewrite length_drop in Hdrop;
         simpl in Hdrop; lia).
  exists (Z.to_nat o), v0, v1, v2. split; [reflexivity |].
  pose proof (lookup_drop items (Z.to_nat o) 0) as H0.
  pose proof (lookup_drop items (Z.to_nat o) 1) as H1.
  pose proof (lookup_drop items (Z.to_nat o) 2) as H2.
  rewrite Hdrop in H0, H1, H2. simpl in H0, H1, H2.
  replace (Z.to_nat o + 0)%nat with (Z.to_nat o) in H0 by lia.
  replace (Z.to_nat o + 1)%nat with (S (Z.to_nat o)) in H1 by lia.
  replace (Z.to_nat o + 2)%nat with (S (S (Z.to_nat o))) in H2 by lia.
  now rewrite <- H0, <- H1, <- H2.
Qed.

End Arrays.

Section Cells.
Local Open Scope Z_scope.

Lemma edges_corner (indices : list (Z * float64)) :
  forall (e : list Z) (w : float64) (ew : list Z * float64),
    ew ∈ edges indices e w -> exists c, ew.1 = e ++ c /\ corner indices c.
Proof.
  induction indices as [| [i y] rest IH]; intros e w ew Hin.
  - apply list_elem_of_singleton in Hin as ->. exists [].
    split; [now rewrite app_nil_r | constructor].
  - cbn [edges] in Hin. apply elem_of_app in Hin as [Hin | Hin];
      apply IH in Hin as (c & Hc & Hcorner).
    + exists (i :: c). split; [now rewrite Hc, <- app_assoc |].
      constructor; [now left | exact Hcorner].
    + exists ((i + 1) :: c). split; [now rewrite Hc, <- app_assoc |].
      constructor; [now right | exact Hcorner].
Qed.

Lemma accumulate_ok (values : ndarray) (corners : list (list Z * float64)) :
  (forall ew, ew ∈ corners -> exists v, getitem3 values ew.1 = Ok v) ->
  forall acc, exists r, accumulate values corners acc = Ok r.
Proof.
  induction corners as [| [e w] corners IH]; intros Hget acc.
  - now exists acc.
  - cbn [accumulate].
    destruct (Hget (e, w)) as (v & Hv); [left |].
    cbn [fst] in Hv. rewrite Hv, bind_Ok.
    apply IH. intros ew Hin. apply Hget. now right.
Qed.

(** A corner of a cell whose lower edges leave room for an upper neighbour
    lies inside the array. *)
Lemma corner_in_bounds (ds : list nat) (indices : list (Z * float64))
    (c : list Z) :
  Forall2 (fun d (iy : Z * float64) => 0 <= iy.1 <= Z.of_nat d - 2) ds indices ->
  corner indices c ->
  Forall2 (fun d x => 0 <= x < Z.of_nat d) ds c.
Proof.
  intros Hb. revert c. induction Hb as [| d iy ds indices Hd Hrest IH];
    intros c Hc; inversion Hc; subst; constructor.
  - destruct H1 as [-> | ->]; lia.
  - now apply IH.
Qed.

Lemma evaluate_linear_ok (ds : list nat) (items : list float64)
    (indices : list (Z * float64)) :
  Forall2 (fun d (iy : Z * float64) => 0 <= iy.1 <= Z.of_nat d - 2) ds indices ->
  Z.of_nat (length items) = zprod ds * 3 ->
  exists r, evaluate_linear (mkArray (ds ++ [3%nat]) items) indices = Ok r.
Proof.
  intros Hb Hlen. unfold evaluate_linear. apply accumulate_ok.
  intros ew Hin. apply edges_corner in Hin as (c & -> & Hc).
  destruct (getitem3_ok ds items c (corner_in_bounds _ _ _ Hb Hc) Hlen)
    as (o & v0 & v1 & v2 & Hv & _).
  now exists (v0, v1, v2).
Qed.

Lemma find_indices_ok4 (g0 g1 g2 g3 : list float64) (x0 x1 x2 x3 : float64) :
  (2 <= length g0)%nat -> (2 <= length g1)%nat ->
  (2 <= length g2)%nat -> (2 <= length g3)%nat ->
  exists indices lo0 hi0 lo1 hi1 lo2 hi2 lo3 hi3,
    find_indices [g0; g1; g2; g3] [x0; x1; x2; x3]
    = Ok (indices,
          outside lo0 hi0 x0
          || (outside lo1 hi1 x1
              || (outside lo2 hi2 x2 || (outside lo3 hi3 x3 || false))))
    /\ Forall2 (fun d (iy : Z * float64) => 0 <= iy.1 <= Z.of_nat d - 2)
         [length g0; length g1; length g2; length g3] indices
    /\ g0 !! 0%nat = Some lo0 /\ g0 !! (length g0 - 1)%nat = Some hi0
    /\ g1 !! 0%nat = Some lo1 /\ g1 !! (length g1 - 1)%nat = Some hi1
    /\ g2 !! 0%nat = Some lo2 /\ g2 !! (length g2 - 1)%nat = Some hi2
    /\ g3 !! 0%nat = Some lo3 /\ g3 !! (length g3 - 1)%nat = Some hi3.
Proof.
  intros H0 H1 H2 H3.
  destruct (find_index_ok g0 x0 H0) as (i0 & y0 & lo0 & hi0 & E0 & B0 & L0 & U0).
  destruct (find_index_ok g1 x1 H1) as (i1 & y1 & lo1 & hi1 & E1 & B1 & L1 & U1).
  destruct (find_index_ok g2 x2 H2) as (i2 & y2 & lo2 & hi2 & E2 & B2 & L2 & U2).
  destruct (find_index_ok g3 x3 H3) as (i3 & y3 & lo3 & hi3 & E3 & B3 & L3 & U3).
  exists [(i0, y0); (i1, y1); (i2, y2); (i3, y3)],
    lo0, hi0, lo1, hi1, lo2, hi2, lo3, hi3.
  cbn [find_indices]. rewrite E0, E1, E2, E3.
  split; [reflexivity |].
  split; [repeat (constructor; [assumption |]); constructor |].
  repeat split; assumption.
Qed.

End Cells.

Section LoadedTables.
Local Open Scope Z_scope.

(** What [from_file] leaves in the object when it returns. *)
Lemma loaded_inv (self : Jakob2019Interpolator) :
  loaded self ->
  exists (n : Z) (sc coeffs : list float64),
    0 <= n
    /\ res self = Some n
    /\ scale self = Some sc
    /\ cubes self
       = Some (mkRGI
                 [[Num 0; Num 1; Num 2]; sc;
                  linspace (Num 0) (Num 1) (Z.to_nat n);
                  linspace (Num 0) (Num 1) (Z.to_nat n)]
                 (mkArray ([3; Z.to_nat n; Z.to_nat n; Z.to_nat n] ++ [3])%nat
                    coeffs)
                 false (Some NaN))
    /\ length sc = Z.to_nat n
    /\ Z.of_nat (length coeffs)
       = zprod [3; Z.to_nat n; Z.to_nat n; Z.to_nat n]%nat * 3
    /\ strictly_ascending sc = true
    /\ strictly_ascending (linspace (Num 0) (Num 1) (Z.to_nat n)) = true.
Proof.
  intros (self0 & content & Hload). unfold from_file, read in Hload.
  destruct (decide (take 4 content ≠ SPEC)) as [Hbad | Hmagic];
    [discriminate |].
  destruct (unpack_i (take 4 (drop 4 content))) as [n | e]; [| discriminate].
  destruct (fromfile (drop 4 (drop 4 content)) n) as [[sc fd] | e];
    [| discriminate].
  destruct (fromfile fd (3 * n ^ 3 * 3)) as [[coeffs fd'] | e];
    [| discriminate].
  destruct (reshape coeffs [3; n; n; n; 3]) as [a | e] eqn:Hreshape;
    [| discriminate].
  destruct (RegularGridInterpolator_init _ a false) as [c | e] eqn:Hinit;
    [| discriminate].
  injection Hload as <-. cbn [res scale cubes].
  unfold reshape in Hreshape.
  destruct (forallb _ _ && _) eqn:Hchecks; [| discriminate].
  injection Hreshape as <-.
  apply andb_prop in Hchecks as [Hdims Hsize].
  cbn [forallb] in Hdims. apply Z.eqb_eq in Hsize.
  assert (Hn : 0 <= n) by lia.
  unfold RegularGridInterpolator_init in Hinit. cbn [shape map length] in Hinit.
  destruct (5 <? 4)%nat eqn:Hnd; [discriminate |].
  destruct (forallb strictly_ascending _ && _) eqn:Haxes; [| discriminate].
  injection Hinit as <-.
  apply andb_prop in Haxes as [Hasc Hlens].
  cbn [forallb] in Hasc. cbn [zip zip_with forallb] in Hlens.
  exists n, sc, coeffs.
  assert (Hsc : length sc = Z.to_nat n).
  { apply andb_prop in Hlens as [_ Hlens].
    apply andb_prop in Hlens as [Hlens _]. now apply Nat.eqb_eq in Hlens. }
  assert (Hascsc : strictly_ascending sc = true).
  { apply andb_prop in Hasc as [_ Hasc].
    now apply andb_prop in Hasc as [Hasc _]. }
  assert (Hascsamples :
    strictly_ascending (linspace (Num 0) (Num 1) (Z.to_nat n)) = true).
  { apply andb_prop in Hasc as [_ Hasc].
    apply andb_prop in Hasc as [_ Hasc].
    now apply andb_prop in Hasc as [Hasc _]. }
  repeat split; try assumption; try reflexivity.
  rewrite Hsize. cbn [fold_right zprod]. lia.
Qed.

End LoadedTables.

Section OutOfBounds.
Local Open Scope Z_scope.

Lemma linspace_unit_ends (n : nat) :
  (2 <= n)%nat ->
  linspace (Num 0) (Num 1) n !! 0%nat = Some (Num 0)
  /\ linspace (Num 0) (Num 1) n !! (n - 1)%nat = Some (Num 1).
Proof.
  intros Hn.
  assert (Hdiv : (0 < INR (n - 1))%R) by (apply lt_0_INR; lia).
  rewrite !linspace_unit_lookup by lia. split; do 2 f_equal.
  - simpl. unfold Rdiv. ring.
  - field. lra.
Qed.

(** C8. On a loaded table of resolution at least 2, a query whose
    interpolation coordinates [(imax, vmax, v2, v3)] fall outside the axis
    ranges of the grid ([vmax] outside the range of the scale array, or [v2]
    or [v3] outside [[0, 1]]) returns the fill value, a triplet of NaN: the
    interpolator neither extrapolates nor raises. *)
Theorem coefficients_outside_grid_is_nan
    (self : Jakob2019Interpolator) (n : Z) (sc : list float64) (RGB : vec3) :
  loaded self ->
  res self = Some n ->
  scale self = Some sc ->
  2 <= n ->
  outside_axes sc (coordinates RGB) = true ->
  coefficients self RGB = Ok (NaN, NaN, NaN).
Proof.
  intros Hloaded Hres Hscale Hn Hout.
  destruct (loaded_inv self Hloaded)
    as (n' & sc' & coeffs & _ & Hres' & Hscale' & Hcubes & Hsc & Hlen & _ & _).
  rewrite Hres in Hres'. injection Hres' as <-.
  rewrite Hscale in Hscale'. injection Hscale' as <-.
  unfold coefficients. rewrite Hcubes.
  unfold RegularGridInterpolator_call. cbn [grid rgi_values bounds_error fill_value].
  unfold coordinates in *.
  set (x0 := Num (INR (np_argmax3 RGB))) in *.
  set (x1 := np_max3 RGB) in *.
  set (x2 := vget _ ((np_argmax3 RGB + 2) mod 3)) in *.
  set (x3 := vget _ ((np_argmax3 RGB + 1) mod 3)) in *.
  cbn [length Nat.eqb negb].
  set (samples := linspace (Num 0) (Num 1) (Z.to_nat n)) in *.
  assert (Hsamples : length samples = Z.to_nat n) by apply linspace_length.
  destruct (find_indices_ok4 [Num 0; Num 1; Num 2] sc samples samples
              x0 x1 x2 x3)
    as (indices & lo0 & hi0 & lo1 & hi1 & lo2 & hi2 & lo3 & hi3
        & Hfind & Hbounds & L0 & U0 & L1 & U1 & L2 & U2 & L3 & U3);
    [simpl; lia | lia | lia | lia |].
  rewrite Hfind, bind_Ok. cbn [andb].
  destruct (evaluate_linear_ok
              [3%nat; Z.to_nat n; Z.to_nat n; Z.to_nat n] coeffs indices)
    as (r & Hr).
  { cbn [length] in Hbounds. now rewrite Hsc, Hsamples in Hbounds. }
  { exact Hlen. }
  rewrite Hr, bind_Ok.
  injection L0 as <-. injection U0 as <-.
  destruct (linspace_unit_ends (Z.to_nat n) ltac:(lia)) as [Hfirst Hlast].
  fold samples in Hfirst, Hlast. rewrite Hsamples in U2, U3.
  rewrite Hfirst in L2, L3. rewrite Hlast in U2, U3.
  injection L2 as <-. injection L3 as <-.
  injection U2 as <-. injection U3 as <-.
  unfold outside_axes in Hout. rewrite L1, U1 in Hout.
  rewrite !orb_false_r, !orb_assoc, Hout. reflexivity.
Qed.

End OutOfBounds.

Section Sorted.
Local Open Scope R_scope.

Lemma ltb_Num_true a b : F64.ltb (Num a) (Num b) = true -> a < b.
Proof. unfold F64.ltb. destruct (Rlt_dec a b); [tauto | discriminate]. Qed.

Lemma strictly_ascending_sorted (rs : list R) :
  strictly_ascending (map Num rs) = true -> StronglySorted Rlt rs.
Proof.
  intros Hasc. apply Sorted_StronglySorted; [exact Rlt_trans |].
  induction rs as [| x [| y l] IH]; [constructor | repeat constructor |].
  cbn [map strictly_ascending] in Hasc.
  apply andb_prop in Hasc as [Hxy Hrest].
  rewrite sub_Num in Hxy. apply ltb_Num_true in Hxy.
  constructor; [apply IH; exact Hrest | constructor; lra].
Qed.

Lemma sorted_lookup_lt (rs : list R) (a b : nat) (x y : R) :
  StronglySorted Rlt rs ->
  rs !! a = Some x -> rs !! b = Some y -> (a < b)%nat -> x < y.
Proof.
  intros Hs. revert a b. induction Hs as [| r l Hs IH Hall]; intros a b Ha Hb Hab.
  - discriminate.
  - destruct b as [| b]; [lia |]. destruct a as [| a].
    + injection Ha as <-. simpl in Hb.
      rewrite List.Forall_forall in Hall. apply Hall.
      apply list_elem_of_In. eapply list_elem_of_lookup_2. exact Hb.
    + simpl in Ha, Hb. eapply IH; eauto. lia.
Qed.

Lemma sorted_lookup_le (rs : list R) (a b : nat) (x y : R) :
  StronglySorted Rlt rs ->
  rs !! a = Some x -> rs !! b = Some y -> (a <= b)%nat -> x <= y.
Proof.
  intros Hs Ha Hb Hab. destruct (decide (a = b)) as [-> | Hne].
  - rewrite Ha in Hb. injection Hb as ->. lra.
  - left. eapply sorted_lookup_lt; eauto. lia.
Qed.


End Sorted.

Section NodeAxis.
Local Open Scope R_scope.

Lemma py_index_Num (rs : list R) (i : Z) (r : R) :
  (0 <= i)%Z -> rs !! Z.to_nat i = Some r ->
  py_index (map Num rs) i = Ok (Num r).
Proof.
  intros Hi Hr.
  destruct (py_index_nonneg (map Num rs) i) as (x & Hx & Hl).
  - rewrite length_map. apply lookup_lt_Some in Hr. lia.
  - rewrite list_lookup_fmap, Hr in Hl. simpl in Hl. congruence.
Qed.

Lemma py_index_Num_last (rs : list R) (r : R) :
  rs !! (length rs - 1)%nat = Some r ->
  py_index (map Num rs) (-1) = Ok (Num r).
Proof.
  intros Hr.
  destruct (py_index_last (map Num rs)) as (x & Hx & Hl).
  - rewrite length_map. apply lookup_lt_Some in Hr. lia.
  - rewrite length_map, list_lookup_fmap, Hr in Hl. simpl in Hl. congruence.
Qed.


End NodeAxis.

Section NodeSum.
Local Open Scope R_scope.

Lemma accumulate_app (values : ndarray) (l1 l2 : list (list Z * float64))
    (acc : vec3) :
  accumulate values (l1 ++ l2) acc
  = accumulate values l1 acc ≫= accumulate values l2.
Proof.
  revert acc. induction l1 as [| [e w] l1 IH]; intros acc; [reflexivity |].
  cbn [app accumulate]. destruct (getitem3 values e) as [v | err];
    [| reflexivity].
  rewrite !bind_Ok. apply IH.
Qed.

Lemma vadd_vscale_vnum (acc v : R3) (w : R) :
  vadd (vnum acc) (vscale (vnum v) (Num w)) = vnum (r3_add acc (r3_scale v w)).
Proof. destruct acc as [[a0 a1] a2], v as [[v0 v1] v2]. reflexivity. Qed.


End NodeSum.

Section AtNode.
Local Open Scope R_scope.

Lemma finite_is_Num (x : float64) : F64.is_finite x -> x = Num (to_real x).
Proof. destruct x; simpl; intros H; [reflexivity | | |]; contradiction. Qed.

Lemma finite_list (l : list float64) :
  Forall F64.is_finite l -> l = map Num (map to_real l).
Proof.
  induction 1 as [| x l Hx Hl IH]; [reflexivity |].
  cbn [map]. now rewrite <- IH, <- finite_is_Num.
Qed.

(** A subscript within bounds of a table of finite numbers selects a
    finite triplet. *)
Lemma getitem3_finite (ds : list nat) (items : list float64) (idx : list Z) :
  Forall2 (fun d x => (0 <= x < Z.of_nat d)%Z) ds idx ->
  Z.of_nat (length items) = (zprod ds * 3)%Z ->
  Forall F64.is_finite items ->
  getitem3 (mkArray (ds ++ [3%nat]) items) idx
  = Ok (vnum (vreal
      (match getitem3 (mkArray (ds ++ [3%nat]) items) idx with
       | Ok v => v
       | Raise _ => (NaN, NaN, NaN)
       end))).
Proof.
  intros Hidx Hlen Hfin.
  destruct (getitem3_ok ds items idx Hidx Hlen)
    as (o & v0 & v1 & v2 & -> & H0 & H1 & H2).
  rewrite Forall_lookup in Hfin.
  cbn [vreal vnum].
  now rewrite <- !finite_is_Num by eauto.
Qed.

Lemma linspace_unit_eq (n : nat) :
  (2 <= n)%nat ->
  linspace (Num 0) (Num 1) n
  = map Num (map (fun i : nat => INR i / INR (n - 1)) (seq 0 n)).
Proof.
  intros Hn. apply list_eq. intros i.
  rewrite !list_lookup_fmap.
  destruct (decide (i < n)%nat) as [Hi | Hi].
  - rewrite linspace_unit_lookup, lookup_seq_lt by lia. reflexivity.
  - rewrite lookup_seq_ge by lia.
    apply lookup_ge_None. rewrite linspace_length. lia.
Qed.

End AtNode.

Section NodeTheorem.
Local Open Scope R_scope.



End NodeTheorem.

Section ZeroTable.
Local Open Scope R_scope.

Lemma float32_of_bits_zero : float32_of_bits 0 = Num 0.
Proof.
  unfold float32_of_bits. cbv -[IZR powerRZ Rmult Ropp]. f_equal. ring.
Qed.

Lemma float32_of_bits_one : float32_of_bits 1065353216 = Num 1.
Proof.
  unfold float32_of_bits. cbv -[IZR powerRZ Rmult Ropp]. f_equal.
  unfold powerRZ. replace (Pos.to_nat 23) with 23%nat by reflexivity.
  assert (Hpow : 2 ^ 23 = 8388608) by (simpl; lra).
  rewrite Hpow. field.
Qed.

Lemma strictly_ascending_unit : strictly_ascending [Num 0; Num 1] = true.
Proof.
  cbn [strictly_ascending]. now rewrite sub_Num, ltb_Num_lt by lra.
Qed.

Lemma strictly_ascending_channels :
  strictly_ascending [Num 0; Num 1; Num 2] = true.
Proof.
  cbn [strictly_ascending]. now rewrite !sub_Num, !ltb_Num_lt by lra.
Qed.

Lemma decode_float32s_zeros (k : nat) :
  decode_float32s (repeat x00 (4 * k)) = repeat (Num 0) k.
Proof.
  induction k as [| k IH]; [reflexivity |].
  replace (4 * S k)%nat with (4 + 4 * k)%nat by lia.
  cbn [repeat Nat.add decode_float32s]. rewrite IH. f_equal.
  exact float32_of_bits_zero.
Qed.

(** The sample table loads. *)
Lemma zero_table_loads :
  from_file Jakob2019Interpolator_init zero_table
  = (mkInterpolator (Some 2%Z) (Some [Num 0; Num 1])
       (Some (mkRGI
                [[Num 0; Num 1; Num 2]; [Num 0; Num 1]; [Num 0; Num 1];
                 [Num 0; Num 1]]
                (mkArray [3; 2; 2; 2; 3]%nat (repeat (Num 0) 72))
                false (Some NaN))),
     Ok ()).
Proof.
  unfold from_file, zero_table, read.
  destruct (decide (take 4 (SPEC ++ _) ≠ SPEC)) as [Hbad | _];
    [now elim Hbad |].
  change (unpack_i _) with (Ok (A := Z) 2%Z). cbv beta iota.
  change (fromfile _ 2)
    with (Ok ([float32_of_bits 0; float32_of_bits 1065353216],
              repeat x00 288)).
  cbv beta iota.
  rewrite float32_of_bits_zero, float32_of_bits_one.
  change (fromfile (repeat x00 288) (3 * 2 ^ 3 * 3))
    with (Ok (decode_float32s (repeat x00 (4 * 72)), @nil byte)).
  cbv beta iota. rewrite decode_float32s_zeros.
  change (reshape _ _)
    with (Ok (mkArray [3; 2; 2; 2; 3]%nat (repeat (Num 0) 72))).
  change (Z.to_nat 2) with 2%nat. rewrite linspace_2.
  unfold RegularGridInterpolator_init.
  cbn [shape length Nat.ltb Nat.leb forallb zip zip_with Nat.eqb].
  rewrite strictly_ascending_unit, strictly_ascending_channels.
  reflexivity.
Qed.

End ZeroTable.

Section TableWitnesses.
Local Open Scope R_scope.

Lemma zero_table_loaded :
  loaded (mkInterpolator (Some 2%Z) (Some [Num 0; Num 1])
            (Some (mkRGI
                     [[Num 0; Num 1; Num 2]; [Num 0; Num 1]; [Num 0; Num 1];
                      [Num 0; Num 1]]
                     (mkArray [3; 2; 2; 2; 3]%nat (repeat (Num 0) 72))
                     false (Some NaN)))).
Proof. exists Jakob2019Interpolator_init, zero_table. exact zero_table_loads. Qed.

Lemma coefficients_outside_grid_is_nan_witness :
  exists self : Jakob2019Interpolator,
    loaded self /\ coefficients self (Num 2, Num 0, Num 0) = Ok (NaN, NaN, NaN).
Proof.
  eexists. split; [exact zero_table_loaded |].
  apply (coefficients_outside_grid_is_nan _ 2%Z [Num 0; Num 1]);
    [exact zero_table_loaded | reflexivity | reflexivity | lia |].
  assert (Hmax : np_max3 (Num 2, Num 0, Num 0) = Num 2).
  { unfold np_max3. rewrite (ltb_Num_ge 2 0) by lra. cbv iota.
    now rewrite (ltb_Num_ge 2 0) by lra. }
  unfold outside_axes, coordinates. rewrite Hmax.
  cbn [lookup list_lookup length Nat.sub]. unfold outside at 2.
  rewrite (ltb_Num_lt 1 2) by lra.
  now rewrite orb_true_r, orb_true_r.
Defined.

End TableWitnesses.

(** ** The coefficient solver *)

Section Totality.

Lemma broadcast2_same_length (f : float64 -> float64 -> float64)
    (a b : list float64) :
  length a = length b -> broadcast2 f a b = Ok (zip_with f a b).
Proof.
  intros Hlen. unfold broadcast2.
  now destruct (Nat.eqb_spec (length a) (length b)).
Qed.

Lemma np_dot_same_length (a b : list float64) :
  length a = length b -> np_dot a b = Ok (np_sum (zip_with F64.mul a b)).
Proof.
  intros Hlen. unfold np_dot.
  now destruct (Nat.eqb_spec (length a) (length b)).
Qed.

(** With one illuminant value and one row of colour-matching functions for
    each sample of the shape, and at least two wavelengths, the error
    function raises nothing. *)
Lemma error_function_body_total (coefficients target : vec3)
    (shape : SpectralShape) (cmfs : MultiSpectralDistributions)
    (illuminant : SpectralDistribution) (illuminant_XYZ : vec3) :
  length (values illuminant) = length (range shape) ->
  length (msd_values cmfs) = length (range shape) ->
  (2 <= length (msd_wavelengths cmfs))%nat ->
  exists l, error_function_body coefficients target shape cmfs illuminant
              illuminant_XYZ = Ok l.
Proof.
  intros Hill Hcmfs Hwl. unfold error_function_body.
  set (n := length (range shape)) in *.
  set (wv := linspace (Num 0) (Num 1) n).
  assert (Hwv : length wv = n) by apply linspace_length.
  set (U := map (U_poly coefficients) wv).
  assert (HU : length U = n) by (unfold U; now rewrite length_map).
  set (t1 := map _ U).
  assert (Ht1 : length t1 = n) by (unfold t1; now rewrite length_map).
  set (R_ := zip_with _ U t1).
  assert (HR : length R_ = n)
    by (unfold R_; rewrite length_zip_with, HU, Ht1; apply Nat.min_id).
  set (t2 := zip_with _ U t1).
  assert (Ht2 : length t2 = n)
    by (unfold t2; rewrite length_zip_with, HU, Ht1; apply Nat.min_id).
  cbv zeta.
  rewrite !broadcast2_same_length
    by (unfold column;
        rewrite ?length_zip_with, ?length_map, ?Hwv, ?Ht2, ?HR, ?Hill,
          ?Hcmfs, ?Nat.min_id; reflexivity).
  rewrite !bind_Ok.
  destruct (py_index_nonneg (msd_wavelengths cmfs) 1 ltac:(lia)) as (w1 & -> & _).
  destruct (py_index_nonneg (msd_wavelengths cmfs) 0 ltac:(lia)) as (w0 & -> & _).
  rewrite !bind_Ok.
  unfold vbuildM.
  rewrite !np_dot_same_length
    by (unfold column;
        rewrite ?length_zip_with, ?length_map, ?Hwv, ?Ht2, ?HR, ?Hill,
          ?Hcmfs, ?Nat.min_id; reflexivity).
  rewrite !bind_Ok. eauto.
Qed.

Lemma error_function_total (coefficients target : vec3)
    (shape : SpectralShape) (cmfs : MultiSpectralDistributions)
    (illuminant : SpectralDistribution) (illuminant_XYZ : vec3)
    (return_intermediates : bool) :
  length (values illuminant) = length (range shape) ->
  length (msd_values cmfs) = length (range shape) ->
  (2 <= length (msd_wavelengths cmfs))%nat ->
  exists v, error_function_Jakob2019 coefficients target shape cmfs illuminant
              illuminant_XYZ return_intermediates = Ok v.
Proof.
  intros Hill Hcmfs Hwl.
  destruct (error_function_body_total coefficients target shape cmfs
              illuminant illuminant_XYZ Hill Hcmfs Hwl) as (l & Hl).
  unfold error_function_Jakob2019. rewrite Hl, bind_Ok.
  destruct return_intermediates; eauto.
Qed.

End Totality.

Section SolverClaims.
Context `{Externals}.

(** The state after the alignment branch, when the shapes differ. *)
Lemma coefficients_Jakob2019_mismatch (s : state) (target_XYZ : vec3)
    (cmfs illuminant : loc) (coefficients_0 : vec3) (dimensionalise : bool)
    (ill : SpectralDistribution) (c : MultiSpectralDistributions) :
  get_sd s illuminant = Ok ill ->
  get_msd s cmfs = Ok c ->
  shape_ne (sd_shape ill) (msd_shape c) = true ->
  (coefficients_Jakob2019 s target_XYZ cmfs illuminant coefficients_0
     dimensionalise).1
  = mkState (<[fresh (dom (objects s)) := SD (align ill (msd_shape c))]>
               (objects s))
      (warnings s ++ [AligningIlluminant (name ill) (msd_name c)]).
Proof.
  intros Hill Hc Hne. unfold coefficients_Jakob2019.
  rewrite Hill, Hc, Hne.
  unfold copy, runtime_warning, align_in_place, get_sd.
  cbn [objects warnings].
  rewrite lookup_insert_eq. cbn [objects warnings fst].
  now rewrite insert_insert_eq.
Qed.

Lemma coefficients_Jakob2019_match (s : state) (target_XYZ : vec3)
    (cmfs illuminant : loc) (coefficients_0 : vec3) (dimensionalise : bool)
    (ill : SpectralDistribution) (c : MultiSpectralDistributions) :
  get_sd s illuminant = Ok ill ->
  get_msd s cmfs = Ok c ->
  shape_ne (sd_shape ill) (msd_shape c) = false ->
  (coefficients_Jakob2019 s target_XYZ cmfs illuminant coefficients_0
     dimensionalise).1 = s.
Proof.
  intros Hill Hc Hne. unfold coefficients_Jakob2019.
  now rewrite Hill, Hc, Hne.
Qed.

Lemma coefficients_Jakob2019_invalid (s : state) (target_XYZ : vec3)
    (cmfs illuminant : loc) (coefficients_0 : vec3) (dimensionalise : bool) :
  (forall ill, get_sd s illuminant <> Ok ill)
  \/ (forall c, get_msd s cmfs <> Ok c) ->
  (coefficients_Jakob2019 s target_XYZ cmfs illuminant coefficients_0
     dimensionalise).1 = s.
Proof.
  intros Hbad. unfold coefficients_Jakob2019.
  destruct (get_sd s illuminant) as [ill | e] eqn:Hill; [| reflexivity].
  destruct (get_msd s cmfs) as [c | e] eqn:Hc; [| reflexivity].
  destruct Hbad as [Hbad | Hbad]; [now elim (Hbad ill) | now elim (Hbad c)].
Qed.

(** C10. [coefficients_Jakob2019] never mutates its [cmfs] and [illuminant]
    arguments: after any call, failed or not, the two objects, and every
    other object that existed before, are what they were.  When the shapes
    differ the realignment is applied to a copy: the only change to the
    store is one new object, the aligned illuminant, at a location that was
    not in use. *)
Theorem coefficients_Jakob2019_leaves_arguments_unchanged
    (s : state) (target_XYZ : vec3) (cmfs illuminant : loc)
    (coefficients_0 : vec3) (dimensionalise : bool) :
  objects (coefficients_Jakob2019 s target_XYZ cmfs illuminant coefficients_0
             dimensionalise).1 !! cmfs
  = objects s !! cmfs
  /\ objects (coefficients_Jakob2019 s target_XYZ cmfs illuminant
                coefficients_0 dimensionalise).1 !! illuminant
     = objects s !! illuminant
  /\ objects s
     ⊆ objects (coefficients_Jakob2019 s target_XYZ cmfs illuminant
                  coefficients_0 dimensionalise).1
  /\ (forall (ill : SpectralDistribution) (c : MultiSpectralDistributions),
        get_sd s illuminant = Ok ill ->
        get_msd s cmfs = Ok c ->
        shape_ne (sd_shape ill) (msd_shape c) = true ->
        (fresh (dom (objects s)) ∉ dom (objects s))
        /\ objects (coefficients_Jakob2019 s target_XYZ cmfs illuminant
                      coefficients_0 dimensionalise).1
           = <[fresh (dom (objects s)) := SD (align ill (msd_shape c))]>
               (objects s)).
Proof.
  pose proof (is_fresh (dom (objects s))) as Hfresh.
  assert (Hnone : objects s !! fresh (dom (objects s)) = None)
    by now apply not_elem_of_dom.
  destruct (get_sd s illuminant) as [ill | e] eqn:Hill.
  2:{ rewrite coefficients_Jakob2019_invalid by (left; congruence).
      repeat split; try reflexivity; intros; discriminate. }
  destruct (get_msd s cmfs) as [c | e] eqn:Hc.
  2:{ rewrite coefficients_Jakob2019_invalid by (right; congruence).
      repeat split; try reflexivity; intros; discriminate. }
  destruct (shape_ne (sd_shape ill) (msd_shape c)) eqn:Hne.
  - rewrite (coefficients_Jakob2019_mismatch _ _ _ _ _ _ ill c Hill Hc Hne).
    cbn [objects].
    assert (Hcm : cmfs <> fresh (dom (objects s))).
    { intros Heq. unfold get_msd in Hc. rewrite Heq, Hnone in Hc.
      discriminate. }
    assert (Hil : illuminant <> fresh (dom (objects s))).
    { intros Heq. unfold get_sd in Hill. rewrite Heq, Hnone in Hill.
      discriminate. }
    rewrite !lookup_insert_ne by congruence.
    repeat split; try reflexivity.
    + now apply insert_subseteq.
    + exact Hfresh.
    + congruence.
  - rewrite (coefficients_Jakob2019_match _ _ _ _ _ _ ill c Hill Hc Hne).
    repeat split; try reflexivity.
    + exact Hfresh.
    + intros. congruence.
Qed.

(** The rest of the solver, once the illuminant agrees with the
    colour-matching functions, returns when the optimiser does. *)
Lemma coefficients_Jakob2019_returns (s : state) (target_XYZ : vec3)
    (cmfs illuminant : loc) (coefficients_0 : vec3) (dimensionalise : bool)
    (ill : SpectralDistribution) (c : MultiSpectralDistributions) :
  get_sd s illuminant = Ok ill ->
  get_msd s cmfs = Ok c ->
  shape_ne (sd_shape ill) (msd_shape c) = false ->
  length (values ill) = length (range (msd_shape c)) ->
  length (msd_values c) = length (range (msd_shape c)) ->
  (2 <= length (msd_wavelengths c))%nat ->
  (forall f x0, (forall x, exists v, f x = Ok v) ->
                exists o, minimize f x0 = Ok o) ->
  exists v,
    (coefficients_Jakob2019 s target_XYZ cmfs illuminant coefficients_0
       dimensionalise).2 = Ok v.
Proof.
  intros Hill Hc Hne Hvals Hcmfs Hwl Hmin. unfold coefficients_Jakob2019.
  rewrite Hill, Hc, Hne. cbn [snd]. rewrite bind_Ok, Hill, bind_Ok.
  assert (Hshape : sd_shape ill = msd_shape c).
  { unfold shape_ne in Hne. apply negb_false_iff in Hne.
    apply andb_prop in Hne as [Hne Hi]. apply andb_prop in Hne as [Hs He].
    apply bool_decide_eq_true in Hs, He, Hi.
    destruct (sd_shape ill), (msd_shape c). simpl in *. congruence. }
  rewrite Hshape.
  match goal with
  | |- context [minimize ?f ?x0] => destruct (Hmin f x0) as (o & ->)
  end.
  - intros x. now apply error_function_total.
  - rewrite bind_Ok. eauto.
Qed.

(** C6. For an illuminant and colour-matching functions with one value for
    each sample of their shapes, a resampling that yields the requested
    shape, and an optimiser that returns whenever its objective does: if the
    shapes differ, one warning is issued, the illuminant is copied and the
    copy aligned to the shape of the colour-matching functions, and the call
    continues as a call on that copy and returns a result; if the shapes
    are equal the state is unchanged (no warning, no copy) and a result is
    returned.  A warning is issued if and only if the shapes differ. *)
Theorem shape_mismatch_warns_and_realigns
    (s : state) (target_XYZ : vec3) (cmfs illuminant : loc)
    (coefficients_0 : vec3) (dimensionalise : bool)
    (ill : SpectralDistribution) (c : MultiSpectralDistributions) :
  get_sd s illuminant = Ok ill ->
  get_msd s cmfs = Ok c ->
  length (values ill) = length (range (sd_shape ill)) ->
  length (msd_values c) = length (range (msd_shape c)) ->
  (2 <= length (msd_wavelengths c))%nat ->
  sd_shape (align ill (msd_shape c)) = msd_shape c ->
  length (values (align ill (msd_shape c))) = length (range (msd_shape c)) ->
  (forall f x0, (forall x, exists v, f x = Ok v) ->
                exists o, minimize f x0 = Ok o) ->
  (shape_ne (sd_shape ill) (msd_shape c) = true ->
     (coefficients_Jakob2019 s target_XYZ cmfs illuminant coefficients_0
        dimensionalise).1
     = mkState (<[fresh (dom (objects s)) := SD (align ill (msd_shape c))]>
                  (objects s))
         (warnings s ++ [AligningIlluminant (name ill) (msd_name c)])
     /\ (coefficients_Jakob2019 s target_XYZ cmfs illuminant coefficients_0
           dimensionalise).2
        = (coefficients_Jakob2019
             (coefficients_Jakob2019 s target_XYZ cmfs illuminant
                coefficients_0 dimensionalise).1
             target_XYZ cmfs (fresh (dom (objects s))) coefficients_0
             dimensionalise).2
     /\ exists v,
          (coefficients_Jakob2019 s target_XYZ cmfs illuminant coefficients_0
             dimensionalise).2 = Ok v)
  /\ (shape_ne (sd_shape ill) (msd_shape c) = false ->
        (coefficients_Jakob2019 s target_XYZ cmfs illuminant coefficients_0
           dimensionalise).1 = s
        /\ exists v,
             (coefficients_Jakob2019 s target_XYZ cmfs illuminant
                coefficients_0 dimensionalise).2 = Ok v)
  /\ (shape_ne (sd_shape ill) (msd_shape c) = true
      <-> warnings (coefficients_Jakob2019 s target_XYZ cmfs illuminant
                      coefficients_0 dimensionalise).1
          <> warnings s).
Proof.
  intros Hill Hc Hvals Hcmfs Hwl Hshape Halign Hmin.
  pose proof (is_fresh (dom (objects s))) as Hfresh.
  assert (Hnone : objects s !! fresh (dom (objects s)) = None)
    by now apply not_elem_of_dom.
  assert (Hcm : cmfs <> fresh (dom (objects s))).
  { intros Heq. unfold get_msd in Hc. rewrite Heq, Hnone in Hc. discriminate. }
  assert (Hmismatch :
    shape_ne (sd_shape ill) (msd_shape c) = true ->
    (coefficients_Jakob2019 s target_XYZ cmfs illuminant coefficients_0
       dimensionalise).2
    = (coefficients_Jakob2019
         (coefficients_Jakob2019 s target_XYZ cmfs illuminant
            coefficients_0 dimensionalise).1
         target_XYZ cmfs (fresh (dom (objects s))) coefficients_0
         dimensionalise).2
    /\ exists v,
         (coefficients_Jakob2019 s target_XYZ cmfs illuminant coefficients_0
            dimensionalise).2 = Ok v).
  { intros Hne.
    rewrite (coefficients_Jakob2019_mismatch _ _ _ _ _ _ ill c Hill Hc Hne).
    set (s' := mkState _ _).
    assert (Hill' : get_sd s' (fresh (dom (objects s)))
                    = Ok (align ill (msd_shape c))).
    { unfold get_sd, s'. cbn [objects]. now rewrite lookup_insert_eq. }
    assert (Hc' : get_msd s' cmfs = Ok c).
    { unfold get_msd, s'. cbn [objects].
      rewrite lookup_insert_ne by congruence. exact Hc. }
    assert (Hne' : shape_ne (sd_shape (align ill (msd_shape c))) (msd_shape c)
                   = false).
    { rewrite Hshape. unfold shape_ne.
      now rewrite !bool_decide_eq_true_2 by reflexivity. }
    assert (Hsame :
      (coefficients_Jakob2019 s target_XYZ cmfs illuminant coefficients_0
         dimensionalise).2
      = (coefficients_Jakob2019 s' target_XYZ cmfs (fresh (dom (objects s)))
           coefficients_0 dimensionalise).2).
    { unfold coefficients_Jakob2019 at 2. rewrite Hill', Hc', Hne'.
      cbn [snd]. rewrite bind_Ok, Hill', bind_Ok.
      unfold coefficients_Jakob2019. rewrite Hill, Hc, Hne.
      unfold copy, runtime_warning, align_in_place, get_sd.
      cbn [objects warnings]. rewrite lookup_insert_eq.
      cbn [objects warnings snd]. rewrite bind_Ok.
      rewrite lookup_insert_eq, bind_Ok. reflexivity. }
    split; [exact Hsame |]. rewrite Hsame.
    now apply (coefficients_Jakob2019_returns s' _ _ _ _ _
                 (align ill (msd_shape c)) c). }
  split; [| split].
  - intros Hne. split; [now apply coefficients_Jakob2019_mismatch |].
    now apply Hmismatch.
  - intros Hne. split; [now apply (coefficients_Jakob2019_match _ _ _ _ _ _ ill c) |].
    apply (coefficients_Jakob2019_returns s _ _ _ _ _ ill c); try assumption.
    unfold shape_ne in Hne. apply negb_false_iff in Hne.
    apply andb_prop in Hne as [Hne Hi]. apply andb_prop in Hne as [Hs He].
    apply bool_decide_eq_true in Hs, He, Hi.
    rewrite Hvals. destruct (sd_shape ill), (msd_shape c). simpl in *.
    congruence.
  - destruct (shape_ne (sd_shape ill) (msd_shape c)) eqn:Hne.
    + rewrite (coefficients_Jakob2019_mismatch _ _ _ _ _ _ ill c Hill Hc Hne).
      cbn [warnings]. split; [intros _ | reflexivity].
      intros Heq. apply (f_equal length) in Heq.
      rewrite length_app in Heq. simpl in Heq. lia.
    + rewrite (coefficients_Jakob2019_match _ _ _ _ _ _ ill c Hill Hc Hne).
      split; [discriminate | intros Hw; now elim Hw].
Qed.

End SolverClaims.

Section SolverWitnesses.
Local Open Scope R_scope.

Lemma range_two (a b : R) :
  a < b -> range (mkShape a b (b - a)) = [Num (a + 0 * (b - a)); Num (a + 1 * (b - a))].
Proof.
  intros Hab. unfold range. cbn [start end_ interval].
  replace ((b - a) / (b - a)) with 1 by (field; lra).
  rewrite up_1. reflexivity.
Qed.

Lemma shape_of_flat : shape_of [Num 0; Num 1] = mkShape 0 1 (1 - 0).
Proof. reflexivity. Qed.

Lemma sample_minimize_returns :
  forall f x0, (forall x, exists v, f x = Ok v) ->
               exists o, @minimize sample_externals f x0 = Ok o.
Proof.
  intros f x0 Hf. destruct (Hf x0) as (v & Hv). cbn [minimize sample_externals].
  rewrite Hv. destruct v; eauto.
Qed.

Lemma shape_mismatch_warns_and_realigns_witness :
  warnings (@coefficients_Jakob2019 sample_externals sample_state
              (Num 50, Num 50, Num 50) 0%nat 2%nat grey true).1
  = [AligningIlluminant (Named "wide") (Named "flat")]
  /\ exists v,
       (@coefficients_Jakob2019 sample_externals sample_state
          (Num 50, Num 50, Num 50) 0%nat 2%nat grey true).2 = Ok v.
Proof.
  destruct (@shape_mismatch_warns_and_realigns sample_externals sample_state
              (Num 50, Num 50, Num 50) 0%nat 2%nat grey true
              wide_illuminant flat_cmfs) as (Hdiffer & _ & _).
  - reflexivity.
  - reflexivity.
  - cbn [sd_shape sample_externals wide_illuminant wavelengths values].
    change (shape_of [Num 0; Num 2]) with (mkShape 0 2 (2 - 0)).
    rewrite range_two by lra. reflexivity.
  - cbn [msd_shape sample_externals flat_cmfs msd_wavelengths msd_values].
    rewrite shape_of_flat, range_two by lra. reflexivity.
  - simpl. lia.
  - cbn [msd_shape sd_shape align sample_externals flat_cmfs msd_wavelengths
           wavelengths].
    rewrite shape_of_flat, range_two by lra.
    unfold shape_of. cbn [map to_real List.last]. f_equal; lra.
  - cbn [align sample_externals values]. now rewrite length_map.
  - exact sample_minimize_returns.
  - destruct Hdiffer as (Hstate & _ & Hreturns).
    + cbn [sd_shape msd_shape sample_externals wide_illuminant flat_cmfs
             wavelengths msd_wavelengths].
      unfold shape_ne, shape_of. cbn [map to_real List.last start end_ interval].
      rewrite (bool_decide_eq_false_2 (2 = 1)) by lra.
      now rewrite andb_false_r.
    + split; [| exact Hreturns]. now rewrite Hstate.
Defined.

Lemma coefficients_Jakob2019_leaves_arguments_unchanged_witness :
  objects (@coefficients_Jakob2019 sample_externals sample_state
             (Num 50, Num 50, Num 50) 0%nat 2%nat grey true).1 !! 2%nat
  = Some (SD wide_illuminant).
Proof.
  destruct (@coefficients_Jakob2019_leaves_arguments_unchanged
              sample_externals sample_state (Num 50, Num 50, Num 50)
              0%nat 2%nat grey true) as (_ & Hilluminant & _).
  etransitivity; [exact Hilluminant | reflexivity].
Defined.

End SolverWitnesses.

(** * Further properties of the code *)

(** ** Interpolation inside the grid *)

Section InRange.
Local Open Scope R_scope.

Lemma searchsorted_spec (rs : list R) (x : R) :
  StronglySorted Rlt rs ->
  exists k : nat,
    searchsorted (map Num rs) (Num x) = Z.of_nat k
    /\ (k <= length rs)%nat
    /\ (forall j r, rs !! j = Some r -> (j < k)%nat -> r < x)
    /\ (forall j r, rs !! j = Some r -> (k <= j)%nat -> x <= r).
Proof.
  induction 1 as [| y l Hs IH Hall].
  - exists 0%nat. repeat split; [simpl; lia | |]; intros j r Hj; discriminate.
  - cbn [map searchsorted sort_lt].
    destruct (Rlt_dec y x) as [Hlt | Hge].
    + rewrite ltb_Num_lt by exact Hlt.
      destruct IH as (k & Hk & Hlen & Hbelow & Habove).
      exists (S k). rewrite Hk. repeat split.
      * lia.
      * simpl. lia.
      * intros [| j] r Hj Hjk; [injection Hj as <-; exact Hlt |].
        simpl in Hj. apply (Hbelow j r Hj). lia.
      * intros [| j] r Hj Hjk; [lia |].
        simpl in Hj. apply (Habove j r Hj). lia.
    + rewrite ltb_Num_ge by lra.
      exists 0%nat. repeat split; [simpl; lia | intros; lia |].
      intros [| j] r Hj _; [injection Hj as <-; lra |].
      simpl in Hj. rewrite List.Forall_forall in Hall.
      assert (y < r); [| lra].
      apply Hall. apply list_elem_of_In. eapply list_elem_of_lookup_2. exact Hj.
Qed.

(** Within the range of an ascending axis [_find_indices] returns a cell
    that holds the coordinate, with a normalised distance between 0 and 1. *)
Lemma find_index_in_range (rs : list R) (x lo hi : R) :
  StronglySorted Rlt rs -> (2 <= length rs)%nat ->
  rs !! 0%nat = Some lo -> rs !! (length rs - 1)%nat = Some hi ->
  lo <= x <= hi ->
  exists (i : nat) (a b : R),
    find_index (map Num rs) (Num x)
    = Ok (Z.of_nat i, Num ((x - a) / (b - a)), false)
    /\ rs !! i = Some a /\ rs !! S i = Some b
    /\ a <= x <= b /\ a < b.
Proof.
  intros Hs Hlen Hlo Hhi Hx. unfold find_index. cbv zeta.
  destruct (searchsorted_spec rs x Hs) as (k & -> & Hk & Hbelow & Habove).
  rewrite length_map.
  assert (Hklt : (k < length rs)%nat).
  { destruct (decide (k < length rs)%nat) as [| Hge]; [assumption |].
    pose proof (Hbelow _ _ Hhi ltac:(lia)). lra. }
  set (i := (k - 1)%nat).
  assert (Hi : (if (Z.of_nat (length rs) - 2
                    <? (if (Z.of_nat k - 1 <? 0)%Z then 0 else Z.of_nat k - 1))%Z
                then (Z.of_nat (length rs) - 2)%Z
                else if (Z.of_nat k - 1 <? 0)%Z then 0%Z
                     else (Z.of_nat k - 1)%Z) = Z.of_nat i).
  { subst i. destruct (Z.ltb_spec (Z.of_nat k - 1) 0).
    - destruct (Z.ltb_spec (Z.of_nat (length rs) - 2) 0); lia.
    - destruct (Z.ltb_spec (Z.of_nat (length rs) - 2) (Z.of_nat k - 1)); lia. }
  rewrite Hi.
  destruct (lookup_lt_is_Some_2 rs i ltac:(lia)) as [a Ha].
  destruct (lookup_lt_is_Some_2 rs (S i) ltac:(lia)) as [b Hb].
  exists i, a, b.
  pose proof (sorted_lookup_lt rs i (S i) a b Hs Ha Hb ltac:(lia)) as Hab.
  assert (Hax : a <= x).
  { destruct k as [| k].
    - subst i. simpl in Ha. rewrite Hlo in Ha. injection Ha as <-. lra.
    - left. apply (Hbelow i a Ha). lia. }
  assert (Hxb : x <= b) by (apply (Habove (S i) b Hb); lia).
  rewrite (py_index_Num rs (Z.of_nat i) a)
    by (first [lia | rewrite Nat2Z.id; assumption]).
  rewrite (py_index_Num rs (Z.of_nat i + 1) b).
  2:{ lia. }
  2:{ now replace (Z.to_nat (Z.of_nat i + 1)) with (S i) by lia. }
  rewrite (py_index_Num rs 0 lo) by (first [lia | simpl; assumption]).
  rewrite (py_index_Num_last rs hi Hhi), !bind_Ok.
  rewrite !sub_Num, div_Num by lra.
  rewrite !ltb_Num_ge by lra.
  repeat split; try assumption; lra.
Qed.

Lemma r3_within_combine (lo hi y : R) (p q : R3) :
  0 <= y <= 1 -> within lo hi p -> within lo hi q ->
  within lo hi (r3_add (r3_scale p (1 - y)) (r3_scale q y)).
Proof.
  intros Hy. destruct p as [[p0 p1] p2], q as [[q0 q1] q2].
  cbn [within r3_add r3_scale]. intros (P0 & P1 & P2) (Q0 & Q1 & Q2).
  repeat split; nra.
Qed.

(** Multilinear interpolation stays within the bounds of the values at the
    corners of the cell. *)
Lemma multilinear_within (V : list Z -> R3) (lo hi : R) (iys : list (Z * R)) :
  Forall (fun iy : Z * R => 0 <= iy.2 <= 1) iys ->
  forall e : list Z,
    (forall c, corner (finite_cell iys) c -> within lo hi (V (e ++ c))) ->
    within lo hi (multilinear V iys e).
Proof.
  induction 1 as [| [i y] iys Hy Hall IH]; intros e Hc.
  - cbn [multilinear]. specialize (Hc [] ltac:(constructor)).
    now rewrite app_nil_r in Hc.
  - cbn [multilinear]. apply r3_within_combine; [exact Hy | |]; apply IH;
      intros c Hcorner; rewrite <- app_assoc; apply Hc;
      (constructor; [| exact Hcorner]); [now left | now right].
Qed.

(** The weighted sum over the corners of a cell is the nested linear
    interpolation. *)
Lemma accumulate_multilinear (values : ndarray) (V : list Z -> R3)
    (iys : list (Z * R)) :
  forall (e : list Z) (w : R) (acc : R3),
    (forall c, corner (finite_cell iys) c ->
               getitem3 values (e ++ c) = Ok (vnum (V (e ++ c)))) ->
    exists r : R3,
      accumulate values (edges (finite_cell iys) e (Num w)) (vnum acc)
      = Ok (vnum r)
      /\ r = r3_add acc (r3_scale (multilinear V iys e) w).
Proof.
  induction iys as [| [i y] iys IH]; intros e w acc Hget.
  - cbn [finite_cell map edges accumulate multilinear].
    specialize (Hget [] ltac:(constructor)). rewrite app_nil_r in *.
    rewrite Hget, bind_Ok, vadd_vscale_vnum. eauto.
  - cbn [finite_cell map edges fst snd]. fold (finite_cell iys).
    rewrite sub_Num, !mul_Num, accumulate_app.
    destruct (IH (e ++ [i]) (w * (1 - y)) acc) as (r1 & Hr1 & Er1).
    { intros c Hc. rewrite <- app_assoc. apply Hget.
      constructor; [now left | exact Hc]. }
    rewrite Hr1, bind_Ok.
    destruct (IH (e ++ [(i + 1)%Z]) (w * y) r1) as (r2 & Hr2 & Er2).
    { intros c Hc. rewrite <- app_assoc. apply Hget.
      constructor; [now right | exact Hc]. }
    exists r2. split; [exact Hr2 |]. subst r1 r2.
    cbn [multilinear].
    destruct acc as [[c0 c1] c2].
    destruct (multilinear V iys (e ++ [i])) as [[a0 a1] a2].
    destruct (multilinear V iys (e ++ [(i + 1)%Z])) as [[b0 b1] b2].
    cbn [r3_add r3_scale]. (f_equal; [f_equal |]); ring.
Qed.

End InRange.

Section Coordinates.
Local Open Scope R_scope.

Lemma ltb_Num_false a b : F64.ltb (Num a) (Num b) = false -> b <= a.
Proof.
  unfold F64.ltb. destruct (Rlt_dec a b); [discriminate | intros _; lra].
Qed.

Lemma np_max3_Num (r g b : R) :
  np_max3 (Num r, Num g, Num b) = Num (Rmax (Rmax r g) b).
Proof.
  unfold np_max3, F64.ltb, Rmax.
  destruct (Rlt_dec r g), (Rle_dec r g); try lra;
    destruct (Rlt_dec _ b), (Rle_dec _ b); try lra; f_equal; lra.
Qed.

Lemma np_argmax3_Num (r g b : R) :
  let i := np_argmax3 (Num r, Num g, Num b) in
  (i <= 2)%nat
  /\ channel (r, g, b) i = Rmax (Rmax r g) b
  /\ forall j : nat, (j < i)%nat -> channel (r, g, b) j < Rmax (Rmax r g) b.
Proof.
  unfold np_argmax3, F64.ltb, Rmax. cbv zeta.
  destruct (Rlt_dec r g), (Rlt_dec r b), (Rlt_dec g b), (Rle_dec r g);
    try lra; destruct (Rle_dec _ b); try lra; cbn [orb channel];
    (split; [lia |]); (split; [lra || reflexivity |]);
    intros [| [| j]] Hj; try lia; cbn [channel]; lra.
Qed.

End Coordinates.

Section InRangeCall.
Local Open Scope R_scope.

Lemma find_indices_in_range4 (rs0 rs1 rs2 rs3 : list R) (x0 x1 x2 x3 : R)
    (lo0 hi0 lo1 hi1 lo2 hi2 lo3 hi3 : R) :
  StronglySorted Rlt rs0 -> StronglySorted Rlt rs1 ->
  StronglySorted Rlt rs2 -> StronglySorted Rlt rs3 ->
  (2 <= length rs0)%nat -> (2 <= length rs1)%nat ->
  (2 <= length rs2)%nat -> (2 <= length rs3)%nat ->
  rs0 !! 0%nat = Some lo0 -> rs0 !! (length rs0 - 1)%nat = Some hi0 ->
  rs1 !! 0%nat = Some lo1 -> rs1 !! (length rs1 - 1)%nat = Some hi1 ->
  rs2 !! 0%nat = Some lo2 -> rs2 !! (length rs2 - 1)%nat = Some hi2 ->
  rs3 !! 0%nat = Some lo3 -> rs3 !! (length rs3 - 1)%nat = Some hi3 ->
  lo0 <= x0 <= hi0 -> lo1 <= x1 <= hi1 ->
  lo2 <= x2 <= hi2 -> lo3 <= x3 <= hi3 ->
  exists (i0 i1 i2 i3 : nat) (a0 b0 a1 b1 a2 b2 a3 b3 : R),
    holds rs0 x0 i0 a0 b0 /\ holds rs1 x1 i1 a1 b1
    /\ holds rs2 x2 i2 a2 b2 /\ holds rs3 x3 i3 a3 b3
    /\ find_indices [map Num rs0; map Num rs1; map Num rs2; map Num rs3]
         [Num x0; Num x1; Num x2; Num x3]
       = Ok (finite_cell
               [(Z.of_nat i0, (x0 - a0) / (b0 - a0));
                (Z.of_nat i1, (x1 - a1) / (b1 - a1));
                (Z.of_nat i2, (x2 - a2) / (b2 - a2));
                (Z.of_nat i3, (x3 - a3) / (b3 - a3))], false).
Proof.
  intros S0 S1 S2 S3 L0 L1 L2 L3 F0 E0 F1 E1 F2 E2 F3 E3 X0 X1 X2 X3.
  destruct (find_index_in_range rs0 x0 lo0 hi0 S0 L0 F0 E0 X0)
    as (i0 & a0 & b0 & Q0 & A0 & B0 & I0 & J0).
  destruct (find_index_in_range rs1 x1 lo1 hi1 S1 L1 F1 E1 X1)
    as (i1 & a1 & b1 & Q1 & A1 & B1 & I1 & J1).
  destruct (find_index_in_range rs2 x2 lo2 hi2 S2 L2 F2 E2 X2)
    as (i2 & a2 & b2 & Q2 & A2 & B2 & I2 & J2).
  destruct (find_index_in_range rs3 x3 lo3 hi3 S3 L3 F3 E3 X3)
    as (i3 & a3 & b3 & Q3 & A3 & B3 & I3 & J3).
  exists i0, i1, i2, i3, a0, b0, a1, b1, a2, b2, a3, b3.
  unfold holds. repeat (split; [solve [auto] |]).
  cbn [find_indices]. rewrite Q0, Q1, Q2, Q3. reflexivity.
Qed.

Lemma holds_distance (rs : list R) (x : R) (i : nat) (a b : R) :
  holds rs x i a b -> 0 <= (x - a) / (b - a) <= 1.
Proof.
  intros (_ & _ & Hx & Hab).
  assert (0 < / (b - a)) by (apply Rinv_0_lt_compat; lra).
  split.
  - apply Rmult_le_pos; lra.
  - apply (Rmult_le_reg_r (b - a)); [lra |]. unfold Rdiv.
    rewrite Rmult_assoc, Rinv_l by lra. lra.
Qed.

Lemma holds_bound (rs : list R) (x : R) (i : nat) (a b : R) :
  holds rs x i a b -> (0 <= Z.of_nat i <= Z.of_nat (length rs) - 2)%Z.
Proof.
  intros (_ & Hb & _). apply lookup_lt_Some in Hb. lia.
Qed.

Lemma entry_bounded (ds : list nat) (items : list float64) (idx : list Z)
    (lo hi : R) :
  Forall2 (fun d x => (0 <= x < Z.of_nat d)%Z) ds idx ->
  Z.of_nat (length items) = (zprod ds * 3)%Z ->
  Forall (bounded lo hi) items ->
  getitem3 (mkArray (ds ++ [3%nat]) items) idx
  = Ok (vnum (entry (mkArray (ds ++ [3%nat]) items) idx))
  /\ within lo hi (entry (mkArray (ds ++ [3%nat]) items) idx).
Proof.
  intros Hidx Hlen Hb. unfold entry.
  destruct (getitem3_ok ds items idx Hidx Hlen)
    as (o & v0 & v1 & v2 & -> & H0 & H1 & H2).
  rewrite Forall_lookup in Hb.
  destruct (Hb _ _ H0) as (x0 & -> & B0).
  destruct (Hb _ _ H1) as (x1 & -> & B1).
  destruct (Hb _ _ H2) as (x2 & -> & B2).
  cbn [vreal vnum to_real within]. auto.
Qed.

(** Inside the grid, the interpolator of a four-axis table of finite
    triplets returns the nested linear interpolation over the cell that
    holds the point, a value within the bounds of the table. *)
Lemma call_in_range (rs0 rs1 rs2 rs3 : list R) (items : list float64)
    (x0 x1 x2 x3 : R) (lo0 hi0 lo1 hi1 lo2 hi2 lo3 hi3 lo hi : R) :
  let ds := [length rs0; length rs1; length rs2; length rs3] in
  let values := mkArray (ds ++ [3%nat]) items in
  StronglySorted Rlt rs0 -> StronglySorted Rlt rs1 ->
  StronglySorted Rlt rs2 -> StronglySorted Rlt rs3 ->
  (2 <= length rs0)%nat -> (2 <= length rs1)%nat ->
  (2 <= length rs2)%nat -> (2 <= length rs3)%nat ->
  rs0 !! 0%nat = Some lo0 -> rs0 !! (length rs0 - 1)%nat = Some hi0 ->
  rs1 !! 0%nat = Some lo1 -> rs1 !! (length rs1 - 1)%nat = Some hi1 ->
  rs2 !! 0%nat = Some lo2 -> rs2 !! (length rs2 - 1)%nat = Some hi2 ->
  rs3 !! 0%nat = Some lo3 -> rs3 !! (length rs3 - 1)%nat = Some hi3 ->
  lo0 <= x0 <= hi0 -> lo1 <= x1 <= hi1 ->
  lo2 <= x2 <= hi2 -> lo3 <= x3 <= hi3 ->
  Z.of_nat (length items) = (zprod ds * 3)%Z ->
  Forall (bounded lo hi) items ->
  exists (i0 i1 i2 i3 : nat) (a0 b0 a1 b1 a2 b2 a3 b3 : R),
    holds rs0 x0 i0 a0 b0 /\ holds rs1 x1 i1 a1 b1
    /\ holds rs2 x2 i2 a2 b2 /\ holds rs3 x3 i3 a3 b3
    /\ let iys := [(Z.of_nat i0, (x0 - a0) / (b0 - a0));
                   (Z.of_nat i1, (x1 - a1) / (b1 - a1));
                   (Z.of_nat i2, (x2 - a2) / (b2 - a2));
                   (Z.of_nat i3, (x3 - a3) / (b3 - a3))] in
       RegularGridInterpolator_call
         (mkRGI [map Num rs0; map Num rs1; map Num rs2; map Num rs3]
            values false (Some NaN))
         [Num x0; Num x1; Num x2; Num x3]
       = Ok (vnum (multilinear (entry values) iys []))
       /\ within lo hi (multilinear (entry values) iys []).
Proof.
  intros ds values S0 S1 S2 S3 L0 L1 L2 L3 F0 E0 F1 E1 F2 E2 F3 E3
    X0 X1 X2 X3 Hlen Hb.
  destruct (find_indices_in_range4 rs0 rs1 rs2 rs3 x0 x1 x2 x3
              lo0 hi0 lo1 hi1 lo2 hi2 lo3 hi3)
    as (i0 & i1 & i2 & i3 & a0 & b0 & a1 & b1 & a2 & b2 & a3 & b3
        & H0 & H1 & H2 & H3 & Hfind); try assumption.
  exists i0, i1, i2, i3, a0, b0, a1, b1, a2, b2, a3, b3.
  repeat (split; [assumption |]). cbv zeta.
  set (iys := [(Z.of_nat i0, (x0 - a0) / (b0 - a0));
               (Z.of_nat i1, (x1 - a1) / (b1 - a1));
               (Z.of_nat i2, (x2 - a2) / (b2 - a2));
               (Z.of_nat i3, (x3 - a3) / (b3 - a3))]) in *.
  assert (Hbounds :
    Forall2 (fun d (iy : Z * float64) => (0 <= iy.1 <= Z.of_nat d - 2)%Z)
      ds (finite_cell iys)).
  { unfold ds, iys. cbn [finite_cell map fst snd].
    repeat (constructor; [eapply holds_bound; eassumption |]). constructor. }
  assert (Hentry : forall c, corner (finite_cell iys) c ->
            getitem3 values ([] ++ c) = Ok (vnum (entry values ([] ++ c)))
            /\ within lo hi (entry values ([] ++ c))).
  { intros c Hc. cbn [app]. apply entry_bounded; [| assumption..].
    exact (corner_in_bounds _ _ _ Hbounds Hc). }
  destruct (accumulate_multilinear values (entry values) iys [] 1 (0, 0, 0))
    as (r & Hr & Er).
  { intros c Hc. apply Hentry, Hc. }
  assert (Er' : r = multilinear (entry values) iys []).
  { rewrite Er. destruct (multilinear _ _ _) as [[m0 m1] m2].
    cbn [r3_add r3_scale]. (f_equal; [f_equal |]); ring. }
  split.
  - unfold RegularGridInterpolator_call.
    cbn [grid rgi_values bounds_error fill_value length Nat.eqb negb].
    rewrite Hfind, bind_Ok. cbn [andb].
    unfold evaluate_linear. change (Num 0, Num 0, Num 0) with (vnum (0, 0, 0)).
    rewrite Hr, bind_Ok, Er'. reflexivity.
  - apply multilinear_within.
    + unfold iys. repeat (constructor; [eapply holds_distance; eassumption |]).
      constructor.
    + intros c Hc. apply Hentry, Hc.
Qed.

End InRangeCall.

Section GamutLemmas.
Local Open Scope R_scope.

Lemma epsilon_pos : 0 < 1 / 10 ^ 10.
Proof. apply Rdiv_lt_0_compat; [lra | apply pow_lt; lra]. Qed.

Lemma vget_vbuild (f : nat -> float64) (k : nat) :
  (k <= 2)%nat -> vget (vbuild f) k = f k.
Proof. intros Hk. destruct k as [| [| [| k]]]; [reflexivity.. | lia]. Qed.

Lemma vget_Num (rgb : R3) (k : nat) : vget (vnum rgb) k = Num (channel rgb k).
Proof. destruct rgb as [[r g] b], k as [| [| k]]; reflexivity. Qed.

(** The interpolation coordinates of a finite triplet. *)
Lemma coordinates_Num (r g b : R) :
  let m := Rmax (Rmax r g) b in
  let i := np_argmax3 (Num r, Num g, Num b) in
  m + 1 / 10 ^ 10 <> 0 ->
  coordinates (Num r, Num g, Num b)
  = [Num (INR i); Num m;
     Num (channel (r, g, b) ((i + 2) mod 3) / (m + 1 / 10 ^ 10));
     Num (channel (r, g, b) ((i + 1) mod 3) / (m + 1 / 10 ^ 10))].
Proof.
  intros m i Hm. unfold coordinates. fold i.
  rewrite np_max3_Num. fold m.
  rewrite !vget_vbuild by (apply Nat.lt_succ_r, Nat.mod_upper_bound; lia).
  change (Num r, Num g, Num b) with (vnum (r, g, b)).
  rewrite !vget_Num, add_Num, !div_Num by exact Hm. reflexivity.
Qed.

Lemma channel_le_max (r g b : R) (k : nat) :
  channel (r, g, b) k <= Rmax (Rmax r g) b.
Proof.
  pose proof (Rmax_l (Rmax r g) b). pose proof (Rmax_r (Rmax r g) b).
  pose proof (Rmax_l r g). pose proof (Rmax_r r g).
  destruct k as [| [| k]]; cbn [channel]; lra.
Qed.

(** The chroma of a channel of a triplet with a non-negative maximum is at
    most the channel divided by itself plus the guard, so below 1, and it
    has the sign of the channel. *)
Lemma chroma_range (r g b : R) (k : nat) :
  let m := Rmax (Rmax r g) b in
  0 <= m ->
  channel (r, g, b) k / (m + 1 / 10 ^ 10) < 1
  /\ (0 <= channel (r, g, b) k -> 0 <= channel (r, g, b) k / (m + 1 / 10 ^ 10))
  /\ (channel (r, g, b) k < 0 -> channel (r, g, b) k / (m + 1 / 10 ^ 10) < 0).
Proof.
  intros m Hm. pose proof epsilon_pos as He.
  pose proof (channel_le_max r g b k) as Hk. fold m in Hk.
  assert (Hpos : 0 < / (m + 1 / 10 ^ 10)) by (apply Rinv_0_lt_compat; lra).
  unfold Rdiv at 1 3 5. repeat split.
  - apply (Rmult_lt_reg_r (m + 1 / 10 ^ 10)); [lra |].
    rewrite Rmult_assoc, Rinv_l by lra. lra.
  - intros Hc. apply Rmult_le_pos; lra.
  - intros Hc. apply (Rmult_lt_reg_r (m + 1 / 10 ^ 10)); [lra |].
    rewrite Rmult_assoc, Rinv_l by lra. lra.
Qed.

Lemma sorted_channels : StronglySorted Rlt [0; 1; 2].
Proof.
  apply strictly_ascending_sorted. cbn [map strictly_ascending].
  rewrite !sub_Num, !ltb_Num_lt by lra. reflexivity.
Qed.

(** A loaded table of resolution [N >= 2] with a finite scale array, with
    its axes as ascending lists of reals. *)
Lemma loaded_real_axes (self : Jakob2019Interpolator) (n : Z)
    (sc : list float64) :
  loaded self -> res self = Some n -> scale self = Some sc -> (2 <= n)%Z ->
  Forall F64.is_finite sc ->
  exists (rs ts : list R) (coeffs : list float64),
    sc = map Num rs
    /\ ts = map (fun i : nat => INR i / INR (Z.to_nat n - 1))
              (seq 0 (Z.to_nat n))
    /\ length rs = Z.to_nat n /\ length ts = Z.to_nat n
    /\ StronglySorted Rlt rs /\ StronglySorted Rlt ts
    /\ cubes self
       = Some (mkRGI [map Num [0; 1; 2]; map Num rs; map Num ts; map Num ts]
                 (mkArray ([length [0; 1; 2]; length rs; length ts; length ts]
                           ++ [3%nat]) coeffs)
                 false (Some NaN))
    /\ Z.of_nat (length coeffs)
       = (zprod [length [0; 1; 2]; length rs; length ts; length ts] * 3)%Z.
Proof.
  intros Hloaded Hres Hscale Hn Hfsc.
  destruct (loaded_inv self Hloaded)
    as (n' & sc' & coeffs & _ & Hres' & Hscale' & Hcubes' & Hsc & Hlen
        & Hasc & Hascs).
  rewrite Hres in Hres'. injection Hres' as <-.
  rewrite Hscale in Hscale'. injection Hscale' as <-.
  rewrite (finite_list sc Hfsc) in Hasc, Hcubes'.
  rewrite linspace_unit_eq in Hascs, Hcubes' by lia.
  exists (map to_real sc),
    (map (fun i : nat => INR i / INR (Z.to_nat n - 1)) (seq 0 (Z.to_nat n))),
    coeffs.
  assert (Hrs : length (map to_real sc) = Z.to_nat n)
    by now rewrite length_map.
  rewrite !length_map, length_seq, Hsc.
  repeat split; try assumption.
  - now apply finite_list.
  - now apply strictly_ascending_sorted.
  - now apply strictly_ascending_sorted.
Qed.

Lemma linspace_reals_ends (N : nat) :
  (2 <= N)%nat ->
  let ts := map (fun i : nat => INR i / INR (N - 1)) (seq 0 N) in
  ts !! 0%nat = Some 0 /\ ts !! (length ts - 1)%nat = Some 1.
Proof.
  intros HN ts. unfold ts.
  assert (Hdiv : 0 < INR (N - 1)) by (apply lt_0_INR; lia).
  rewrite length_map, length_seq, !list_lookup_fmap, !lookup_seq_lt by lia.
  cbn [fmap option_fmap option_map]. split; f_equal.
  - simpl. unfold Rdiv. ring.
  - cbn [Nat.add]. field. lra.
Qed.

End GamutLemmas.

Section Gamut.
Local Open Scope R_scope.

Lemma argmax_in_range (r g b : R) :
  0 <= INR (np_argmax3 (Num r, Num g, Num b)) <= 2.
Proof.
  destruct (np_argmax3_Num r g b) as (Hi & _).
  split; [apply pos_INR |].
  change 2 with (INR 2). apply le_INR. exact Hi.
Qed.

(** Coefficients for a triplet inside the table. *)
Lemma coefficients_in_gamut (self : Jakob2019Interpolator) (n : Z)
    (sc : list float64) (cb : RegularGridInterpolator)
    (r g b smin smax lo hi : R) :
  loaded self -> res self = Some n -> scale self = Some sc ->
  cubes self = Some cb -> (2 <= n)%Z ->
  Forall F64.is_finite sc ->
  sc !! 0%nat = Some (Num smin) ->
  sc !! (length sc - 1)%nat = Some (Num smax) ->
  Forall (bounded lo hi) (data (rgi_values cb)) ->
  0 <= r -> 0 <= g -> 0 <= b ->
  smin <= Rmax (Rmax r g) b <= smax ->
  exists t : R3,
    coefficients self (Num r, Num g, Num b) = Ok (vnum t) /\ within lo hi t.
Proof.
  intros Hloaded Hres Hscale Hcubes Hn Hfsc Hmin Hmax Hb Hr Hg Hbl Hm.
  destruct (loaded_real_axes self n sc Hloaded Hres Hscale Hn Hfsc)
    as (rs & ts & coeffs & -> & Ets & Hrs & Hts & S1 & S2 & Hcubes' & Hlen).
  rewrite Hcubes in Hcubes'. injection Hcubes' as ->.
  cbn [rgi_values data] in Hb.
  rewrite length_map in Hmax. rewrite !list_lookup_fmap in Hmin, Hmax.
  destruct (rs !! 0%nat) as [s0 |] eqn:Hs0; [| discriminate].
  destruct (rs !! (length rs - 1)%nat) as [s1 |] eqn:Hs1; [| discriminate].
  injection Hmin as ->. injection Hmax as ->.
  destruct (linspace_reals_ends (Z.to_nat n) ltac:(lia)) as [Ht0 Ht1].
  rewrite <- Ets in Ht0, Ht1.
  set (m := Rmax (Rmax r g) b) in *.
  assert (Hm0 : 0 <= m).
  { pose proof (channel_le_max r g b 0) as H0. cbn [channel] in H0.
    fold m in H0. lra. }
  pose proof epsilon_pos as He.
  unfold coefficients. rewrite Hcubes.
  rewrite coordinates_Num by (fold m; lra). fold m.
  set (i := np_argmax3 (Num r, Num g, Num b)).
  assert (Hch : forall k, 0 <= channel (r, g, b) k).
  { intros [| [| k]]; cbn [channel]; assumption. }
  destruct (chroma_range r g b ((i + 2) mod 3) Hm0) as (U2 & P2 & _).
  destruct (chroma_range r g b ((i + 1) mod 3) Hm0) as (U3 & P3 & _).
  fold m in U2, P2, U3, P3.
  destruct (call_in_range [0; 1; 2] rs ts ts coeffs
              (INR i) m
              (channel (r, g, b) ((i + 2) mod 3) / (m + 1 / 10 ^ 10))
              (channel (r, g, b) ((i + 1) mod 3) / (m + 1 / 10 ^ 10))
              0 2 smin smax 0 1 0 1 lo hi)
    as (i0 & i1 & i2 & i3 & a0 & b0 & a1 & b1 & a2 & b2 & a3 & b3
        & _ & _ & _ & _ & Hcall & Hwithin);
    try assumption; try reflexivity; try lia.
  - exact sorted_channels.
  - simpl. lia.
  - apply argmax_in_range.
  - split; [apply P2, Hch | lra].
  - split; [apply P3, Hch | lra].
  - eexists. split; [exact Hcall | exact Hwithin].
Qed.

End Gamut.

Section Inside.
Local Open Scope R_scope.

Lemma outside_false (lo hi x : R) :
  outside (Num lo) (Num hi) (Num x) = false -> lo <= x <= hi.
Proof.
  unfold outside. intros H. apply orb_false_elim in H as [H1 H2].
  apply ltb_Num_false in H1, H2. lra.
Qed.

(** X1. On a loaded table of resolution at least 2 whose scale array is
    finite and whose coefficients all lie between [lo] and [hi], a query
    with finite interpolation coordinates inside the axis ranges of the grid
    returns a triplet of finite numbers, each between [lo] and [hi]: the
    interpolator neither raises, nor returns the fill value, nor
    overshoots the table. *)
Theorem coefficients_inside_grid_is_bounded
    (self : Jakob2019Interpolator) (n : Z) (sc : list float64)
    (cb : RegularGridInterpolator) (RGB : vec3) (lo hi : R) :
  loaded self ->
  res self = Some n ->
  scale self = Some sc ->
  cubes self = Some cb ->
  (2 <= n)%Z ->
  Forall F64.is_finite sc ->
  Forall (bounded lo hi) (data (rgi_values cb)) ->
  Forall F64.is_finite (coordinates RGB) ->
  outside_axes sc (coordinates RGB) = false ->
  exists t : R3, coefficients self RGB = Ok (vnum t) /\ within lo hi t.
Proof.
  intros Hloaded Hres Hscale Hcubes Hn Hfsc Hb Hfin Hin.
  destruct (loaded_real_axes self n sc Hloaded Hres Hscale Hn Hfsc)
    as (rs & ts & coeffs & -> & Ets & Hrs & Hts & S1 & S2 & Hcubes' & Hlen).
  rewrite Hcubes in Hcubes'. injection Hcubes' as ->.
  cbn [rgi_values data] in Hb.
  destruct (linspace_reals_ends (Z.to_nat n) ltac:(lia)) as [Ht0 Ht1].
  rewrite <- Ets in Ht0, Ht1.
  destruct (lookup_lt_is_Some_2 rs 0 ltac:(lia)) as [s0 Hs0].
  destruct (lookup_lt_is_Some_2 rs (length rs - 1) ltac:(lia)) as [s1 Hs1].
  unfold coefficients. rewrite Hcubes.
  unfold coordinates in *.
  set (x0 := INR (np_argmax3 RGB)) in *.
  set (v1 := np_max3 RGB) in *.
  set (v2 := vget _ ((np_argmax3 RGB + 2) mod 3)) in *.
  set (v3 := vget _ ((np_argmax3 RGB + 1) mod 3)) in *.
  apply Forall_cons in Hfin as [_ Hfin].
  apply Forall_cons in Hfin as [F1 Hfin].
  apply Forall_cons in Hfin as [F2 Hfin].
  apply Forall_cons in Hfin as [F3 _].
  rewrite (finite_is_Num v1 F1), (finite_is_Num v2 F2), (finite_is_Num v3 F3)
    in Hin |- *.
  unfold outside_axes in Hin.
  rewrite length_map, !list_lookup_fmap, Hs0, Hs1 in Hin.
  cbn [fmap option_fmap option_map] in Hin.
  apply orb_false_elim in Hin as [Hin H3].
  apply orb_false_elim in Hin as [Hin H2].
  apply orb_false_elim in Hin as [H0 H1].
  apply outside_false in H0, H1, H2, H3.
  destruct (call_in_range [0; 1; 2] rs ts ts coeffs
              x0 (to_real v1) (to_real v2) (to_real v3)
              0 2 s0 s1 0 1 0 1 lo hi)
    as (i0 & i1 & i2 & i3 & a0 & b0 & a1 & b1 & a2 & b2 & a3 & b3
        & _ & _ & _ & _ & Hcall & Hwithin);
    try assumption; try reflexivity; try lia.
  - exact sorted_channels.
  - simpl. lia.
  - eexists. split; [exact Hcall | exact Hwithin].
Qed.

End Inside.

Section InsideWitness.
Local Open Scope R_scope.

Lemma outside_Num_false (lo hi x : R) :
  lo <= x <= hi -> outside (Num lo) (Num hi) (Num x) = false.
Proof. intros Hx. unfold outside. now rewrite !ltb_Num_ge by lra. Qed.

(** A triplet of non-negative channels whose maximum is within the range of
    the scale array has finite coordinates inside the grid. *)
Lemma gamut_inside (sc : list float64) (r g b smin smax : R) :
  sc !! 0%nat = Some (Num smin) ->
  sc !! (length sc - 1)%nat = Some (Num smax) ->
  0 <= r -> 0 <= g -> 0 <= b ->
  smin <= Rmax (Rmax r g) b <= smax ->
  Forall F64.is_finite (coordinates (Num r, Num g, Num b))
  /\ outside_axes sc (coordinates (Num r, Num g, Num b)) = false.
Proof.
  intros Hmin Hmax Hr Hg Hb Hm.
  set (m := Rmax (Rmax r g) b) in *.
  assert (Hm0 : 0 <= m).
  { pose proof (channel_le_max r g b 0) as H0. cbn [channel] in H0.
    fold m in H0. lra. }
  pose proof epsilon_pos as He.
  rewrite coordinates_Num by (fold m; lra). fold m.
  set (i := np_argmax3 (Num r, Num g, Num b)).
  assert (Hch : forall k, 0 <= channel (r, g, b) k).
  { intros [| [| k]]; cbn [channel]; assumption. }
  destruct (chroma_range r g b ((i + 2) mod 3) Hm0) as (U2 & P2 & _).
  destruct (chroma_range r g b ((i + 1) mod 3) Hm0) as (U3 & P3 & _).
  fold m in U2, P2, U3, P3.
  split; [repeat constructor |].
  unfold outside_axes. rewrite Hmin, Hmax.
  rewrite !outside_Num_false; [reflexivity | | | |].
  - split; [apply P3, Hch | lra].
  - split; [apply P2, Hch | lra].
  - exact Hm.
  - apply argmax_in_range.
Qed.

Lemma zeros_bounded (k : nat) : Forall (bounded 0 0) (repeat (Num 0) k).
Proof.
  apply List.Forall_forall. intros v Hv. apply repeat_spec in Hv. subst v.
  exists 0. split; [reflexivity | lra].
Qed.

Lemma Rmax3_half : Rmax (Rmax (1 / 2) (1 / 4)) 0 = 1 / 2.
Proof.
  rewrite (Rmax_left (1 / 2) (1 / 4)) by lra. apply Rmax_left. lra.
Qed.

Lemma coefficients_inside_grid_is_bounded_witness :
  exists (self : Jakob2019Interpolator) (t : R3),
    loaded self
    /\ coefficients self (Num (1 / 2), Num (1 / 4), Num 0) = Ok (vnum t)
    /\ within 0 0 t.
Proof.
  eexists.
  destruct (gamut_inside [Num 0; Num 1] (1 / 2) (1 / 4) 0 0 1)
    as [Hfin Hin]; [reflexivity | reflexivity | lra | lra | lra | |].
  { rewrite Rmax3_half. lra. }
  destruct (coefficients_inside_grid_is_bounded _ 2%Z [Num 0; Num 1] _
              (Num (1 / 2), Num (1 / 4), Num 0) 0 0
              zero_table_loaded eq_refl eq_refl eq_refl ltac:(lia))
    as (t & Ht & Hw).
  - repeat constructor.
  - exact (zeros_bounded 72).
  - exact Hfin.
  - exact Hin.
  - exists t. split; [exact zero_table_loaded |]. split; assumption.
Defined.

End InsideWitness.

(** ** Interpolation between two nodes *)

Section Midpoint.
Local Open Scope R_scope.

Lemma bounded_weaken (lo hi lo' hi' : R) (v : float64) :
  lo' <= lo -> hi <= hi' -> bounded lo hi v -> bounded lo' hi' v.
Proof. intros Hlo Hhi (x & -> & Hx). exists x. split; [reflexivity | lra]. Qed.

(** A finite list of finite numbers has bounds. *)
Lemma finite_bounded (l : list float64) :
  Forall F64.is_finite l -> exists lo hi : R, Forall (bounded lo hi) l.
Proof.
  induction 1 as [| v l Hv Hl (lo & hi & IH)].
  - exists 0, 0. constructor.
  - apply finite_is_Num in Hv. rewrite Hv.
    exists (Rmin lo (to_real v)), (Rmax hi (to_real v)).
    pose proof (Rmin_l lo (to_real v)). pose proof (Rmin_r lo (to_real v)).
    pose proof (Rmax_l hi (to_real v)). pose proof (Rmax_r hi (to_real v)).
    constructor.
    + exists (to_real v). split; [reflexivity | lra].
    + eapply Forall_impl; [exact IH |]. intros w. now apply bounded_weaken.
Qed.

(** A node of an ascending axis lies at an edge of the cell that holds it. *)
Lemma holds_node (rs : list R) (m i : nat) (x a b : R) :
  StronglySorted Rlt rs -> rs !! m = Some x -> holds rs x i a b ->
  (i = m /\ a = x) \/ (S i = m /\ b = x).
Proof.
  intros Hs Hm (Ha & Hb & Hx & Hab).
  destruct (lt_eq_lt_dec m i) as [[Hlt | Heq] | Hgt].
  - pose proof (sorted_lookup_lt rs m i x a Hs Hm Ha Hlt). lra.
  - left. subst m. split; [reflexivity | congruence].
  - destruct (decide (m = S i)) as [-> | Hne].
    + right. split; [reflexivity | congruence].
    + pose proof (sorted_lookup_lt rs (S i) m b x Hs Hb Hm ltac:(lia)). lra.
Qed.

(** A point strictly between two neighbouring nodes lies in their cell. *)
Lemma holds_between (rs : list R) (m i : nat) (x a b a' b' : R) :
  StronglySorted Rlt rs -> rs !! m = Some a' -> rs !! S m = Some b' ->
  a' < x < b' -> holds rs x i a b -> i = m /\ a = a' /\ b = b'.
Proof.
  intros Hs Hm HSm Hx (Ha & Hb & Hx' & Hab).
  destruct (lt_eq_lt_dec m i) as [[Hlt | Heq] | Hgt].
  - pose proof (sorted_lookup_le rs (S m) i b' a Hs HSm Ha ltac:(lia)). lra.
  - subst m. repeat split; congruence.
  - pose proof (sorted_lookup_le rs (S i) m b a' Hs Hb Hm ltac:(lia)). lra.
Qed.

Lemma multilinear_at_node (V : list Z -> R3) (rs : list R) (m i : nat)
    (x a b : R) (rest : list (Z * R)) (e : list Z) :
  StronglySorted Rlt rs -> rs !! m = Some x -> holds rs x i a b ->
  multilinear V ((Z.of_nat i, (x - a) / (b - a)) :: rest) e
  = multilinear V rest (e ++ [Z.of_nat m]).
Proof.
  intros Hs Hm Hh. pose proof Hh as (_ & _ & _ & Hab).
  destruct (holds_node rs m i x a b Hs Hm Hh) as [[-> ->] | [<- ->]];
    cbn [multilinear].
  - destruct (multilinear V rest (e ++ [Z.of_nat m])) as [[p0 p1] p2].
    destruct (multilinear V rest (e ++ [(Z.of_nat m + 1)%Z])) as [[q0 q1] q2].
    cbn [r3_add r3_scale]. (f_equal; [f_equal |]); unfold Rdiv; ring.
  - replace (Z.of_nat (S i)) with (Z.of_nat i + 1)%Z by lia.
    destruct (multilinear V rest (e ++ [Z.of_nat i])) as [[p0 p1] p2].
    destruct (multilinear V rest (e ++ [(Z.of_nat i + 1)%Z])) as [[q0 q1] q2].
    cbn [r3_add r3_scale]. (f_equal; [f_equal |]); field; lra.
Qed.

Lemma multilinear_cons (V : list Z -> R3) (i : Z) (y : R)
    (rest : list (Z * R)) (e : list Z) :
  multilinear V ((i, y) :: rest) e
  = r3_add (r3_scale (multilinear V rest (e ++ [i])) (1 - y))
      (r3_scale (multilinear V rest (e ++ [(i + 1)%Z])) y).
Proof. reflexivity. Qed.

(** On a loaded table of resolution at least 2 with a finite scale array
    and finite coefficients, the interpolator called half-way between the
    two neighbouring grid nodes [(c, scale[i], j/(N-1), k/(N-1))] and
    [(c, scale[i+1], j/(N-1), k/(N-1))] returns the arithmetic mean of what
    the subscripts [(c, i, j, k)] and [(c, i + 1, j, k)] select from its
    array of values. *)
Lemma call_at_scale_midpoint
    (self : Jakob2019Interpolator) (n : Z) (sc : list float64)
    (cb : RegularGridInterpolator) (c i j k : nat) (a b : R) :
  loaded self ->
  res self = Some n ->
  scale self = Some sc ->
  cubes self = Some cb ->
  (2 <= n)%Z ->
  Forall F64.is_finite sc ->
  Forall F64.is_finite (data (rgi_values cb)) ->
  (c <= 2)%nat -> (j < Z.to_nat n)%nat -> (k < Z.to_nat n)%nat ->
  sc !! i = Some (Num a) -> sc !! S i = Some (Num b) ->
  exists t0 t1 : R3,
    getitem3 (rgi_values cb) [Z.of_nat c; Z.of_nat i; Z.of_nat j; Z.of_nat k]
    = Ok (vnum t0)
    /\ getitem3 (rgi_values cb)
         [Z.of_nat c; (Z.of_nat i + 1)%Z; Z.of_nat j; Z.of_nat k]
       = Ok (vnum t1)
    /\ RegularGridInterpolator_call cb
         [Num (INR c); Num ((a + b) / 2);
          Num (INR j / INR (Z.to_nat n - 1));
          Num (INR k / INR (Z.to_nat n - 1))]
       = Ok (vnum (r3_scale (r3_add t0 t1) (1 / 2))).
Proof.
  intros Hloaded Hres Hscale Hcubes Hn Hfsc Hfin Hc Hj Hk Hi HSi.
  destruct (loaded_real_axes self n sc Hloaded Hres Hscale Hn Hfsc)
    as (rs & ts & coeffs & -> & Ets & Hrs & Hts & S1 & S2 & Hcubes' & Hlen).
  rewrite Hcubes in Hcubes'. injection Hcubes' as ->.
  cbn [rgi_values data] in Hfin |- *.
  destruct (finite_bounded coeffs Hfin) as (lo & hi & Hb).
  destruct (linspace_reals_ends (Z.to_nat n) ltac:(lia)) as [Ht0 Ht1].
  rewrite <- Ets in Ht0, Ht1.
  destruct (lookup_lt_is_Some_2 rs 0 ltac:(lia)) as [s0 Hs0].
  destruct (lookup_lt_is_Some_2 rs (length rs - 1) ltac:(lia)) as [s1 Hs1].
  rewrite list_lookup_fmap in Hi, HSi.
  destruct (rs !! i) as [a' |] eqn:Ha; [| discriminate].
  destruct (rs !! S i) as [b' |] eqn:Hb'; [| discriminate].
  injection Hi as ->. injection HSi as ->.
  pose proof (lookup_lt_Some _ _ _ Hb') as HSilt.
  pose proof (sorted_lookup_lt rs i (S i) a b S1 Ha Hb' ltac:(lia)) as Hab.
  pose proof (sorted_lookup_le rs 0 i s0 a S1 Hs0 Ha ltac:(lia)) as Hlo.
  pose proof (sorted_lookup_le rs (S i) (length rs - 1) b s1 S1 Hb' Hs1
                ltac:(lia)) as Hhi.
  assert (N0 : [0; 1; 2] !! c = Some (INR c)).
  { destruct c as [| [| [| c]]]; [| | | lia]; cbn; f_equal; lra. }
  assert (N2 : ts !! j = Some (INR j / INR (Z.to_nat n - 1))).
  { rewrite Ets. now rewrite list_lookup_fmap, lookup_seq_lt by lia. }
  assert (N3 : ts !! k = Some (INR k / INR (Z.to_nat n - 1))).
  { rewrite Ets. now rewrite list_lookup_fmap, lookup_seq_lt by lia. }
  pose proof sorted_channels as S0.
  assert (R0 : 0 <= INR c <= 2).
  { split; [apply pos_INR |]. change 2 with (INR 2). now apply le_INR. }
  pose proof (sorted_lookup_le ts 0 j _ _ S2 Ht0 N2 ltac:(lia)) as R2l.
  pose proof (sorted_lookup_le ts j (length ts - 1) _ _ S2 N2 Ht1 ltac:(lia))
    as R2h.
  pose proof (sorted_lookup_le ts 0 k _ _ S2 Ht0 N3 ltac:(lia)) as R3l.
  pose proof (sorted_lookup_le ts k (length ts - 1) _ _ S2 N3 Ht1 ltac:(lia))
    as R3h.
  destruct (call_in_range [0; 1; 2] rs ts ts coeffs
              (INR c) ((a + b) / 2) (INR j / INR (Z.to_nat n - 1))
              (INR k / INR (Z.to_nat n - 1))
              0 2 s0 s1 0 1 0 1 lo hi)
    as (i0 & i1 & i2 & i3 & a0 & b0 & a1 & b1 & a2 & b2 & a3 & b3
        & H0 & H1 & H2 & H3 & Hcall & _);
    try assumption; try reflexivity; try lia; try lra.
  { simpl. lia. }
  cbn [map length app] in Hcall |- *. rewrite Hcall.
  set (values := mkArray _ coeffs) in *.
  destruct (holds_between rs i i1 ((a + b) / 2) a1 b1 a b S1 Ha Hb'
              ltac:(lra) H1) as (-> & -> & ->).
  rewrite (multilinear_at_node (entry values) [0; 1; 2] c i0 _ a0 b0 _ []
             S0 N0 H0).
  rewrite multilinear_cons.
  rewrite !(multilinear_at_node (entry values) ts j i2 _ a2 b2 _ _ S2 N2 H2).
  cbn [app].
  rewrite !(multilinear_at_node (entry values) ts k i3 _ a3 b3 _ _ S2 N3 H3).
  cbn [multilinear app].
  assert (Hget : forall idx,
            Forall2 (fun d x => (0 <= x < Z.of_nat d)%Z)
              [3%nat; length rs; length ts; length ts] idx ->
            getitem3 values idx = Ok (vnum (entry values idx))).
  { intros idx Hidx.
    apply (getitem3_finite [3%nat; length rs; length ts; length ts]);
      assumption. }
  exists (entry values [Z.of_nat c; Z.of_nat i; Z.of_nat j; Z.of_nat k]),
    (entry values [Z.of_nat c; (Z.of_nat i + 1)%Z; Z.of_nat j; Z.of_nat k]).
  split; [| split].
  - apply Hget. cbn [length]. repeat (constructor; [lia |]). constructor.
  - apply Hget. cbn [length]. repeat (constructor; [lia |]). constructor.
  - do 2 f_equal.
    destruct (entry values [Z.of_nat c; Z.of_nat i; Z.of_nat j; Z.of_nat k])
      as [[p0 p1] p2].
    destruct (entry values
                [Z.of_nat c; (Z.of_nat i + 1)%Z; Z.of_nat j; Z.of_nat k])
      as [[q0 q1] q2].
    cbn [r3_add r3_scale]. (f_equal; [f_equal |]); field; lra.
Qed.

End Midpoint.

(** ** The shape of the spectral model *)

Section ModelExtras.
Local Open Scope R_scope.

Lemma sqrt_one_plus_pos (u : R) : 0 < sqrt (1 + u * u).
Proof. apply sqrt_lt_R0. nra. Qed.

Lemma signed_inf_pos (r : R) : 0 < r -> F64.signed_inf r = PInf.
Proof.
  intros Hr. unfold F64.signed_inf.
  destruct (total_order_T r 0) as [[Hlt | Heq] | Hgt]; [lra | lra | reflexivity].
Qed.

Lemma signed_inf_neg (r : R) : r < 0 -> F64.signed_inf r = NInf.
Proof.
  intros Hr. unfold F64.signed_inf.
  destruct (total_order_T r 0) as [[Hlt | Heq] | Hgt]; [reflexivity | lra | lra].
Qed.

Lemma two_times_sqrt_inf :
  F64.mul (Num 2) (F64.sqrt (F64.add (Num 1) (F64.square PInf))) = PInf
  /\ F64.mul (Num 2) (F64.sqrt (F64.add (Num 1) (F64.square NInf))) = PInf.
Proof.
  split; unfold F64.square, F64.mul, F64.add, F64.sqrt; apply signed_inf_pos;
    lra.
Qed.

(** The value the model computes from one value of the polynomial. *)
Lemma reflectance_value (x : float64) :
  F64.add (F64.div (Num 1) (Num 2))
    (F64.div x (F64.mul (Num 2) (F64.sqrt (F64.add (Num 1) (F64.square x)))))
  = match x with
    | Num u => Num (sigmoid u)
    | _ => NaN
    end.
Proof.
  destruct x as [u | | |].
  - pose proof (sqrt_one_plus_pos u).
    rewrite square_Num, add_Num, sqrt_Num, mul_Num by nra.
    rewrite !div_Num by lra. rewrite add_Num. reflexivity.
  - rewrite (proj1 two_times_sqrt_inf), div_Num by lra. reflexivity.
  - rewrite (proj2 two_times_sqrt_inf), div_Num by lra. reflexivity.
  - rewrite div_Num by lra. reflexivity.
Qed.

Lemma spectral_model_lookup (coefficients : vec3) (shape : SpectralShape)
    (name : option sd_name) (i : nat) (w : float64) :
  range shape !! i = Some w ->
  values (spectral_model coefficients shape name) !! i
  = Some (match U_poly coefficients w with
          | Num u => Num (sigmoid u)
          | _ => NaN
          end).
Proof.
  intros Hw. unfold spectral_model. cbn [values].
  rewrite !list_lookup_fmap, Hw. cbn [fmap option_fmap option_map].
  now rewrite reflectance_value.
Qed.

Lemma sigmoid_bounds (u : R) : 0 < sigmoid u < 1.
Proof.
  unfold sigmoid. pose proof (sqrt_gt_abs u) as Habs.
  pose proof (sqrt_one_plus_pos u) as Hpos.
  assert (Hu : -1 < u / sqrt (1 + u * u) < 1).
  { assert (Hinv : 0 < / sqrt (1 + u * u)) by now apply Rinv_0_lt_compat.
    unfold Rabs in Habs. destruct (Rcase_abs u); split;
      apply (Rmult_lt_reg_r (sqrt (1 + u * u))); try assumption;
      unfold Rdiv; rewrite Rmult_assoc, Rinv_l by lra; lra. }
  replace (u / (2 * sqrt (1 + u * u))) with (u / sqrt (1 + u * u) / 2)
    by (field; lra).
  lra.
Qed.

Lemma sigmoid_opp (u : R) : sigmoid (- u) = 1 - sigmoid u.
Proof.
  unfold sigmoid. replace (- u * - u) with (u * u) by ring.
  pose proof (sqrt_one_plus_pos u). field. lra.
Qed.

Lemma sigmoid_increasing (u v : R) : u < v -> sigmoid u < sigmoid v.
Proof.
  intros Huv. unfold sigmoid.
  pose proof (sqrt_one_plus_pos u) as Hu. pose proof (sqrt_one_plus_pos v) as Hv.
  assert (Squ : sqrt (1 + u * u) * sqrt (1 + u * u) = 1 + u * u)
    by (apply sqrt_sqrt; nra).
  assert (Sqv : sqrt (1 + v * v) * sqrt (1 + v * v) = 1 + v * v)
    by (apply sqrt_sqrt; nra).
  set (su := sqrt (1 + u * u)) in *. set (sv := sqrt (1 + v * v)) in *.
  assert (Hkey : u * sv < v * su).
  { destruct (Rlt_dec u 0) as [Hun | Hup]; destruct (Rlt_dec v 0) as [Hvn | Hvp].
    - (* both negative *)
      apply Rnot_le_lt. intros Hle.
      assert (0 <= - (u * sv)) by nra.
      assert (- (u * sv) <= - (v * su)) by lra.
      assert ((u * sv) * (u * sv) <= (v * su) * (v * su)) by nra.
      assert (u * u * (sv * sv) <= v * v * (su * su)) by nra.
      rewrite Squ, Sqv in *. nra.
    - nra.
    - lra.
    - apply Rnot_le_lt. intros Hle.
      assert (0 <= v * su) by nra.
      assert ((v * su) * (v * su) <= (u * sv) * (u * sv)) by nra.
      assert (v * v * (su * su) <= u * u * (sv * sv)) by nra.
      rewrite Squ, Sqv in *. nra. }
  assert (u / (2 * su) < v / (2 * sv)); [| lra].
  apply (Rmult_lt_reg_r (2 * su * sv)); [nra |].
  replace (u / (2 * su) * (2 * su * sv)) with (u * sv) by (field; lra).
  replace (v / (2 * sv) * (2 * su * sv)) with (v * su) by (field; lra).
  exact Hkey.
Qed.

End ModelExtras.

Section ModelTheorems.
Local Open Scope R_scope.

Lemma signed_inf_opp (r : R) :
  F64.signed_inf (- r) = F64.opp (F64.signed_inf r).
Proof.
  unfold F64.signed_inf.
  destruct (total_order_T r 0) as [[Hlt | Heq] | Hgt];
    destruct (total_order_T (- r) 0) as [[Hlt' | Heq'] | Hgt'];
    try lra; reflexivity.
Qed.

Lemma mul_opp_l (x y : float64) :
  F64.mul (F64.opp x) y = F64.opp (F64.mul x y).
Proof.
  destruct x as [a | | |], y as [b | | |]; unfold F64.mul, F64.opp;
    try reflexivity; rewrite ?signed_inf_opp;
    try (destruct (F64.signed_inf _); reflexivity).
  - f_equal. ring.
  - unfold F64.signed_inf.
    destruct (total_order_T b 0) as [[Hlt | Heq] | Hgt]; reflexivity.
Qed.

Lemma add_opp (x y : float64) :
  F64.add (F64.opp x) (F64.opp y) = F64.opp (F64.add x y).
Proof.
  destruct x as [a | | |], y as [b | | |]; unfold F64.add, F64.opp;
    try reflexivity. f_equal. ring.
Qed.

Lemma U_poly_opp (c : vec3) (w : float64) :
  U_poly (vopp c) w = F64.opp (U_poly c w).
Proof.
  destruct c as [[c_0 c_1] c_2]. unfold U_poly, vopp.
  now rewrite !mul_opp_l, !add_opp.
Qed.

(** X3. In exact arithmetic, negating the three coefficients mirrors the
    spectrum about 1/2: at every wavelength the model gives [1 - R] where
    it gave [R] (and NaN where it gave NaN). *)
Theorem spectral_model_of_negated_coefficients
    (coefficients : vec3) (shape : SpectralShape) (name : option sd_name) :
  wavelengths (spectral_model (vopp coefficients) shape name) = range shape
  /\ values (spectral_model (vopp coefficients) shape name)
     = map (fun v => F64.sub (Num 1) v)
         (values (spectral_model coefficients shape name)).
Proof.
  split; [reflexivity |]. apply list_eq. intros i.
  rewrite list_lookup_fmap.
  destruct (range shape !! i) as [w |] eqn:Hw.
  - rewrite !(spectral_model_lookup _ _ _ _ w Hw), U_poly_opp.
    cbn [fmap option_fmap option_map]. f_equal.
    destruct (U_poly coefficients w) as [u | | |]; cbn [F64.opp];
      try reflexivity.
    now rewrite sub_Num, sigmoid_opp.
  - assert (Hnone : forall c, values (spectral_model c shape name) !! i = None).
    { intros c. unfold spectral_model. cbn [values].
      now rewrite !list_lookup_fmap, Hw. }
    now rewrite !Hnone.
Qed.

(** X4. The model is strictly increasing in the polynomial: where one
    triplet of coefficients gives a smaller finite value [u] of the
    polynomial at a wavelength than another gives ([v]), it gives a
    strictly smaller reflectance there. *)
Theorem spectral_model_increases_with_polynomial
    (c c' : vec3) (shape : SpectralShape) (name name' : option sd_name)
    (i : nat) (w : float64) (u v : R) :
  range shape !! i = Some w ->
  U_poly c w = Num u ->
  U_poly c' w = Num v ->
  u < v ->
  exists r r' : R,
    values (spectral_model c shape name) !! i = Some (Num r)
    /\ values (spectral_model c' shape name') !! i = Some (Num r')
    /\ r < r'.
Proof.
  intros Hw Hu Hv Huv. exists (sigmoid u), (sigmoid v).
  rewrite !(spectral_model_lookup _ _ _ _ w Hw), Hu, Hv.
  repeat split. now apply sigmoid_increasing.
Qed.

Lemma spectral_model_increases_with_polynomial_witness :
  exists r r' : R,
    values (spectral_model grey unit_shape None) !! 0%nat = Some (Num r)
    /\ values (spectral_model (Num 0, Num 0, Num 1) unit_shape None) !! 0%nat
       = Some (Num r')
    /\ r < r'.
Proof.
  apply (spectral_model_increases_with_polynomial grey (Num 0, Num 0, Num 1)
           unit_shape None None 0 (Num 0) 0 1).
  - now rewrite range_unit_shape.
  - apply U_poly_zero.
  - unfold U_poly. rewrite square_Num, !mul_Num, !add_Num. f_equal. ring.
  - lra.
Defined.

(** X5. The model gives NaN at a wavelength exactly when the polynomial is
    not a finite number there: an infinite value of the polynomial does not
    saturate to 0 or 1. *)
Theorem spectral_model_nan_iff_polynomial_not_finite
    (coefficients : vec3) (shape : SpectralShape) (name : option sd_name)
    (i : nat) (w : float64) :
  range shape !! i = Some w ->
  (values (spectral_model coefficients shape name) !! i = Some NaN
   <-> ~ F64.is_finite (U_poly coefficients w)).
Proof.
  intros Hw. rewrite (spectral_model_lookup _ _ _ _ w Hw).
  destruct (U_poly coefficients w) as [u | | |]; cbn [F64.is_finite];
    split; try tauto; try discriminate.
Qed.

Lemma spectral_model_nan_iff_polynomial_not_finite_witness :
  values (spectral_model (PInf, Num 0, Num 0) unit_shape None) !! 1%nat
  = Some NaN.
Proof.
  apply (spectral_model_nan_iff_polynomial_not_finite (PInf, Num 0, Num 0)
           unit_shape None 1 (Num 1)).
  - now rewrite range_unit_shape.
  - unfold U_poly. rewrite square_Num, !mul_Num.
    unfold F64.mul. rewrite signed_inf_pos by lra.
    cbn. tauto.
Defined.

End ModelTheorems.

(** ** Spectra from the table *)

Section Spectra.
Local Open Scope R_scope.

Lemma U_poly_Num (c : R3) (w : R) :
  exists u : R, U_poly (vnum c) (Num w) = Num u.
Proof.
  destruct c as [[c_0 c_1] c_2]. unfold U_poly, vnum.
  rewrite square_Num, !mul_Num, !add_Num. eauto.
Qed.

(** The spectrum of finite coefficients lies strictly between 0 and 1. *)
Lemma spectral_model_finite (c : R3) (shape : SpectralShape)
    (name : option sd_name) (i : nat) (v : float64) :
  values (spectral_model (vnum c) shape name) !! i = Some v ->
  exists x : R, v = Num x /\ 0 < x < 1.
Proof.
  intros Hv.
  destruct (range shape !! i) as [w |] eqn:Hw.
  - rewrite (spectral_model_lookup _ _ _ _ w Hw) in Hv.
    pose proof (range_lookup shape i w Hw) as ->.
    destruct (U_poly_Num c (start shape + INR i * interval shape)) as [u Hu].
    rewrite Hu in Hv. injection Hv as <-.
    exists (sigmoid u). split; [reflexivity | apply sigmoid_bounds].
  - unfold spectral_model in Hv. cbn [values] in Hv.
    rewrite !list_lookup_fmap, Hw in Hv. discriminate.
Qed.

(** X6. For a triplet of non-negative channels whose largest channel lies
    within the range of the scale array of a loaded table (resolution at
    least 2, finite scale array and coefficients), [RGB_to_sd] returns a
    distribution over the wavelengths of the shape, named after the
    triplet, whose values are, in exact arithmetic, all real numbers
    strictly between 0 and 1. *)
Theorem RGB_to_sd_in_gamut_is_reflectance
    (self : Jakob2019Interpolator) (n : Z) (sc : list float64)
    (cb : RegularGridInterpolator) (r g b smin smax : R)
    (shape : SpectralShape) :
  loaded self ->
  res self = Some n ->
  scale self = Some sc ->
  cubes self = Some cb ->
  (2 <= n)%Z ->
  Forall F64.is_finite sc ->
  Forall F64.is_finite (data (rgi_values cb)) ->
  sc !! 0%nat = Some (Num smin) ->
  sc !! (length sc - 1)%nat = Some (Num smax) ->
  0 <= r -> 0 <= g -> 0 <= b ->
  smin <= Rmax (Rmax r g) b <= smax ->
  exists sd : SpectralDistribution,
    RGB_to_sd self (Num r, Num g, Num b) shape = Ok sd
    /\ wavelengths sd = range shape
    /\ name sd = NamedByRGB (Num r, Num g, Num b)
    /\ length (values sd) = length (range shape)
    /\ forall (i : nat) (v : float64),
         values sd !! i = Some v -> exists x : R, v = Num x /\ 0 < x < 1.
Proof.
  intros Hloaded Hres Hscale Hcubes Hn Hfsc Hfin Hmin Hmax Hr Hg Hb Hm.
  destruct (finite_bounded _ Hfin) as (lo & hi & Hbd).
  destruct (coefficients_in_gamut self n sc cb r g b smin smax lo hi)
    as (t & Ht & _); try assumption.
  unfold RGB_to_sd. rewrite Ht, bind_Ok.
  eexists. split; [reflexivity |].
  split; [reflexivity |]. split; [reflexivity |]. split.
  - unfold spectral_model. cbn [values]. now rewrite !length_map.
  - apply spectral_model_finite.
Qed.

Lemma RGB_to_sd_in_gamut_is_reflectance_witness :
  exists (self : Jakob2019Interpolator) (sd : SpectralDistribution),
    loaded self
    /\ RGB_to_sd self (Num (1 / 2), Num (1 / 4), Num 0)
         DEFAULT_SPECTRAL_SHAPE_JAKOB_2019 = Ok sd
    /\ wavelengths sd = range DEFAULT_SPECTRAL_SHAPE_JAKOB_2019.
Proof.
  eexists.
  destruct (RGB_to_sd_in_gamut_is_reflectance _ 2%Z [Num 0; Num 1] _
              (1 / 2) (1 / 4) 0 0 1 DEFAULT_SPECTRAL_SHAPE_JAKOB_2019
              zero_table_loaded eq_refl eq_refl eq_refl ltac:(lia))
    as (sd & Hsd & Hwl & _).
  - repeat constructor.
  - apply List.Forall_forall. intros v Hv. apply repeat_spec in Hv.
    now subst v.
  - reflexivity.
  - reflexivity.
  - lra.
  - lra.
  - lra.
  - rewrite Rmax3_half. lra.
  - exists sd. split; [exact zero_table_loaded |]. split; assumption.
Defined.

End Spectra.

Section OutOfGamut.
Local Open Scope Z_scope.

(** Outside the grid the interpolator of a four-axis table returns its
    fill value. *)
Lemma call_outside4 (g0 g1 g2 g3 : list float64) (items : list float64)
    (x0 x1 x2 x3 fill : float64) (lo0 hi0 lo1 hi1 lo2 hi2 lo3 hi3 : float64) :
  (2 <= length g0)%nat -> (2 <= length g1)%nat ->
  (2 <= length g2)%nat -> (2 <= length g3)%nat ->
  Z.of_nat (length items)
  = zprod [length g0; length g1; length g2; length g3] * 3 ->
  g0 !! 0%nat = Some lo0 -> g0 !! (length g0 - 1)%nat = Some hi0 ->
  g1 !! 0%nat = Some lo1 -> g1 !! (length g1 - 1)%nat = Some hi1 ->
  g2 !! 0%nat = Some lo2 -> g2 !! (length g2 - 1)%nat = Some hi2 ->
  g3 !! 0%nat = Some lo3 -> g3 !! (length g3 - 1)%nat = Some hi3 ->
  outside lo0 hi0 x0 || outside lo1 hi1 x1 || outside lo2 hi2 x2
  || outside lo3 hi3 x3 = true ->
  RegularGridInterpolator_call
    (mkRGI [g0; g1; g2; g3]
       (mkArray ([length g0; length g1; length g2; length g3] ++ [3%nat])
          items)
       false (Some fill))
    [x0; x1; x2; x3]
  = Ok (fill, fill, fill).
Proof.
  intros L0 L1 L2 L3 Hlen F0 E0 F1 E1 F2 E2 F3 E3 Hout.
  unfold RegularGridInterpolator_call.
  cbn [grid rgi_values bounds_error fill_value length Nat.eqb negb].
  destruct (find_indices_ok4 g0 g1 g2 g3 x0 x1 x2 x3 L0 L1 L2 L3)
    as (indices & l0 & h0 & l1 & h1 & l2 & h2 & l3 & h3
        & Hfind & Hbounds & F0' & E0' & F1' & E1' & F2' & E2' & F3' & E3').
  rewrite Hfind, bind_Ok. cbn [andb].
  destruct (evaluate_linear_ok [length g0; length g1; length g2; length g3]
              items indices Hbounds Hlen) as (r & Hr).
  rewrite Hr, bind_Ok.
  replace l0 with lo0 by congruence. replace h0 with hi0 by congruence.
  replace l1 with lo1 by congruence. replace h1 with hi1 by congruence.
  replace l2 with lo2 by congruence. replace h2 with hi2 by congruence.
  replace l3 with lo3 by congruence. replace h3 with hi3 by congruence.
  rewrite !orb_false_r, !orb_assoc, Hout. reflexivity.
Qed.

Lemma nan_reflectance (shape : SpectralShape) (name : option sd_name) :
  values (spectral_model (NaN, NaN, NaN) shape name)
  = replicate (length (range shape)) NaN.
Proof.
  unfold spectral_model. cbn [values]. rewrite map_map.
  induction (range shape) as [| w l IH]; [reflexivity |].
  cbn [map length replicate]. rewrite IH. f_equal.
  rewrite reflectance_value. reflexivity.
Qed.

Lemma spectral_model_nan (shape : SpectralShape) (name : sd_name) :
  spectral_model (NaN, NaN, NaN) shape (Some name)
  = mkSD (replicate (length (range shape)) NaN) (range shape) name.
Proof.
  rewrite <- (nan_reflectance shape (Some name)). reflexivity.
Qed.

(** X7. For a triplet whose interpolation coordinates fall outside the
    grid of a loaded table of resolution at least 2, [RGB_to_sd] raises
    nothing: it returns a distribution over the wavelengths of the shape
    whose values are all NaN. *)
Theorem RGB_to_sd_outside_gamut_is_nan
    (self : Jakob2019Interpolator) (n : Z) (sc : list float64) (RGB : vec3)
    (shape : SpectralShape) :
  loaded self ->
  res self = Some n ->
  scale self = Some sc ->
  2 <= n ->
  outside_axes sc (coordinates RGB) = true ->
  RGB_to_sd self RGB shape
  = Ok (mkSD (replicate (length (range shape)) NaN) (range shape)
          (NamedByRGB RGB)).
Proof.
  intros Hloaded Hres Hscale Hn Hout.
  destruct (loaded_inv self Hloaded)
    as (n' & sc' & coeffs & _ & Hres' & Hscale' & Hcubes & Hsc & Hlen & _ & _).
  rewrite Hres in Hres'. injection Hres' as <-.
  rewrite Hscale in Hscale'. injection Hscale' as <-.
  set (samples := linspace (Num 0) (Num 1) (Z.to_nat n)) in *.
  assert (Hsamples : length samples = Z.to_nat n) by apply linspace_length.
  destruct (linspace_unit_ends (Z.to_nat n) ltac:(lia)) as [Hfirst Hlast].
  fold samples in Hfirst, Hlast.
  destruct (lookup_lt_is_Some_2 sc 0 ltac:(lia)) as [s0 Hs0].
  destruct (lookup_lt_is_Some_2 sc (length sc - 1) ltac:(lia)) as [s1 Hs1].
  unfold RGB_to_sd, coefficients. rewrite Hcubes.
  unfold coordinates in *.
  set (x0 := Num (INR (np_argmax3 RGB))) in *.
  set (x1 := np_max3 RGB) in *.
  set (x2 := vget _ ((np_argmax3 RGB + 2) mod 3)) in *.
  set (x3 := vget _ ((np_argmax3 RGB + 1) mod 3)) in *.
  unfold outside_axes in Hout. rewrite Hs0, Hs1 in Hout.
  replace (mkArray ([3; Z.to_nat n; Z.to_nat n; Z.to_nat n] ++ [3])%nat coeffs)
    with (mkArray ([length [Num 0; Num 1; Num 2]; length sc; length samples;
                    length samples] ++ [3%nat]) coeffs)
    by (now rewrite Hsc, Hsamples).
  rewrite (call_outside4 [Num 0; Num 1; Num 2] sc samples samples coeffs
             x0 x1 x2 x3 NaN (Num 0) (Num 2) s0 s1 (Num 0) (Num 1)
             (Num 0) (Num 1));
    try assumption; try reflexivity; try (simpl; lia); try lia.
  - now rewrite bind_Ok, spectral_model_nan.
  - now rewrite Hsc, Hsamples.
  - now rewrite Hsamples.
  - now rewrite Hsamples.
Qed.

End OutOfGamut.

Section OutOfGamutWitness.
Local Open Scope R_scope.

Lemma bright_red_outside :
  outside_axes [Num 0; Num 1] (coordinates (Num 2, Num 0, Num 0)) = true.
Proof.
  assert (Hmax : np_max3 (Num 2, Num 0, Num 0) = Num 2).
  { rewrite np_max3_Num. f_equal.
    rewrite (Rmax_left 2 0) by lra. apply Rmax_left. lra. }
  unfold outside_axes, coordinates. rewrite Hmax.
  cbn [lookup list_lookup length Nat.sub]. unfold outside at 2.
  rewrite (ltb_Num_lt 1 2) by lra.
  now rewrite orb_true_r, orb_true_r.
Qed.

Lemma RGB_to_sd_outside_gamut_is_nan_witness :
  exists self : Jakob2019Interpolator,
    loaded self
    /\ RGB_to_sd self (Num 2, Num 0, Num 0) unit_shape
       = Ok (mkSD (replicate (length (range unit_shape)) NaN)
               (range unit_shape) (NamedByRGB (Num 2, Num 0, Num 0))).
Proof.
  eexists. split; [exact zero_table_loaded |].
  apply (RGB_to_sd_outside_gamut_is_nan _ 2%Z [Num 0; Num 1]);
    [exact zero_table_loaded | reflexivity | reflexivity | lia |].
  exact bright_red_outside.
Defined.

End OutOfGamutWitness.

(** ** Which triplets are inside the grid *)

Section CoordinateTheorem.
Local Open Scope R_scope.

Lemma outside_Num_iff (lo hi x : R) :
  outside (Num lo) (Num hi) (Num x) = true <-> x < lo \/ hi < x.
Proof.
  unfold outside. rewrite orb_true_iff. split.
  - intros [H | H]; apply ltb_Num_true in H; tauto.
  - intros [H | H]; [left | right]; now apply ltb_Num_lt.
Qed.

(** X8. In exact arithmetic, the interpolation coordinates of a finite
    triplet whose largest channel [m] is not negative are the index of the
    first largest channel, [m] itself, and the two other channels divided
    by [m + 1e-10], each of these quotients a real number below 1.  Such a
    triplet falls outside the grid of a scale array
    that runs from [smin] to [smax] exactly when [m] is outside
    [[smin, smax]] or one of its channels is negative. *)
Theorem coordinates_of_finite_triplet
    (r g b smin smax : R) (sc : list float64) :
  let m := Rmax (Rmax r g) b in
  let i := np_argmax3 (Num r, Num g, Num b) in
  0 <= m ->
  sc !! 0%nat = Some (Num smin) ->
  sc !! (length sc - 1)%nat = Some (Num smax) ->
  (i <= 2)%nat
  /\ channel (r, g, b) i = m
  /\ (forall j : nat, (j < i)%nat -> channel (r, g, b) j < m)
  /\ (exists v2 v3 : R,
        coordinates (Num r, Num g, Num b) = [Num (INR i); Num m; Num v2; Num v3]
        /\ v2 = channel (r, g, b) ((i + 2) mod 3) / (m + 1 / 10 ^ 10)
        /\ v3 = channel (r, g, b) ((i + 1) mod 3) / (m + 1 / 10 ^ 10)
        /\ v2 < 1 /\ v3 < 1)
  /\ (outside_axes sc (coordinates (Num r, Num g, Num b)) = true
      <-> m < smin \/ smax < m \/ r < 0 \/ g < 0 \/ b < 0).
Proof.
  intros m i Hm Hmin Hmax.
  destruct (np_argmax3_Num r g b) as (Hi & Hch & Hfirst).
  fold i m in Hi, Hch, Hfirst.
  pose proof epsilon_pos as He.
  destruct (chroma_range r g b ((i + 2) mod 3) Hm) as (U2 & P2 & N2).
  destruct (chroma_range r g b ((i + 1) mod 3) Hm) as (U3 & P3 & N3).
  fold m in U2, P2, N2, U3, P3, N3.
  pose proof (argmax_in_range r g b) as Hi02. fold i in Hi02.
  repeat (split; [assumption |]). split.
  - eexists _, _. split; [| repeat split; assumption].
    apply coordinates_Num. fold m. lra.
  - rewrite coordinates_Num by (fold m; lra). fold m i.
    unfold outside_axes. rewrite Hmin, Hmax.
    rewrite !orb_true_iff, !outside_Num_iff.
    set (c2 := channel (r, g, b) ((i + 2) mod 3)) in *.
    set (c3 := channel (r, g, b) ((i + 1) mod 3)) in *.
    assert (Hneg : c2 < 0 \/ c3 < 0 <-> r < 0 \/ g < 0 \/ b < 0).
    { subst c2 c3. destruct i as [| [| [| i]]]; [| | | lia];
        cbn [channel Nat.add Nat.modulo Nat.divmod fst snd Nat.sub] in *;
        lra. }
    rewrite <- Hneg. split.
    + intros [[[H | H] | [H | H]] | [H | H]]; try lra; tauto.
    + intros [H | [H | [H | H]]]; auto.
Qed.

Lemma coordinates_of_finite_triplet_witness :
  outside_axes [Num 0; Num 1] (coordinates (Num (1 / 2), Num (-1), Num 0))
  = true.
Proof.
  assert (Hm : Rmax (Rmax (1 / 2) (-1)) 0 = 1 / 2).
  { rewrite (Rmax_left (1 / 2) (-1)) by lra. apply Rmax_left. lra. }
  apply (coordinates_of_finite_triplet (1 / 2) (-1) 0 0 1 [Num 0; Num 1]);
    [rewrite Hm; lra | reflexivity | reflexivity |].
  right. right. right. left. lra.
Defined.

End CoordinateTheorem.

(** ** The table files [from_file] accepts *)

Section LoadingExtras.

Lemma strictly_ascending_steps (d : R) (len a : nat) :
  (0 < d)%R ->
  strictly_ascending
    (map Num (map (fun i : nat => (INR i / d)%R) (seq a len))) = true.
Proof.
  intros Hd. revert a. induction len as [| len IH]; intros a; [reflexivity |].
  destruct len as [| len]; [reflexivity |].
  specialize (IH (S a)).
  cbn [seq map strictly_ascending] in IH |- *. rewrite IH.
  rewrite sub_Num, ltb_Num_lt; [reflexivity |].
  rewrite S_INR. unfold Rdiv.
  assert (0 < / d)%R by now apply Rinv_0_lt_compat. nra.
Qed.

(** The samples [np.linspace(0, 1, n)] are ascending for every [n]. *)
Lemma strictly_ascending_linspace (n : nat) :
  strictly_ascending (linspace (Num 0) (Num 1) n) = true.
Proof.
  destruct n as [| [| n]]; [reflexivity | reflexivity |].
  rewrite linspace_unit_eq by lia.
  apply strictly_ascending_steps. apply lt_0_INR. lia.
Qed.

Lemma fromfile_enough (fd : file) (k : nat) :
  (4 * k <= length fd)%nat ->
  (Z.of_nat k < 2 ^ 63)%Z ->
  fromfile fd (Z.of_nat k)
  = Ok (decode_float32s (take (4 * k) fd), drop (4 * k) fd).
Proof.
  intros Hlen Hk63. rewrite fromfile_in_range by lia.
  destruct (Z.ltb_spec (Z.of_nat k) 0) as [Hneg | _]; [lia |].
  rewrite Nat2Z.id.
  assert (Hk : (k <= length fd / 4)%nat).
  { apply Nat.div_le_lower_bound; lia. }
  now rewrite Nat.min_l by exact Hk.
Qed.

(** The resolution of a table is at most its number of coefficients. *)
Lemma resolution_le_count (n : nat) :
  (Z.of_nat n <= 3 * Z.of_nat n ^ 3 * 3)%Z.
Proof.
  replace (Z.of_nat n ^ 3)%Z with (Z.of_nat n * (Z.of_nat n * Z.of_nat n))%Z
    by ring.
  nia.
Qed.

Lemma decode_take_length (fd : file) (k : nat) :
  (4 * k <= length fd)%nat -> length (decode_float32s (take (4 * k) fd)) = k.
Proof.
  intros Hlen. rewrite decode_float32s_length, length_take.
  rewrite Nat.min_l by lia. rewrite Nat.mul_comm. apply Nat.div_mul. lia.
Qed.

Lemma tensor_count (n : nat) :
  (3 * Z.of_nat n ^ 3 * 3)%Z = Z.of_nat (3 * n ^ 3 * 3).
Proof.
  rewrite !Nat2Z.inj_mul, Nat2Z.inj_pow. reflexivity.
Qed.

Lemma reshape_tensor (coeffs : list float64) (n : nat) :
  length coeffs = (3 * n ^ 3 * 3)%nat ->
  reshape coeffs [3; Z.of_nat n; Z.of_nat n; Z.of_nat n; 3]%Z
  = Ok (mkArray [3; n; n; n; 3]%nat coeffs).
Proof.
  intros Hlen. unfold reshape.
  assert (Hdims : forallb (fun d => 0 <=? d)%Z
                    [3; Z.of_nat n; Z.of_nat n; Z.of_nat n; 3]%Z = true).
  { cbn [forallb]. rewrite !andb_true_iff.
    repeat split; apply Z.leb_le; lia. }
  assert (Hsize : (Z.of_nat (length coeffs)
                   =? fold_right Z.mul 1
                        [3; Z.of_nat n; Z.of_nat n; Z.of_nat n; 3])%Z = true).
  { apply Z.eqb_eq. rewrite Hlen. cbn [fold_right].
    rewrite !Nat2Z.inj_mul, Nat2Z.inj_pow. change (Z.of_nat 3) with 3%Z.
    ring. }
  rewrite Hdims, Hsize. cbn [andb map]. rewrite Nat2Z.id. reflexivity.
Qed.

Lemma init_tensor (sc : list float64) (coeffs : list float64) (n : nat) :
  length sc = n -> strictly_ascending sc = true ->
  RegularGridInterpolator_init
    [[Num 0; Num 1; Num 2]; sc; linspace (Num 0) (Num 1) n;
     linspace (Num 0) (Num 1) n]
    (mkArray [3; n; n; n; 3]%nat coeffs) false
  = Ok (mkRGI
          [[Num 0; Num 1; Num 2]; sc; linspace (Num 0) (Num 1) n;
           linspace (Num 0) (Num 1) n]
          (mkArray [3; n; n; n; 3]%nat coeffs) false (Some NaN)).
Proof.
  intros Hsc Hasc. unfold RegularGridInterpolator_init.
  cbn [shape length]. change (5 <? 4)%nat with false. cbv iota.
  cbn [forallb zip zip_with].
  rewrite Hasc, strictly_ascending_linspace, strictly_ascending_channels.
  rewrite Hsc, linspace_length. cbn [length]. rewrite !Nat.eqb_refl.
  reflexivity.
Qed.

(** [from_file] on a well-formed table. *)
Lemma from_file_complete (self : Jakob2019Interpolator) (content : list byte)
    (n : nat) :
  well_formed content n ->
  (3 * Z.of_nat n ^ 3 * 3 < 2 ^ 63)%Z ->
  from_file self content = (table_interpolator content n, Ok ()).
Proof.
  intros (Hmagic & Hn & Hsize & Hasc) H63. unfold from_file, read.
  pose proof (resolution_le_count n) as Hle.
  destruct (decide (take 4 content ≠ SPEC)) as [Hc | _]; [contradiction |].
  rewrite Hn, drop_drop. change (4 + 4)%nat with 8%nat.
  unfold table_size in Hsize.
  rewrite (fromfile_enough (drop 8 content) n)
    by (rewrite ?length_drop; lia).
  rewrite tensor_count, drop_drop.
  rewrite (fromfile_enough (drop (8 + 4 * n) content) (3 * n ^ 3 * 3))
    by (rewrite <- ?tensor_count, ?length_drop; lia).
  fold (table_scale content n). fold (table_coefficients content n).
  assert (Hlen : length (table_coefficients content n) = (3 * n ^ 3 * 3)%nat).
  { apply decode_take_length. rewrite length_drop. lia. }
  assert (Hsc : length (table_scale content n) = n).
  { apply decode_take_length. rewrite length_drop. lia. }
  rewrite (reshape_tensor _ n Hlen), Nat2Z.id.
  rewrite (init_tensor _ _ n Hsc Hasc). reflexivity.
Qed.

(** What a file that [from_file] accepted looks like. *)
Lemma from_file_sound (self self' : Jakob2019Interpolator)
    (content : list byte) :
  from_file self content = (self', Ok ()) ->
  exists n : nat,
    well_formed content n
    /\ (3 * Z.of_nat n ^ 3 * 3 < 2 ^ 63)%Z
    /\ self' = table_interpolator content n.
Proof.
  intros Hload.
  assert (Hloaded : loaded self') by (now exists self, content).
  pose proof Hload as Hrun. unfold from_file, read in Hrun.
  destruct (decide (take 4 content ≠ SPEC)) as [Hbad | Hmagic];
    [discriminate |].
  apply dec_stable in Hmagic.
  destruct (unpack_i (take 4 (drop 4 content))) as [n | e] eqn:Hn;
    [| discriminate].
  assert (H8 : (8 <= length content)%nat).
  { destruct (Nat.le_gt_cases 8 (length content)) as [Hle | Hgt];
      [exact Hle |].
    rewrite unpack_i_short in Hn; [discriminate |].
    rewrite length_take, length_drop. lia. }
  rewrite drop_drop in Hrun. change (4 + 4)%nat with 8%nat in Hrun.
  destruct (fromfile (drop 8 content) n) as [[sc fd] | e] eqn:Hsc;
    [| discriminate].
  destruct (fromfile fd (3 * n ^ 3 * 3)) as [[coeffs fd'] | e] eqn:Hco;
    [| discriminate].
  destruct (reshape coeffs [3; n; n; n; 3]%Z) as [a | e] eqn:Hreshape;
    [| discriminate].
  destruct (RegularGridInterpolator_init _ a false) as [c | e] eqn:Hinit;
    [| discriminate].
  injection Hrun as Hself.
  destruct (loaded_inv self' Hloaded)
    as (n' & sc' & coeffs' & Hn0 & Hres & Hscale & Hcubes & Hlsc & Hlco
        & Hasc & _).
  rewrite <- Hself in Hres, Hscale, Hcubes. cbn [res scale cubes] in *.
  injection Hres as <-. injection Hscale as <-.
  unfold reshape in Hreshape.
  destruct (forallb _ _ && _) eqn:Hchecks; [| discriminate].
  injection Hreshape as <-.
  unfold RegularGridInterpolator_init in Hinit.
  destruct (_ <? _)%nat; [discriminate |].
  destruct (forallb strictly_ascending _ && _); [| discriminate].
  injection Hinit as <-. injection Hcubes as <-.
  (* the two reads were complete *)
  pose proof (fromfile_length _ _ n _ Hn0 Hsc) as [Hl1 Hr1].
  assert (Hcube : (0 <= 3 * n ^ 3 * 3)%Z).
  { assert (0 <= n ^ 3)%Z by (apply Z.pow_nonneg; lia). lia. }
  pose proof (fromfile_length _ _ (3 * n ^ 3 * 3) _ Hcube Hco) as [Hl2 _].
  pose proof (fromfile_inv _ _ _ _ Hco) as [H63 _].
  rewrite length_drop in Hl1, Hr1.
  pose proof (Nat.div_mod_eq (length content - 8) 4) as Hdm1.
  pose proof (Nat.mod_upper_bound (length content - 8) 4 ltac:(lia)) as Hm1.
  pose proof (Nat.div_mod_eq (length fd) 4) as Hdm2.
  pose proof (Nat.mod_upper_bound (length fd) 4 ltac:(lia)) as Hm2.
  set (N := Z.to_nat n) in *.
  assert (HnN : n = Z.of_nat N) by (unfold N; lia).
  assert (Hcount : Z.to_nat (3 * n ^ 3 * 3) = (3 * N ^ 3 * 3)%nat).
  { rewrite HnN, tensor_count. apply Nat2Z.id. }
  rewrite Hcount in Hl2.
  assert (Hlco' : length coeffs = (3 * N ^ 3 * 3)%nat).
  { cbn [zprod fold_right] in Hlco.
    assert (Z.of_nat (length coeffs) = Z.of_nat (3 * N ^ 3 * 3)); [| lia].
    rewrite Hlco, !Nat2Z.inj_mul, Nat2Z.inj_pow. change (Z.of_nat 3) with 3%Z.
    ring. }
  assert (Hsize : (table_size N <= length content)%nat).
  { unfold table_size. lia. }
  unfold table_size in Hsize.
  pose proof (resolution_le_count N) as HleN.
  assert (H63N : (3 * Z.of_nat N ^ 3 * 3 < 2 ^ 63)%Z) by (rewrite <- HnN; lia).
  exists N.
  assert (Esc : sc = table_scale content N).
  { rewrite HnN in Hsc.
    rewrite (fromfile_enough (drop 8 content) N) in Hsc
      by (rewrite ?length_drop; lia).
    now injection Hsc as <- _. }
  assert (Efd : fd = drop (8 + 4 * N) content).
  { rewrite HnN in Hsc.
    rewrite (fromfile_enough (drop 8 content) N) in Hsc
      by (rewrite ?length_drop; lia).
    injection Hsc as _ <-. now rewrite drop_drop. }
  assert (Eco : coeffs = table_coefficients content N).
  { rewrite HnN, tensor_count, Efd in Hco.
    rewrite (fromfile_enough _ (3 * N ^ 3 * 3)) in Hco
      by (rewrite <- ?tensor_count, ?length_drop; lia).
    now injection Hco as <- _. }
  split; [| split; [exact H63N |]].
  - unfold well_formed. rewrite <- HnN, <- Esc. auto.
  - rewrite <- Hself. unfold table_interpolator.
    rewrite <- HnN, <- Esc, <- Eco. reflexivity.
Qed.

End LoadingExtras.

Section LoadingTheorems.

(** A file of at most [2^63] bytes has fewer coefficients than [ssize_t]
    can count. *)
Lemma table_count_in_range (content : list byte) (n : nat) :
  table_size n <= length content ->
  (Z.of_nat (length content) < 2 ^ 63)%Z ->
  (3 * Z.of_nat n ^ 3 * 3 < 2 ^ 63)%Z.
Proof.
  unfold table_size. intros Hsize H63. rewrite tensor_count. lia.
Qed.

(** X9. When [from_file] returns, the file was a complete table: the magic
    number, a resolution [n >= 0] and at least [8 + 4 n + 36 n^3] bytes;
    and the object holds [n], the [n] items of the scale array and the
    interpolator over the axes [[0, 1, 2]], the scale array and twice
    [linspace(0, 1, n)], with the [9 n^3] coefficients that follow as a
    [(3, n, n, n, 3)] array.  Conversely a complete table with a strictly
    ascending scale array, in a file of less than [2^63] bytes, is loaded,
    whatever the object held before. *)
Theorem from_file_returns_the_table_of_a_complete_file
    (self self' : Jakob2019Interpolator) (content : list byte) :
  (from_file self content = (self', Ok ()) ->
   exists n : nat,
     complete_table content n /\ self' = table_interpolator content n)
  /\ (forall n : nat,
        complete_table content n ->
        strictly_ascending (table_scale content n) = true ->
        (Z.of_nat (length content) < 2 ^ 63)%Z ->
        from_file self content = (table_interpolator content n, Ok ())).
Proof.
  split.
  - intros Hload.
    destruct (from_file_sound self self' content Hload)
      as (n & (Hmagic & Hn & Hsize & _) & _ & ->).
    exists n. split; [repeat split; assumption | reflexivity].
  - intros n (Hmagic & Hn & Hsize) Hasc H63.
    apply from_file_complete; [repeat split; assumption |].
    now apply (table_count_in_range content).
Qed.

Lemma well_formed_app (content extra : list byte) (n : nat) :
  well_formed content n ->
  well_formed (content ++ extra) n
  /\ table_interpolator (content ++ extra) n = table_interpolator content n.
Proof.
  intros (Hmagic & Hn & Hsize & Hasc).
  assert (H8 : (8 <= length content)%nat) by (unfold table_size in Hsize; lia).
  unfold table_size in Hsize.
  assert (Hscale : table_scale (content ++ extra) n = table_scale content n).
  { unfold table_scale. rewrite drop_app_le by lia.
    now rewrite take_app_le by (rewrite length_drop; lia). }
  assert (Hcoeffs : table_coefficients (content ++ extra) n
                    = table_coefficients content n).
  { unfold table_coefficients. rewrite drop_app_le by lia.
    now rewrite take_app_le by (rewrite length_drop; lia). }
  split.
  - unfold well_formed. rewrite Hscale, length_app.
    rewrite take_app_le by lia. rewrite drop_app_le by lia.
    rewrite take_app_le by (rewrite length_drop; lia).
    repeat split; [assumption | assumption | unfold table_size; lia
                  | assumption].
  - unfold table_interpolator. now rewrite Hscale, Hcoeffs.
Qed.

(** X10. What a successful [from_file] leaves in the object depends
    neither on what the object held before nor on bytes that follow the
    table in the file: loading the same table followed by any further
    bytes, into any object, gives the same object. *)
Theorem from_file_ignores_trailing_bytes_and_previous_state
    (self self' self0 : Jakob2019Interpolator) (content extra : list byte) :
  from_file self content = (self', Ok ()) ->
  from_file self0 (content ++ extra) = (self', Ok ()).
Proof.
  intros Hload. apply from_file_sound in Hload as (n & Hwf & H63 & ->).
  destruct (well_formed_app content extra n Hwf) as [Hwf' <-].
  now apply from_file_complete.
Qed.

Lemma from_file_ignores_trailing_bytes_and_previous_state_witness :
  exists self' : Jakob2019Interpolator,
    from_file Jakob2019Interpolator_init zero_table = (self', Ok ())
    /\ from_file self' (zero_table ++ [xff; xff]) = (self', Ok ()).
Proof.
  eexists. split; [exact zero_table_loads |].
  exact (from_file_ignores_trailing_bytes_and_previous_state _ _ _ _ _
           zero_table_loads).
Defined.

(** What [from_file] leaves when it raises. *)
Lemma from_file_failure (self self' : Jakob2019Interpolator)
    (content : list byte) (e : exn) :
  from_file self content = (self', Raise e) ->
  cubes self' = cubes self
  /\ (e = StructError
      /\ take 4 content = SPEC /\ (length content < 8)%nat /\ self' = self
      \/ e = ValueError \/ e = OverflowError).
Proof.
  unfold from_file, read. intros Hrun.
  destruct (decide (take 4 content ≠ SPEC)) as [Hbad | Hmagic].
  { injection Hrun as <- <-. auto. }
  apply dec_stable in Hmagic.
  destruct (unpack_i (take 4 (drop 4 content))) as [n | e'] eqn:Hn.
  - destruct (fromfile (drop 4 (drop 4 content)) n) as [[sc fd] | e'] eqn:Hsc.
    + destruct (fromfile fd (3 * n ^ 3 * 3)) as [[coeffs fd'] | e'] eqn:Hco.
      * destruct (reshape coeffs [3; n; n; n; 3]%Z) as [a | e'] eqn:Hreshape.
        -- destruct (RegularGridInterpolator_init _ a false) as [c | e']
             eqn:Hinit; [discriminate |].
           injection Hrun as <- <-. split; [reflexivity |]. right. left.
           unfold RegularGridInterpolator_init in Hinit.
           destruct (_ <? _)%nat; [congruence |].
           destruct (forallb strictly_ascending _ && _); congruence.
        -- injection Hrun as <- <-. split; [reflexivity |]. right. left.
           unfold reshape in Hreshape.
           destruct (forallb _ _ && _); congruence.
      * injection Hrun as <- <-. split; [reflexivity |]. right. right.
        unfold fromfile in Hco. destruct (_ || _); congruence.
    + injection Hrun as <- <-. split; [reflexivity |]. right. right.
      unfold fromfile in Hsc. destruct (_ || _); congruence.
  - injection Hrun as <- <-. split; [reflexivity |]. left.
    assert (Hlen : (length content < 8)%nat).
    { destruct (Nat.le_gt_cases 8 (length content)) as [Hle | Hgt];
        [| exact Hgt].
      assert (Hfour : length (take 4 (drop 4 content)) = 4%nat)
        by (rewrite length_take, length_drop; lia).
      destruct (take 4 (drop 4 content)) as [| b0 [| b1 [| b2 [| b3 [| b4 b]]]]];
        simpl in Hfour, Hn; try lia. discriminate. }
    rewrite unpack_i_short in Hn
      by (rewrite length_take, length_drop; lia).
    injection Hn as <-. auto.
Qed.

(** X11. Whenever [from_file] raises, the interpolator attribute [cubes] is
    what it was before the call; and when the exception is [struct.error],
    the file ends within the resolution field and the object is untouched.
    So a query after a failed load on a new object raises
    [AttributeError], and on a loaded object it is answered from the table
    loaded before. *)
Theorem from_file_failure_keeps_interpolator
    (self self' : Jakob2019Interpolator) (content : list byte) (e : exn)
    (RGB : vec3) (shape : SpectralShape) :
  from_file self content = (self', Raise e) ->
  cubes self' = cubes self
  /\ (e = StructError -> (length content < 8)%nat /\ self' = self)
  /\ coefficients self' RGB = coefficients self RGB
  /\ RGB_to_sd self' RGB shape = RGB_to_sd self RGB shape
  /\ (cubes self = None ->
      coefficients self' RGB = Raise AttributeError
      /\ RGB_to_sd self' RGB shape = Raise AttributeError).
Proof.
  intros Hrun.
  destruct (from_file_failure self self' content e Hrun) as [Hcubes He].
  assert (Hco : coefficients self' RGB = coefficients self RGB)
    by (unfold coefficients; now rewrite Hcubes).
  split; [exact Hcubes |]. split.
  { intros ->. destruct He as [(_ & _ & Hlen & Hself) | [He | He]];
      [auto | discriminate | discriminate]. }
  split; [exact Hco |].
  split; [unfold RGB_to_sd; now rewrite Hco |].
  intros Hnone. unfold RGB_to_sd. rewrite Hco. unfold coefficients.
  rewrite Hnone. split; reflexivity.
Qed.

Lemma from_file_failure_keeps_interpolator_witness :
  coefficients (from_file Jakob2019Interpolator_init truncated_table).1
    (Num 1, Num 0, Num 0)
  = Raise AttributeError.
Proof.
  destruct (from_file Jakob2019Interpolator_init truncated_table)
    as [self' r] eqn:Hrun.
  assert (Hr : r = Raise ValueError).
  { change r with (self', r).2. now rewrite <- Hrun. }
  subst r.
  destruct (from_file_failure_keeps_interpolator _ _ _ _
              (Num 1, Num 0, Num 0) unit_shape Hrun)
    as (_ & _ & _ & _ & Hnone).
  exact (proj1 (Hnone eq_refl)).
Defined.

End LoadingTheorems.

Section NegativeResolution.

Lemma decode_float32s_whole (fd : list byte) :
  decode_float32s (take (4 * (length fd / 4)) fd) = decode_float32s fd.
Proof.
  revert fd. fix IH 1.
  intros [| b0 [| b1 [| b2 [| b3 b']]]]; try reflexivity.
  cbn [length].
  change (S (S (S (S (length b'))))) with (1 * 4 + length b')%nat.
  rewrite Nat.div_add_l by lia.
  replace (4 * (1 + length b' / 4))%nat
    with (S (S (S (S (4 * (length b' / 4)))))) by lia.
  cbn [take decode_float32s]. now rewrite IH.
Qed.

(** X12. A file with the magic number and a negative resolution [n] is
    rejected: with [OverflowError] by [np.fromfile] when the count [9 n^3]
    of the tensor is below the range of [ssize_t] (from [n = -1008206]
    downwards), and otherwise with [ValueError] by the reshape to
    [(3, n, n, n, 3)].  By then [res] is [n] and [scale] holds every float
    of the rest of the file ([np.fromfile] reads to the end for a negative
    count), while [cubes] is what it was. *)
Theorem from_file_rejects_negative_resolution
    (self : Jakob2019Interpolator) (content : list byte) (n : Z) :
  take 4 content = SPEC ->
  unpack_i (take 4 (drop 4 content)) = Ok n ->
  (n < 0)%Z ->
  from_file self content
  = (mkInterpolator (Some n) (Some (decode_float32s (drop 8 content)))
       (cubes self),
     Raise (if (3 * n ^ 3 * 3 <? - 2 ^ 63)%Z then OverflowError
            else ValueError)).
Proof.
  intros Hmagic Hn Hneg. unfold from_file, read.
  pose proof (unpack_i_range _ _ Hn) as Hrange.
  destruct (decide (take 4 content ≠ SPEC)) as [Hc | _]; [contradiction |].
  rewrite Hn, drop_drop. change (4 + 4)%nat with 8%nat.
  rewrite (fromfile_in_range _ n) by lia.
  destruct (Z.ltb_spec n 0) as [_ | Hge]; [| lia].
  cbv zeta. rewrite decode_float32s_whole. cbn [res scale cubes].
  assert (Hcube : (n ^ 3 = n * (n * n))%Z) by ring.
  destruct (Z.ltb_spec (3 * n ^ 3 * 3) (- 2 ^ 63)) as [Hbig | Hsmall].
  - rewrite fromfile_overflow; [reflexivity |]. now left.
  - rewrite fromfile_in_range by nia. cbv zeta.
    unfold reshape. cbn [forallb].
    replace (0 <=? n)%Z with false by (symmetry; apply Z.leb_gt; lia).
    now rewrite andb_false_r.
Qed.

Lemma from_file_rejects_negative_resolution_witness :
  from_file Jakob2019Interpolator_init
    (SPEC ++ [xff; xff; xff; xff] ++ [x00; x00; x80; x3f; x00])
  = (mkInterpolator (Some (-1)%Z)
       (Some (decode_float32s [x00; x00; x80; x3f; x00])) None,
     Raise ValueError)
  /\ from_file Jakob2019Interpolator_init (SPEC ++ [x00; x00; x00; x80])
     = (mkInterpolator (Some (-2147483648)%Z) (Some []) None,
        Raise OverflowError).
Proof.
  split.
  - apply (from_file_rejects_negative_resolution Jakob2019Interpolator_init
             (SPEC ++ [xff; xff; xff; xff] ++ [x00; x00; x80; x3f; x00])
             (-1)%Z); [reflexivity | reflexivity | lia].
  - apply (from_file_rejects_negative_resolution Jakob2019Interpolator_init
             (SPEC ++ [x00; x00; x00; x80]) (-2147483648)%Z);
      [reflexivity | reflexivity | lia].
Defined.

End NegativeResolution.

(** ** The inputs and the luminance of the error function *)

Section Broadcasting.

Lemma broadcast2_compatible (f : float64 -> float64 -> float64)
    (a b : list float64) :
  compatible (length a) (length b) = true ->
  exists l, broadcast2 f a b = Ok l
            /\ length l = broadcast_length (length a) (length b).
Proof.
  unfold compatible, broadcast2, broadcast_length. intros Hc.
  destruct (Nat.eqb_spec (length a) (length b)) as [Heq | Hne].
  - eexists. split; [reflexivity |].
    rewrite length_zip_with, Heq, Nat.min_id.
    now destruct (Nat.eqb_spec (length b) 1).
  - destruct a as [| x [| x' a]].
    + destruct b as [| y [| y' b]]; [contradiction | | discriminate].
      eexists. split; reflexivity.
    + eexists. split; [reflexivity |]. now rewrite length_map.
    + destruct b as [| y [| y' b]]; [discriminate | | discriminate].
      eexists. split; [reflexivity |]. now rewrite length_map.
Qed.

Lemma broadcast2_incompatible (f : float64 -> float64 -> float64)
    (a b : list float64) :
  compatible (length a) (length b) = false ->
  broadcast2 f a b = Raise ValueError.
Proof.
  unfold compatible, broadcast2. intros Hc.
  apply orb_false_elim in Hc as [Hc H1]. apply orb_false_elim in Hc as [Hc H2].
  rewrite Hc.
  destruct a as [| x [| x' a]]; [| discriminate |];
    destruct b as [| y [| y' b]]; try reflexivity; discriminate.
Qed.

Lemma np_dot_mismatch (a b : list float64) :
  length a <> length b -> np_dot a b = Raise ValueError.
Proof.
  intros Hne. unfold np_dot.
  now destruct (Nat.eqb_spec (length a) (length b)).
Qed.

Lemma py_index_out_of_range {A : Type} (a : list A) (i : Z) :
  (Z.of_nat (length a) <= i)%Z -> py_index a i = Raise IndexError.
Proof.
  intros Hi. unfold py_index.
  destruct (Z.ltb_spec i 0) as [Hneg | _]; [lia |].
  destruct (Z.ltb_spec i 0) as [Hneg | _]; [lia |].
  destruct (Z.leb_spec (Z.of_nat (length a)) i) as [_ | Hlt]; [| lia].
  reflexivity.
Qed.

End Broadcasting.

Section Luminance.
Local Open Scope R_scope.

Lemma np_sum_from (l : list R) (a : R) :
  fold_left F64.add (map Num l) (Num a) = Num (a + rsum l).
Proof.
  revert a. induction l as [| x l IH]; intros a.
  - cbn. f_equal. lra.
  - cbn [map fold_left rsum fold_right]. rewrite add_Num, IH.
    f_equal. fold (rsum l). lra.
Qed.

Lemma np_sum_Num (l : list R) : np_sum (map Num l) = Num (rsum l).
Proof. unfold np_sum. rewrite np_sum_from. f_equal. lra. Qed.

Lemma zip_with_mul_Num (a b : list R) :
  zip_with F64.mul (map Num a) (map Num b) = map Num (zip_with Rmult a b).
Proof.
  revert b. induction a as [| x a IH]; intros [| y b]; try reflexivity.
  cbn [map zip_with]. now rewrite mul_Num, IH.
Qed.

(** A sum of non-negative weights, each scaled by a factor strictly between
    0 and 1, stays strictly between 0 and the sum of the weights. *)
Lemma weighted_sum_bounds (I rs ys : list R) :
  length rs = length I -> length ys = length I ->
  Forall (fun x => 0 <= x) I -> Forall (fun y => 0 <= y) ys ->
  Forall (fun r => 0 < r < 1) rs ->
  let weighted := rsum (zip_with Rmult (zip_with Rmult I rs) ys) in
  let total := rsum (zip_with Rmult ys I) in
  0 <= weighted <= total /\ (0 < total -> 0 < weighted < total).
Proof.
  revert rs ys. induction I as [| x I IH]; intros [| r rs] [| y ys];
    cbn [length]; intros Hr Hy HI Hys Hrs; try lia.
  - cbn. lra.
  - apply Forall_cons in HI as [Hx HI]. apply Forall_cons in Hys as [Hy0 Hys].
    apply Forall_cons in Hrs as [Hr0 Hrs].
    specialize (IH rs ys ltac:(lia) ltac:(lia) HI Hys Hrs).
    cbv zeta in IH |- *. cbn [zip_with rsum fold_right].
    fold (rsum (zip_with Rmult (zip_with Rmult I rs) ys)).
    fold (rsum (zip_with Rmult ys I)).
    set (weighted := rsum (zip_with Rmult (zip_with Rmult I rs) ys)) in *.
    set (total := rsum (zip_with Rmult ys I)) in *.
    destruct IH as [IH1 IH2].
    assert (Hw : 0 <= y * x) by (apply Rmult_le_pos; assumption).
    assert (Hrw : x * r * y = r * (y * x)) by ring.
    rewrite Hrw. set (w := y * x) in *.
    split; [nra |]. intros HS.
    destruct (Rle_lt_or_eq_dec 0 w Hw) as [Hpos | Hzero].
    + nra.
    + assert (0 < total) by lra. specialize (IH2 ltac:(assumption)). nra.
Qed.

Lemma U_poly_value (c : R3) (w : R) :
  U_poly (vnum c) (Num w)
  = Num (channel c 0 * (w * w) + channel c 1 * w + channel c 2).
Proof.
  destruct c as [[c_0 c_1] c_2]. unfold U_poly, vnum. cbn [channel].
  now rewrite square_Num, !mul_Num, !add_Num.
Qed.

(** The tristimulus value [Y] in terms of the locals it is computed from. *)
Lemma error_function_body_Y coefficients target shape cmfs illuminant
    illuminant_XYZ l :
  error_function_body coefficients target shape cmfs illuminant illuminant_XYZ
  = Ok l ->
  exists (E cy : list float64) (w1 w0 d : float64),
    broadcast2 F64.mul (values illuminant) (ef_R l) = Ok E
    /\ py_index (msd_wavelengths cmfs) 1 = Ok w1
    /\ py_index (msd_wavelengths cmfs) 0 = Ok w0
    /\ broadcast2 F64.mul (column 1 (msd_values cmfs)) (values illuminant)
       = Ok cy
    /\ np_dot E (column 1 (msd_values cmfs)) = Ok d
    /\ vget (ef_XYZ l) 1
       = F64.mul (F64.mul (F64.div (Num 100)
                             (F64.mul (np_sum cy) (F64.sub w1 w0))) d)
           (F64.sub w1 w0).
Proof.
  unfold error_function_body. intros Hrun.
  bind_inv Hrun. bind_inv Hrun. bind_inv Hrun. bind_inv Hrun. bind_inv Hrun.
  bind_inv Hrun. bind_inv Hrun. bind_inv Hrun.
  injection Hrun as <-. cbn [ef_R ef_XYZ].
  unfold vbuildM in *.
  match goal with
  | H : (_ ≫= _) = Ok ?xyz |- context [vget ?xyz 1] =>
      bind_inv H; bind_inv H; bind_inv H; injection H as <-;
      cbn [vget]
  end.
  match goal with
  | H : (np_dot ?E (column 1 _) ≫= _) = Ok _ |- _ =>
      bind_inv H; injection H as <-
  end.
  eauto 12.
Qed.

End Luminance.

Section LuminanceTheorem.
Local Open Scope R_scope.

Lemma column_Num (M : list R3) (i : nat) :
  column i (map vnum M) = map Num (map (fun m => channel m i) M).
Proof.
  unfold column. rewrite !map_map. apply map_ext. intros m. apply vget_Num.
Qed.

Lemma py_index_lookup {A : Type} (a : list A) (i : nat) (x : A) :
  a !! i = Some x -> py_index a (Z.of_nat i) = Ok x.
Proof.
  intros Hx. destruct (py_index_nonneg a (Z.of_nat i)) as (y & Hy & Hl).
  - apply lookup_lt_Some in Hx. lia.
  - rewrite Nat2Z.id in Hl. congruence.
Qed.

End LuminanceTheorem.

(** ** Dimensionalisation as a change of variable *)

Section Pipeline.
Local Open Scope R_scope.

Lemma up_INR (n : nat) : up (INR n) = Z.of_nat (S n).
Proof.
  symmetry. apply tech_up; rewrite <- INR_IZR_INZ, S_INR; lra.
Qed.

(** A shape whose end is [n - 1] intervals after its start has the [n]
    samples [start + i * interval]. *)
Lemma range_exact (shape : SpectralShape) (n : nat) :
  (1 <= n)%nat -> 0 < interval shape ->
  end_ shape = start shape + INR (n - 1) * interval shape ->
  range shape
  = map (fun i : nat => Num (start shape + INR i * interval shape)) (seq 0 n).
Proof.
  intros Hn Hi Hend. unfold range.
  replace ((end_ shape - start shape) / interval shape) with (INR (n - 1))
    by (rewrite Hend; field; lra).
  rewrite up_INR. now replace (Z.to_nat (Z.of_nat (S (n - 1)))) with n by lia.
Qed.

Lemma dimensionalise_coefficients_Num (cp : R3) (shape : SpectralShape) :
  span shape <> 0 ->
  dimensionalise_coefficients (vnum cp) shape
  = vnum (channel cp 0 / (span shape * span shape),
          channel cp 1 / span shape
          - 2 * channel cp 0 * start shape / (span shape * span shape),
          channel cp 0 * (start shape * start shape)
            / (span shape * span shape)
          - channel cp 1 * start shape / span shape + channel cp 2).
Proof.
  intros Hspan. destruct cp as [[cp_0 cp_1] cp_2].
  unfold dimensionalise_coefficients, vnum, span in *. cbn [channel].
  assert (Hsq : (end_ shape - start shape) * (end_ shape - start shape) <> 0)
    by (apply Rmult_integral_contrapositive_currified; assumption).
  f64_eval_by ltac:(assumption). reflexivity.
Qed.

(** X17. Dimensionalisation is the change of variable between the two
    models of the module: for finite coefficients and a shape of [n >= 2]
    samples from its start to its end, the spectrum [spectral_model]
    computes over the shape from the dimensionalised coefficients is, sample
    by sample, the reflectance [error_function_Jakob2019] computes over
    [[0, 1]] from the dimensionless ones. *)
Theorem model_of_dimensionalised_coefficients_is_fitted_reflectance
    (cp : R3) (target : vec3) (shape : SpectralShape)
    (cmfs : MultiSpectralDistributions) (illuminant : SpectralDistribution)
    (illuminant_XYZ : vec3) (l : error_function_locals) (n : nat) :
  (2 <= n)%nat ->
  0 < interval shape ->
  end_ shape = start shape + INR (n - 1) * interval shape ->
  error_function_body (vnum cp) target shape cmfs illuminant illuminant_XYZ
  = Ok l ->
  length (range shape) = n
  /\ values (spectral_model (dimensionalise_coefficients (vnum cp) shape)
               shape None)
     = ef_R l.
Proof.
  intros Hn Hi Hend Hl.
  pose proof (range_exact shape n ltac:(lia) Hi Hend) as Hrange.
  assert (Hlen : length (range shape) = n)
    by (now rewrite Hrange, length_map, length_seq).
  split; [exact Hlen |].
  assert (Hdiv : 0 < INR (n - 1)) by (apply lt_0_INR; lia).
  assert (Hspan : span shape = INR (n - 1) * interval shape)
    by (unfold span; rewrite Hend; ring).
  assert (Hpos : 0 < span shape)
    by (rewrite Hspan; now apply Rmult_lt_0_compat).
  rewrite (error_function_body_R _ _ _ _ _ _ _ Hl), Hlen.
  rewrite linspace_unit_eq by exact Hn.
  unfold spectral_model. cbn [values]. rewrite Hrange, !map_map.
  apply map_ext. intros i. cbv zeta. rewrite !reflectance_value.
  rewrite dimensionalise_coefficients_Num by lra.
  rewrite !U_poly_value. cbn [channel]. do 2 f_equal.
  rewrite Hspan. field. lra.
Qed.

Lemma model_of_dimensionalised_coefficients_is_fitted_reflectance_witness :
  exists l : error_function_locals,
    error_function_body (vnum (1, 2, 3)) grey unit_shape flat_cmfs
      flat_illuminant unit_white = Ok l
    /\ values (spectral_model
                 (dimensionalise_coefficients (vnum (1, 2, 3)) unit_shape)
                 unit_shape None)
       = ef_R l.
Proof.
  destruct (error_function_body_total (vnum (1, 2, 3)) grey unit_shape
              flat_cmfs flat_illuminant unit_white) as (l & Hl).
  - now rewrite range_unit_shape.
  - now rewrite range_unit_shape.
  - simpl. lia.
  - exists l. split; [exact Hl |].
    apply (model_of_dimensionalised_coefficients_is_fitted_reflectance
             (1, 2, 3) grey unit_shape flat_cmfs flat_illuminant unit_white
             l 2); [lia | simpl; lra | simpl; lra | exact Hl].
Defined.

End Pipeline.

(** ** NaN channels *)

Section NaNChannel.
Local Open Scope Z_scope.

Lemma mul_NaN_r (x : float64) : F64.mul x NaN = NaN.
Proof. now destruct x. Qed.

Lemma add_NaN_r (x : float64) : F64.add x NaN = NaN.
Proof. now destruct x. Qed.

Lemma div_NaN_r (x : float64) : F64.div x NaN = NaN.
Proof. now destruct x. Qed.

(** A NaN coordinate is not out of bounds; its normalised distance is
    NaN. *)
Lemma find_index_nan (g : list float64) :
  (2 <= length g)%nat ->
  exists i : Z,
    find_index g NaN = Ok (i, NaN, false)
    /\ 0 <= i <= Z.of_nat (length g) - 2.
Proof.
  intros Hlen.
  destruct (find_index_ok g NaN Hlen) as (i & y & g0 & glast & E & B & _).
  exists i. split; [| exact B].
  rewrite E. pose proof E as E'. unfold find_index in E'. cbv zeta in E'.
  bind_inv E'. bind_inv E'. bind_inv E'. bind_inv E'.
  injection E' as _ Hy _. rewrite <- Hy.
  unfold outside. now destruct glast.
Qed.

Lemma edges_nan (indices : list (Z * float64)) :
  forall (e : list Z) (ew : list Z * float64),
    ew ∈ edges indices e NaN -> ew.2 = NaN.
Proof.
  induction indices as [| [i y] rest IH]; intros e ew Hin.
  - now apply list_elem_of_singleton in Hin as ->.
  - cbn [edges] in Hin.
    change (F64.mul NaN (F64.sub (Num 1) y)) with NaN in Hin.
    change (F64.mul NaN y) with NaN in Hin.
    apply elem_of_app in Hin as [Hin | Hin]; eapply IH; exact Hin.
Qed.

Lemma edges_nonempty (indices : list (Z * float64)) (e : list Z)
    (w : float64) :
  edges indices e w <> [].
Proof.
  revert e w. induction indices as [| [i y] rest IH]; intros e w;
    [discriminate |].
  cbn [edges]. intros Happ. apply app_eq_nil in Happ as [Happ _].
  exact (IH _ _ Happ).
Qed.

Lemma vadd_nan_l (v : vec3) : vadd (NaN, NaN, NaN) v = (NaN, NaN, NaN).
Proof. destruct v as [[v0 v1] v2]. reflexivity. Qed.

Lemma vadd_vscale_nan (acc v : vec3) :
  vadd acc (vscale v NaN) = (NaN, NaN, NaN).
Proof.
  destruct acc as [[a0 a1] a2], v as [[v0 v1] v2].
  unfold vadd, vscale, vmap2, vbuild. cbn [vget].
  now rewrite !mul_NaN_r, !add_NaN_r.
Qed.

Lemma accumulate_from_nan (values : ndarray)
    (corners : list (list Z * float64)) :
  (forall ew, ew ∈ corners -> exists v, getitem3 values ew.1 = Ok v) ->
  accumulate values corners (NaN, NaN, NaN) = Ok (NaN, NaN, NaN).
Proof.
  induction corners as [| [e w] corners IH]; intros Hget; [reflexivity |].
  cbn [accumulate].
  destruct (Hget (e, w)) as (v & Hv); [left |].
  cbn [fst] in Hv. rewrite Hv, bind_Ok, vadd_nan_l.
  apply IH. intros ew Hin. apply Hget. now right.
Qed.

(** A weighted sum whose weights are all NaN is NaN. *)
Lemma accumulate_nan (values : ndarray) (corners : list (list Z * float64))
    (acc : vec3) :
  corners <> [] ->
  (forall ew, ew ∈ corners ->
              ew.2 = NaN /\ exists v, getitem3 values ew.1 = Ok v) ->
  accumulate values corners acc = Ok (NaN, NaN, NaN).
Proof.
  destruct corners as [| [e w] corners]; [congruence |]. intros _ Hget.
  cbn [accumulate].
  destruct (Hget (e, w)) as (Hw & v & Hv); [left |].
  cbn [fst snd] in Hw, Hv. subst w. rewrite Hv, bind_Ok, vadd_vscale_nan.
  apply accumulate_from_nan. intros ew Hin. apply Hget. now right.
Qed.

Lemma edges_second_nan (i0 i1 : Z) (y0 : float64) (rest : list (Z * float64))
    (e : list Z) (w : float64) (ew : list Z * float64) :
  ew ∈ edges ((i0, y0) :: (i1, NaN) :: rest) e w -> ew.2 = NaN.
Proof.
  cbn [edges]. change (F64.sub (Num 1) NaN) with NaN.
  rewrite !mul_NaN_r. rewrite !elem_of_app.
  intros [[Hin | Hin] | [Hin | Hin]]; eapply edges_nan; exact Hin.
Qed.

Lemma np_max3_nan (RGB : vec3) :
  vget RGB 0 = NaN \/ vget RGB 1 = NaN \/ vget RGB 2 = NaN ->
  np_max3 RGB = NaN.
Proof.
  destruct RGB as [[r g] b]. cbn [vget]. unfold np_max3.
  intros [-> | [-> | ->]].
  - reflexivity.
  - now destruct r.
  - now destruct r, g; try destruct (F64.ltb _ _).
Qed.

(** X19. A triplet with a NaN channel is not treated as out of bounds, yet
    on a loaded table of resolution at least 2 it raises nothing either:
    every weight of the interpolation is NaN, the coefficients returned are
    [(NaN, NaN, NaN)], and [RGB_to_sd] returns a spectrum of NaN. *)
Theorem coefficients_of_nan_channel_is_nan
    (self : Jakob2019Interpolator) (n : Z) (sc : list float64) (RGB : vec3)
    (shape : SpectralShape) :
  loaded self ->
  res self = Some n ->
  scale self = Some sc ->
  2 <= n ->
  vget RGB 0 = NaN \/ vget RGB 1 = NaN \/ vget RGB 2 = NaN ->
  outside_axes sc (coordinates RGB) = false
  /\ coefficients self RGB = Ok (NaN, NaN, NaN)
  /\ RGB_to_sd self RGB shape
     = Ok (mkSD (replicate (length (range shape)) NaN) (range shape)
             (NamedByRGB RGB)).
Proof.
  intros Hloaded Hres Hscale Hn Hnan.
  destruct (loaded_inv self Hloaded)
    as (n' & sc' & coeffs & _ & Hres' & Hscale' & Hcubes & Hsc & Hlen & _ & _).
  rewrite Hres in Hres'. injection Hres' as <-.
  rewrite Hscale in Hscale'. injection Hscale' as <-.
  set (samples := linspace (Num 0) (Num 1) (Z.to_nat n)) in *.
  assert (Hsamples : length samples = Z.to_nat n) by apply linspace_length.
  (* the coordinates *)
  assert (Hcoords : coordinates RGB
                    = [Num (INR (np_argmax3 RGB)); NaN; NaN; NaN]).
  { unfold coordinates. rewrite (np_max3_nan RGB Hnan).
    change (F64.add NaN (Num (1 / 10 ^ 10))) with NaN.
    rewrite !vget_vbuild by (apply Nat.lt_succ_r, Nat.mod_upper_bound; lia).
    now rewrite !div_NaN_r. }
  assert (Hinside : outside_axes sc (coordinates RGB) = false).
  { rewrite Hcoords. unfold outside_axes.
    destruct (sc !! 0%nat) as [lo |]; [| reflexivity].
    destruct (sc !! (length sc - 1)%nat) as [hi |]; [| reflexivity].
    assert (H0 : outside (Num 0) (Num 2) (Num (INR (np_argmax3 RGB))) = false).
    { destruct RGB as [[r g] b]. unfold np_argmax3.
      repeat match goal with
             | |- context [match ?x with _ => _ end] => destruct x
             end; apply outside_Num_false; simpl; lra. }
    rewrite H0. unfold outside. now destruct lo, hi. }
  assert (Hco : coefficients self RGB = Ok (NaN, NaN, NaN)).
  { unfold coefficients. rewrite Hcubes, Hcoords.
    unfold RegularGridInterpolator_call.
    cbn [grid rgi_values bounds_error fill_value length Nat.eqb negb].
    destruct (find_index_ok [Num 0; Num 1; Num 2]
                (Num (INR (np_argmax3 RGB))) ltac:(simpl; lia))
      as (i0 & y0 & lo0 & hi0 & E0 & B0 & L0 & U0).
    injection L0 as <-. injection U0 as <-.
    destruct (find_index_nan sc ltac:(lia)) as (i1 & E1 & B1).
    destruct (find_index_nan samples ltac:(lia)) as (i2 & E2 & B2).
    cbn [find_indices]. rewrite E0, E1, E2, !bind_Ok. cbn [andb orb].
    assert (Hin0 : outside (Num 0) (Num 2) (Num (INR (np_argmax3 RGB)))
                   = false).
    { destruct RGB as [[r g] b]. unfold np_argmax3.
      repeat match goal with
             | |- context [match ?x with _ => _ end] => destruct x
             end; apply outside_Num_false; simpl; lra. }
    rewrite Hin0. cbn [orb].
    unfold evaluate_linear.
    rewrite (accumulate_nan _ _ _ (edges_nonempty _ _ _)); [reflexivity |].
    intros ew Hin. split; [exact (edges_second_nan _ _ _ _ _ _ _ Hin) |].
    apply edges_corner in Hin as (c & -> & Hc). cbn [app].
    assert (Hb : Forall2
                   (fun d (iy : Z * float64) => 0 <= iy.1 <= Z.of_nat d - 2)
                   [3%nat; Z.to_nat n; Z.to_nat n; Z.to_nat n]
                   [(i0, y0); (i1, NaN); (i2, NaN); (i2, NaN)]).
    { rewrite Hsc in B1. rewrite Hsamples in B2. cbn [length] in B0.
      repeat (constructor; [assumption |]). constructor. }
    destruct (getitem3_ok _ coeffs c (corner_in_bounds _ _ _ Hb Hc) Hlen)
      as (o & v0 & v1 & v2 & Hv & _).
    now exists (v0, v1, v2). }
  split; [exact Hinside |]. split; [exact Hco |].
  unfold RGB_to_sd. now rewrite Hco, bind_Ok, spectral_model_nan.
Qed.

End NaNChannel.

Section NaNChannelWitness.

Lemma coefficients_of_nan_channel_is_nan_witness :
  exists self : Jakob2019Interpolator,
    loaded self /\ coefficients self (NaN, Num 0, Num 0) = Ok (NaN, NaN, NaN).
Proof.
  eexists. split; [exact zero_table_loaded |].
  destruct (coefficients_of_nan_channel_is_nan _ 2%Z [Num 0; Num 1]
              (NaN, Num 0, Num 0) unit_shape zero_table_loaded eq_refl eq_refl
              ltac:(lia) ltac:(now left)) as (_ & Hco & _).
  exact Hco.
Defined.

End NaNChannelWitness.

(** ** Derivatives of the spectral model *)

Section Derivatives.
Local Open Scope R_scope.

Lemma derive_eq (f g : R -> R) (x l l' : R) :
  derivable_pt_lim f x l -> (forall z, f z = g z) -> l = l' ->
  derivable_pt_lim g x l'.
Proof.
  intros Hf Hfg <-. exact (derivable_pt_lim_ext f g x l Hfg Hf).
Qed.

Lemma derive_affine (a b x : R) :
  derivable_pt_lim (fun z => a + b * z) x b.
Proof.
  eapply (derive_eq (fct_cte a + mult_real_fct b id)%F).
  - apply derivable_pt_lim_plus;
      [apply derivable_pt_lim_const
      | apply derivable_pt_lim_scal, derivable_pt_lim_id].
  - intros z. reflexivity.
  - ring.
Qed.

Lemma derive_root (u : R) :
  derivable_pt_lim (fun z => sqrt (1 + z * z)) u (u / sqrt (1 + u * u)).
Proof.
  pose proof (sqrt_one_plus_pos u) as Hs.
  eapply (derive_eq (comp sqrt (fct_cte 1 + id * id)%F)).
  - apply derivable_pt_lim_comp.
    + apply derivable_pt_lim_plus;
        [apply derivable_pt_lim_const
        | apply derivable_pt_lim_mult; apply derivable_pt_lim_id].
    + apply derivable_pt_lim_sqrt.
      unfold plus_fct, mult_fct, fct_cte, id. nra.
  - intros z. reflexivity.
  - unfold plus_fct, mult_fct, fct_cte, id. field. lra.
Qed.

(** The derivative of the reflectance with respect to the polynomial. *)
Lemma derive_sigmoid (u : R) : derivable_pt_lim sigmoid u (sigmoid' u).
Proof.
  pose proof (sqrt_one_plus_pos u) as Hs.
  eapply (derive_eq
            (fct_cte (1 / 2)
             + id / mult_real_fct 2 (fun z => sqrt (1 + z * z)))%F).
  - apply derivable_pt_lim_plus; [apply derivable_pt_lim_const |].
    apply derivable_pt_lim_div.
    + apply derivable_pt_lim_id.
    + apply derivable_pt_lim_scal, derive_root.
    + unfold mult_real_fct. lra.
  - intros z. reflexivity.
  - unfold sigmoid', Rsqr, mult_real_fct, id. field. lra.
Qed.

Lemma derive_sigmoid_affine (a b x : R) :
  derivable_pt_lim (fun z => sigmoid (a + b * z)) x
    (b * sigmoid' (a + b * x)).
Proof.
  eapply (derive_eq (comp sigmoid (fun z => a + b * z))).
  - apply derivable_pt_lim_comp; [apply derive_affine | apply derive_sigmoid].
  - intros z. reflexivity.
  - ring.
Qed.

(** The derivative of a weighted sum of functions is the weighted sum of
    their derivatives. *)
Lemma derive_dot3 (h h' : R -> R -> R) (x : R) (ts : list R) :
  (forall t, derivable_pt_lim (fun z => h z t) x (h' x t)) ->
  forall I ys : list R,
    derivable_pt_lim (fun z => dot3 I (map (h z) ts) ys) x
      (dot3 I (map (h' x) ts) ys).
Proof.
  intros Hh. unfold dot3.
  induction ts as [| t ts IH]; intros I ys.
  - eapply (derive_eq (fct_cte 0)); [apply derivable_pt_lim_const | |].
    + intros z. now destruct I.
    + now destruct I.
  - destruct I as [| i I].
    { eapply (derive_eq (fct_cte 0));
        [apply derivable_pt_lim_const | reflexivity | reflexivity]. }
    destruct ys as [| y ys].
    { eapply (derive_eq (fct_cte 0));
        [apply derivable_pt_lim_const | reflexivity | reflexivity]. }
    cbn [map zip_with rsum fold_right].
    eapply (derive_eq
              (mult_real_fct (i * y) (fun z => h z t)
               + (fun z => rsum (zip_with Rmult
                                   (zip_with Rmult I (map (h z) ts)) ys)))%F).
    + apply derivable_pt_lim_plus; [apply derivable_pt_lim_scal, Hh | apply IH].
    + intros z. unfold plus_fct, mult_real_fct. unfold rsum. ring.
    + unfold rsum. ring.
Qed.

End Derivatives.

Section FiniteRun.
Local Open Scope R_scope.

Lemma map_Num (f : R -> R) (l : list R) :
  map (fun t => Num (f t)) l = map Num (map f l).
Proof. now rewrite map_map. Qed.

(** The lists of the model over samples that are numbers. *)
Lemma model_lists (c : R3) (ts : list R) :
  let wv := map Num ts in
  let U := map (U_poly (vnum c)) wv in
  let t1 := map (fun u => F64.sqrt (F64.add (Num 1) (F64.square u))) U in
  let t2 := zip_with
              (fun u t => F64.sub (F64.div (Num 1) (F64.mul (Num 2) t))
                            (F64.div (F64.square u)
                               (F64.mul (Num 2) (F64.cube t)))) U t1 in
  zip_with (fun u t => F64.add (F64.div (Num 1) (Num 2))
                         (F64.div u (F64.mul (Num 2) t))) U t1
  = map Num (map (fun t => sigmoid (poly c t)) ts)
  /\ zip_with (fun w t => F64.mul (F64.square w) t) wv t2
     = map Num (map (fun t => weight 0 t * sigmoid' (poly c t)) ts)
  /\ zip_with (fun w t => F64.mul w t) wv t2
     = map Num (map (fun t => weight 1 t * sigmoid' (poly c t)) ts)
  /\ t2 = map Num (map (fun t => weight 2 t * sigmoid' (poly c t)) ts).
Proof.
  cbv zeta.
  assert (Ht2 :
    zip_with
      (fun u t => F64.sub (F64.div (Num 1) (F64.mul (Num 2) t))
                    (F64.div (F64.square u) (F64.mul (Num 2) (F64.cube t))))
      (map (U_poly (vnum c)) (map Num ts))
      (map (fun u => F64.sqrt (F64.add (Num 1) (F64.square u)))
         (map (U_poly (vnum c)) (map Num ts)))
    = map (fun t => Num (sigmoid' (poly c t))) ts).
  { rewrite zip_with_map_left, !map_map. apply map_ext. intros t.
    rewrite U_poly_value. fold (poly c t).
    pose proof (sqrt_one_plus_pos (poly c t)) as Hs.
    rewrite square_Num, add_Num, sqrt_Num by nra.
    rewrite cube_Num, !mul_Num, !div_Num, sub_Num
      by (try apply Rgt_not_eq; try repeat apply Rmult_lt_0_compat; lra).
    reflexivity. }
  rewrite Ht2. repeat split.
  - rewrite zip_with_map_left, !map_map. apply map_ext. intros t.
    rewrite U_poly_value. fold (poly c t).
    now rewrite reflectance_value.
  - rewrite <- (map_id ts) at 2. rewrite !map_map.
    rewrite zip_with_map_same. apply map_ext. intros t.
    now rewrite square_Num, mul_Num.
  - rewrite <- (map_id ts) at 2. rewrite !map_map.
    rewrite zip_with_map_same. apply map_ext. intros t.
    now rewrite mul_Num.
  - rewrite map_map. apply map_ext. intros t. cbn [weight]. f_equal. ring.
Qed.

End FiniteRun.

(** ** The error function on finite inputs *)

Section FiniteInputs.
Local Open Scope R_scope.

Variable shape : SpectralShape.
Variable cmfs : MultiSpectralDistributions.
Variable illuminant : SpectralDistribution.
Variables (ts I : list R) (M : list R3) (w0 w1 : R) (Wr T : R3).

Hypothesis Hts : ts = unit_samples (length (range shape)).

Hypothesis Hn : (2 <= length (range shape))%nat.
Hypothesis Hill : values illuminant = map Num I.
Hypothesis Hcmfs : msd_values cmfs = map vnum M.
Hypothesis HI : length I = length (range shape).
Hypothesis HM : length M = length (range shape).
Hypothesis Hw0 : msd_wavelengths cmfs !! 0%nat = Some (Num w0).
Hypothesis Hw1 : msd_wavelengths cmfs !! 1%nat = Some (Num w1).
Hypothesis Hdw : w0 <> w1.
Hypothesis Hsum : rsum (zip_with Rmult (map (fun m => channel m 1) M) I) <> 0.
Hypothesis HW : forall i : nat, 0 < channel Wr i.

Lemma xyz_value (c : R3) (i : nat) :
  F64.mul
    (F64.mul
       (F64.div (Num 100)
          (F64.mul
             (Num (rsum (zip_with Rmult (map (fun m => channel m 1) M) I)))
             (F64.sub (Num w1) (Num w0))))
       (Num (rsum (zip_with Rmult
                     (zip_with Rmult I
                        (map (fun t => sigmoid (poly c t)) ts))
                     (map (fun m => channel m i) M)))))
    (F64.sub (Num w1) (Num w0))
  = Num (model_XYZ ts I M c i).
Proof.
  assert (Hden : rsum (zip_with Rmult (map (fun m => channel m 1) M) I)
                 * (w1 - w0) <> 0)
    by (apply Rmult_integral_contrapositive_currified; [exact Hsum | lra]).
  rewrite sub_Num, mul_Num, div_Num, !mul_Num by exact Hden.
  f_equal. unfold model_XYZ, dot3. field. split; [exact Hsum | lra].
Qed.

Lemma dxyz_value (c : R3) (i j : nat) :
  F64.mul
    (F64.mul
       (F64.div (Num 100)
          (F64.mul
             (Num (rsum (zip_with Rmult (map (fun m => channel m 1) M) I)))
             (F64.sub (Num w1) (Num w0))))
       (Num (rsum (zip_with Rmult
                     (zip_with Rmult I
                        (map (fun t => weight j t * sigmoid' (poly c t)) ts))
                     (map (fun m => channel m i) M)))))
    (F64.sub (Num w1) (Num w0))
  = Num (model_dXYZ ts I M c i j).
Proof.
  assert (Hden : rsum (zip_with Rmult (map (fun m => channel m 1) M) I)
                 * (w1 - w0) <> 0)
    by (apply Rmult_integral_contrapositive_currified; [exact Hsum | lra]).
  rewrite sub_Num, mul_Num, div_Num, !mul_Num by exact Hden.
  f_equal. unfold model_dXYZ, dot3. field. split; [exact Hsum | lra].
Qed.

Lemma error_function_body_finite (c : R3) :
  (forall i : nat, 0 < model_XYZ ts I M c i) ->
  exists l : error_function_locals,
    error_function_body (vnum c) (vnum T) shape cmfs illuminant (vnum Wr)
    = Ok l
    /\ ef_Lab l = vnum (model_Lab ts I M Wr c)
    /\ ef_dLab l = mnum (model_dLab ts I M Wr c).
Proof.
  intros HX. unfold error_function_body.
  rewrite linspace_unit_eq by exact Hn.
  fold (unit_samples (length (range shape))). rewrite <- Hts.
  cbv zeta.
  destruct (model_lists c ts) as (ER & E0 & E1 & E2). cbv zeta in ER, E0, E1, E2.
  rewrite ER, E0, E1, E2.
  assert (Lts : length ts = length (range shape)).
  { rewrite Hts. unfold unit_samples. now rewrite length_map, length_seq. }
  rewrite Hill, Hcmfs, !column_Num.
  rewrite !broadcast2_same_length by (rewrite !length_map; lia).
  rewrite !bind_Ok.
  pose proof (py_index_lookup _ 1 _ Hw1) as Hp1.
  pose proof (py_index_lookup _ 0 _ Hw0) as Hp0.
  change (Z.of_nat 1) with 1%Z in Hp1. change (Z.of_nat 0) with 0%Z in Hp0.
  rewrite Hp1, Hp0, !bind_Ok. unfold vbuildM. cbv beta iota.
  rewrite !column_Num, !zip_with_mul_Num.
  rewrite !np_dot_same_length
    by (repeat first [rewrite length_map | rewrite length_zip_with]; lia).
  rewrite !bind_Ok, !zip_with_mul_Num, !np_sum_Num.
  rewrite !xyz_value, !dxyz_value.
  eexists. split; [reflexivity |]. cbn [ef_Lab ef_dLab].
  pose proof (HX 0%nat) as X0. pose proof (HX 1%nat) as X1.
  pose proof (HX 2%nat) as X2.
  pose proof (HW 0%nat) as W0. pose proof (HW 1%nat) as W1.
  pose proof (HW 2%nat) as W2.
  unfold model_Lab, model_dLab.
  set (x0 := model_XYZ ts I M c 0) in *. set (x1 := model_XYZ ts I M c 1) in *.
  set (x2 := model_XYZ ts I M c 2) in *.
  destruct Wr as [[u0 u1] u2]. cbn [channel] in W0, W1, W2 |- *.
  cbn [vget mget vbuild vnum mnum asarray]. unfold vbuild. cbv beta iota.
  assert (Q0 : 0 < x0 / u0) by (now apply Rdiv_lt_0_compat).
  assert (Q1 : 0 < x1 / u1) by (now apply Rdiv_lt_0_compat).
  assert (Q2 : 0 < x2 / u2) by (now apply Rdiv_lt_0_compat).
  f64_eval_by ltac:(first [assumption | pos_side]).
  split; reflexivity.
Qed.

Lemma with_channel_same (c : R3) (j : nat) :
  with_channel c j (channel c j) = c.
Proof. destruct c as [[c_0 c_1] c_2], j as [| [| j]]; reflexivity. Qed.

Lemma poly_with_channel (c : R3) (j : nat) (t z : R) :
  poly (with_channel c j z) t
  = (poly c t - weight j t * channel c j) + weight j t * z.
Proof.
  destruct c as [[c_0 c_1] c_2], j as [| [| j]]; unfold poly;
    cbn [with_channel channel weight]; ring.
Qed.

(** The derivative of a tristimulus value of the model with respect to a
    coefficient. *)
Lemma derive_model_XYZ (c : R3) (i j : nat) :
  derivable_pt_lim (fun x => model_XYZ ts I M (with_channel c j x) i)
    (channel c j) (model_dXYZ ts I M c i j).
Proof.
  set (S1 := rsum (zip_with Rmult (map (fun m => channel m 1) M) I)).
  set (ys := map (fun m => channel m i) M).
  eapply (derive_eq
            (mult_real_fct (100 / S1)
               (fun x => dot3 I
                           (map (fun t => sigmoid
                                            (poly (with_channel c j x) t)) ts)
                           ys))).
  - apply derivable_pt_lim_scal.
    apply (derive_dot3
             (fun z t => sigmoid (poly (with_channel c j z) t))
             (fun z t => weight j t
                         * sigmoid' (poly (with_channel c j z) t))).
    intros t.
    eapply (derive_eq
              (fun z => sigmoid ((poly c t - weight j t * channel c j)
                                 + weight j t * z))).
    + apply derive_sigmoid_affine.
    + intros z. now rewrite poly_with_channel.
    + now rewrite poly_with_channel.
  - intros z. unfold mult_real_fct, model_XYZ. fold S1 ys.
    unfold Rdiv. ring.
  - rewrite with_channel_same. unfold model_dXYZ. fold S1 ys.
    unfold Rdiv. ring.
Qed.

Lemma Rpower_third_cube (x : R) :
  0 < x -> Rpower x (1 / 3) * Rpower x (1 / 3) * Rpower x (1 / 3) = x.
Proof.
  intros Hx. rewrite <- !Rpower_plus.
  replace (1 / 3 + 1 / 3 + 1 / 3) with 1 by field. now apply Rpower_1.
Qed.

Lemma Rpower_two_thirds (x : R) :
  Rpower x (2 / 3) = Rpower x (1 / 3) * Rpower x (1 / 3).
Proof. rewrite <- Rpower_plus. f_equal. field. Qed.

Lemma Rpower_third_div (x w : R) :
  0 < x -> 0 < w ->
  Rpower (x / w) (1 / 3) = Rpower x (1 / 3) / Rpower w (1 / 3).
Proof.
  intros Hx Hw.
  assert (Hq : 0 < x / w) by now apply Rdiv_lt_0_compat.
  pose proof (Rpower_pos w (1 / 3)) as Pw.
  apply (Rmult_eq_reg_r (Rpower w (1 / 3))); [| lra].
  rewrite Rpower_mult_distr by assumption.
  replace (x / w * w) with x by (field; lra).
  field. lra.
Qed.

(** The derivative of the cube root of a normalised tristimulus value, in
    the form the code computes it. *)
Lemma derive_cube_root (f : R -> R) (x l w : R) :
  derivable_pt_lim f x l -> 0 < f x -> 0 < w ->
  derivable_pt_lim (fun z => Rpower (f z / w) (1 / 3)) x
    (1 / (3 * Rpower w (1 / 3) * Rpower (f x) (2 / 3)) * l).
Proof.
  intros Hf Hx Hw.
  assert (Hq : 0 < f x / w) by now apply Rdiv_lt_0_compat.
  eapply (derive_eq
            (comp (fun y => Rpower y (1 / 3)) (mult_real_fct (/ w) f))).
  - apply derivable_pt_lim_comp.
    + apply derivable_pt_lim_scal, Hf.
    + apply derivable_pt_lim_power. unfold mult_real_fct.
      replace (/ w * f x) with (f x / w) by (field; lra). exact Hq.
  - intros z. unfold comp, mult_real_fct. f_equal. field. lra.
  - unfold mult_real_fct.
    replace (/ w * f x) with (f x / w) by (field; lra).
    pose proof (Rpower_pos w (1 / 3)) as Pw.
    pose proof (Rpower_pos (f x) (1 / 3)) as Px.
    pose proof (Rpower_third_cube w Hw) as Cw.
    pose proof (Rpower_third_cube (f x) Hx) as Cx.
    change (1 / 3 - 1) with (1 / 3 + Ropp 1).
    rewrite Rpower_plus, Rpower_Ropp, Rpower_1 by exact Hq.
    rewrite Rpower_third_div, Rpower_two_thirds by assumption.
    set (a := Rpower w (1 / 3)) in *. set (b := Rpower (f x) (1 / 3)) in *.
    rewrite <- Cw, <- Cx. field. repeat split; lra.
Qed.

End FiniteInputs.

(** ** The gradient of the error *)

Section LabDerivatives.
Local Open Scope R_scope.

Lemma derive_scaled_shift (a b : R) (f : R -> R) (x l : R) :
  derivable_pt_lim f x l ->
  derivable_pt_lim (fun z => a * f z - b) x (a * l).
Proof.
  intros Hf.
  eapply (derive_eq (mult_real_fct a f - fct_cte b)%F).
  - apply derivable_pt_lim_minus;
      [apply derivable_pt_lim_scal, Hf | apply derivable_pt_lim_const].
  - intros z. reflexivity.
  - ring.
Qed.

Lemma derive_scaled_difference (a : R) (f g : R -> R) (x lf lg : R) :
  derivable_pt_lim f x lf -> derivable_pt_lim g x lg ->
  derivable_pt_lim (fun z => a * (f z - g z)) x (a * (lf - lg)).
Proof.
  intros Hf Hg.
  eapply (derive_eq (mult_real_fct a (f - g))%F).
  - apply derivable_pt_lim_scal, derivable_pt_lim_minus; eassumption.
  - intros z. reflexivity.
  - reflexivity.
Qed.

(** The derivative of the distance to a fixed triplet. *)
Lemma derive_distance (L0 L1 L2 : R -> R) (x l0 l1 l2 t0 t1 t2 : R) :
  derivable_pt_lim L0 x l0 -> derivable_pt_lim L1 x l1 ->
  derivable_pt_lim L2 x l2 ->
  0 < euclidean_distance (L0 x, L1 x, L2 x) (t0, t1, t2) ->
  derivable_pt_lim
    (fun z => euclidean_distance (L0 z, L1 z, L2 z) (t0, t1, t2)) x
    (weighted_difference (l0, l1, l2) (L0 x, L1 x, L2 x) (t0, t1, t2)
     / euclidean_distance (L0 x, L1 x, L2 x) (t0, t1, t2)).
Proof.
  intros H0 H1 H2 Hpos. cbn [euclidean_distance weighted_difference] in *.
  set (q := fun z => (L0 z - t0) * (L0 z - t0) + (L1 z - t1) * (L1 z - t1)
                     + (L2 z - t2) * (L2 z - t2)).
  assert (Hq : 0 < q x).
  { unfold q. apply Rnot_le_lt. intros Hle.
    rewrite sqrt_neg_0 in Hpos by exact Hle. lra. }
  assert (Hsq : forall (f : R -> R) (l t : R),
            derivable_pt_lim f x l ->
            derivable_pt_lim (fun z => (f z - t) * (f z - t)) x
              (2 * l * (f x - t))).
  { intros f l t Hf.
    eapply (derive_eq ((f - fct_cte t) * (f - fct_cte t))%F).
    - apply derivable_pt_lim_mult;
        (apply derivable_pt_lim_minus;
         [exact Hf | apply derivable_pt_lim_const]).
    - intros z. reflexivity.
    - unfold minus_fct, fct_cte. ring. }
  eapply (derive_eq (comp sqrt q)).
  - apply derivable_pt_lim_comp.
    + unfold q.
      eapply (derive_eq
                (plus_fct
                   (plus_fct (fun z => (L0 z - t0) * (L0 z - t0))
                      (fun z => (L1 z - t1) * (L1 z - t1)))
                   (fun z => (L2 z - t2) * (L2 z - t2)))).
      * repeat apply derivable_pt_lim_plus; apply Hsq; eassumption.
      * intros z. reflexivity.
      * reflexivity.
    + apply derivable_pt_lim_sqrt. exact Hq.
  - intros z. reflexivity.
  - fold (q x). field. apply Rgt_not_eq. exact Hpos.
Qed.

End LabDerivatives.

Section Gradient.
Local Open Scope R_scope.

Variable shape : SpectralShape.
Variable cmfs : MultiSpectralDistributions.
Variable illuminant : SpectralDistribution.
Variables (ts I : list R) (M : list R3) (w0 w1 : R) (Wr T : R3).

Hypothesis Hts : ts = unit_samples (length (range shape)).
Hypothesis Hn : (2 <= length (range shape))%nat.
Hypothesis Hill : values illuminant = map Num I.
Hypothesis Hcmfs : msd_values cmfs = map vnum M.
Hypothesis HI : length I = length (range shape).
Hypothesis HM : length M = length (range shape).
Hypothesis Hw0 : msd_wavelengths cmfs !! 0%nat = Some (Num w0).
Hypothesis Hw1 : msd_wavelengths cmfs !! 1%nat = Some (Num w1).
Hypothesis Hdw : w0 <> w1.
Hypothesis HposI : Forall (fun x => 0 <= x) I.
Hypothesis HposM : Forall (fun m => forall i : nat, 0 <= channel m i) M.
Hypothesis Hsums :
  forall i : nat, 0 < rsum (zip_with Rmult (map (fun m => channel m i) M) I).
Hypothesis HW : forall i : nat, 0 < channel Wr i.

(** The tristimulus values of the model are positive, whatever the
    coefficients. *)
Lemma model_XYZ_pos (c : R3) (i : nat) : 0 < model_XYZ ts I M c i.
Proof.
  unfold model_XYZ, dot3.
  destruct (weighted_sum_bounds I (map (fun t => sigmoid (poly c t)) ts)
              (map (fun m => channel m i) M)) as [_ Hb].
  - rewrite length_map, Hts. unfold unit_samples.
    now rewrite length_map, length_seq.
  - rewrite length_map. congruence.
  - exact HposI.
  - apply Forall_fmap. eapply Forall_impl; [exact HposM |].
    intros m Hm. apply Hm.
  - apply Forall_fmap, Forall_forall. intros t _. apply sigmoid_bounds.
  - cbv zeta in Hb. specialize (Hb (Hsums i)).
    pose proof (Hsums 1%nat) as H1.
    apply Rdiv_lt_0_compat; lra.
Qed.

Lemma luminance_sum_nonzero :
  rsum (zip_with Rmult (map (fun m => channel m 1) M) I) <> 0.
Proof. pose proof (Hsums 1%nat). lra. Qed.

(** The derivative of a component of Lab with respect to a coefficient is
    the entry of [dLab] the code computes. *)
Lemma derive_model_Lab (c : R3) (j k : nat) :
  derivable_pt_lim
    (fun x => channel (model_Lab ts I M Wr (with_channel c j x)) k)
    (channel c j)
    (channel (column3 (model_dLab ts I M Wr c) j) k).
Proof.
  assert (HF : forall i,
    derivable_pt_lim
      (fun z => Rpower (model_XYZ ts I M (with_channel c j z) i
                        / channel Wr i) (1 / 3))
      (channel c j)
      (1 / (3 * Rpower (channel Wr i) (1 / 3)
            * Rpower (model_XYZ ts I M c i) (2 / 3))
       * model_dXYZ ts I M c i j)).
  { intros i.
    pose proof (derive_cube_root
                  (fun z => model_XYZ ts I M (with_channel c j z) i)
                  (channel c j) (model_dXYZ ts I M c i j) (channel Wr i)
                  (derive_model_XYZ ts I M c i j)) as Hd.
    cbv beta in Hd. rewrite with_channel_same in Hd.
    apply Hd; [apply model_XYZ_pos | apply HW]. }
  unfold model_Lab, model_dLab. cbv zeta.
  destruct k as [| [| k]]; destruct j as [| [| j]];
    cbn [channel column3];
    first [ apply derive_scaled_shift; apply HF
          | apply derive_scaled_difference; apply HF ].
Qed.

Lemma np_sum_squares (d0 d1 d2 : R) :
  F64.sqrt (np_sum (map F64.square [Num d0; Num d1; Num d2]))
  = Num (sqrt (d0 * d0 + d1 * d1 + d2 * d2)).
Proof.
  unfold np_sum. cbn [map fold_left]. rewrite !square_Num, !add_Num.
  rewrite sqrt_Num by nra. do 2 f_equal. ring.
Qed.

(** What the error function returns on these inputs: the distance between
    the Lab triplet of the model and the target, and, when the distance is
    not zero, the weighted differences divided by it. *)
Lemma error_function_finite (c : R3) :
  let Lab := model_Lab ts I M Wr c in
  let dLab := model_dLab ts I M Wr c in
  let e := euclidean_distance Lab T in
  exists derror : vec3,
    error_function_Jakob2019 (vnum c) (vnum T) shape cmfs illuminant (vnum Wr)
      false
    = Ok (ErrorGradient (Num e) derror)
    /\ (0 < e ->
        derror = vnum (weighted_difference (column3 dLab 0) Lab T / e,
                       weighted_difference (column3 dLab 1) Lab T / e,
                       weighted_difference (column3 dLab 2) Lab T / e)).
Proof.
  cbv zeta.
  destruct (error_function_body_finite shape cmfs illuminant ts I M w0 w1 Wr T
              Hts Hn Hill Hcmfs HI HM Hw0 Hw1 Hdw luminance_sum_nonzero HW c
              (model_XYZ_pos c)) as (l & Hl & HLab & HdLab).
  destruct (error_function_body_error _ _ _ _ _ _ _ Hl) as [He Hde].
  unfold error_function_Jakob2019. rewrite Hl, bind_Ok.
  rewrite HLab in He, Hde. rewrite HdLab in Hde.
  destruct (model_Lab ts I M Wr c) as [[a0 a1] a2] eqn:ELab.
  destruct (model_dLab ts I M Wr c)
    as [[[[p0 p1] p2] [[q0 q1] q2]] [[r0 r1] r2]] eqn:EdLab.
  destruct T as [[t0 t1] t2].
  cbn [vnum mnum vget mget] in He, Hde.
  rewrite !sub_Num, np_sum_squares in He.
  assert (Ee : ef_error l
               = Num (euclidean_distance (a0, a1, a2) (t0, t1, t2))).
  { rewrite He. reflexivity. }
  rewrite Ee in Hde |- *.
  eexists. split; [reflexivity |].
  intros Hpos. rewrite Hde. unfold vbuild. cbn [vget mget].
  rewrite !sub_Num, !mul_Num, !add_Num.
  rewrite !div_Num by (apply Rgt_not_eq; exact Hpos).
  cbn [vnum column3 weighted_difference].
  repeat f_equal; ring.
Qed.

End Gradient.

Section GradientTheorem.
Local Open Scope R_scope.

Lemma triple_channels (a : R3) : a = (channel a 0, channel a 1, channel a 2).
Proof. now destruct a as [[a0 a1] a2]. Qed.

(** X20. The gradient [error_function_Jakob2019] returns is the gradient of
    the error it returns.  With finite coefficients, at least two samples,
    one finite non-negative illuminant value and one row of finite
    non-negative colour-matching values for each sample, positive sums of
    [x_bar], [y_bar] and [z_bar] weighted by the illuminant, two distinct
    first wavelengths and a white point of positive numbers, the function
    returns a finite error [e >= 0], and where [e > 0] the three components
    of the returned gradient are numbers, component [j] being the
    derivative of the returned error with respect to the coefficient
    [c_j]. *)
Theorem gradient_is_derivative_of_error
    (c : R3) (shape : SpectralShape) (cmfs : MultiSpectralDistributions)
    (illuminant : SpectralDistribution) (I : list R) (M : list R3)
    (w0 w1 : R) (Wr T : R3) :
  (2 <= length (range shape))%nat ->
  values illuminant = map Num I ->
  msd_values cmfs = map vnum M ->
  length I = length (range shape) ->
  length M = length (range shape) ->
  msd_wavelengths cmfs !! 0%nat = Some (Num w0) ->
  msd_wavelengths cmfs !! 1%nat = Some (Num w1) ->
  w0 <> w1 ->
  Forall (fun x => 0 <= x) I ->
  Forall (fun m => forall i : nat, 0 <= channel m i) M ->
  (forall i : nat,
      0 < rsum (zip_with Rmult (map (fun m => channel m i) M) I)) ->
  (forall i : nat, 0 < channel Wr i) ->
  let run := fun c' : R3 =>
    error_function_Jakob2019 (vnum c') (vnum T) shape cmfs illuminant
      (vnum Wr) false in
  exists (e : R) (derror : vec3),
    run c = Ok (ErrorGradient (Num e) derror)
    /\ 0 <= e
    /\ (0 < e ->
        exists g : R3,
          derror = vnum g
          /\ forall j : nat,
               derivable_pt_lim (fun x => error_of (run (with_channel c j x)))
                 (channel c j) (channel g j)).
Proof.
  intros Hn Hill Hcmfs HI HM Hw0 Hw1 Hdw HposI HposM Hsums HW run.
  set (ts := unit_samples (length (range shape))).
  pose proof (error_function_finite shape cmfs illuminant ts I M w0 w1 Wr T
                eq_refl Hn Hill Hcmfs HI HM Hw0 Hw1 Hdw HposI HposM Hsums HW)
    as Hrun.
  cbv zeta in Hrun.
  destruct (Hrun c) as (derror & Hc & Hgrad).
  set (Lab := model_Lab ts I M Wr c) in *.
  set (dLab := model_dLab ts I M Wr c) in *.
  set (e := euclidean_distance Lab T) in *.
  exists e, derror. split; [exact Hc |]. split.
  { unfold e, euclidean_distance. destruct Lab as [[a0 a1] a2], T as [[t0 t1] t2].
    apply sqrt_pos. }
  intros Hpos. eexists. split; [exact (Hgrad Hpos) |]. intros j.
  pose proof (fun k => derive_model_Lab shape ts I M Wr eq_refl HI HM HposI
                         HposM Hsums HW c j k) as HL.
  fold ts in HL.
  pose proof (derive_distance
                (fun x => channel (model_Lab ts I M Wr (with_channel c j x)) 0)
                (fun x => channel (model_Lab ts I M Wr (with_channel c j x)) 1)
                (fun x => channel (model_Lab ts I M Wr (with_channel c j x)) 2)
                (channel c j) _ _ _ (channel T 0) (channel T 1) (channel T 2)
                (HL 0%nat) (HL 1%nat) (HL 2%nat)) as Hd.
  cbv beta in Hd.
  rewrite <- !triple_channels, with_channel_same in Hd. fold Lab dLab e in Hd.
  specialize (Hd Hpos).
  eapply derive_eq; [exact Hd | |].
  - intros z. cbv beta. rewrite <- !triple_channels.
    destruct (Hrun (with_channel c j z)) as (d' & Hz & _).
    unfold run. now rewrite Hz.
  - destruct j as [| [| j]]; reflexivity.
Qed.

Lemma gradient_is_derivative_of_error_witness :
  exists (e : R) (derror : vec3),
    error_function_Jakob2019 (vnum (0, 0, 0)) (vnum (0, 1, 0)) unit_shape
      flat_cmfs flat_illuminant (vnum (1, 1, 1)) false
    = Ok (ErrorGradient (Num e) derror)
    /\ 0 <= e.
Proof.
  destruct (gradient_is_derivative_of_error (0, 0, 0) unit_shape flat_cmfs
              flat_illuminant [1; 1] [(1, 1, 1); (1, 1, 1)] 0 1 (1, 1, 1)
              (0, 1, 0)) as (e & derror & Hrun & He & _).
  - rewrite range_unit_shape. simpl. lia.
  - reflexivity.
  - reflexivity.
  - now rewrite range_unit_shape.
  - now rewrite range_unit_shape.
  - reflexivity.
  - reflexivity.
  - lra.
  - repeat apply List.Forall_cons; try apply List.Forall_nil; lra.
  - repeat apply List.Forall_cons; try apply List.Forall_nil;
      intros [| [| i]]; cbn; lra.
  - intros [| [| i]]; cbn; lra.
  - intros [| [| i]]; cbn; lra.
  - exists e, derror. split; assumption.
Defined.

End GradientTheorem.

(** ** Table files written from bit patterns *)

Section TableFiles.
Local Open Scope Z_scope.

Lemma byte_val_byte_of (z : Z) : 0 <= z < 256 -> byte_val (byte_of z) = z.
Proof.
  intros Hz. unfold byte_val, byte_of.
  destruct (Byte.of_N (Z.to_N z)) as [b |] eqn:Hb.
  - apply Byte.to_of_N in Hb. rewrite Hb. lia.
  - apply Byte.of_N_None_iff in Hb. lia.
Qed.

Lemma le_u32_le_bytes (w : Z) :
  0 <= w < 2 ^ 32 ->
  le_u32 (byte_of (w mod 256)) (byte_of (w / 256 mod 256))
    (byte_of (w / 65536 mod 256)) (byte_of (w / 16777216 mod 256))
  = w.
Proof.
  intros Hw. unfold le_u32.
  rewrite !byte_val_byte_of by (apply Z.mod_pos_bound; lia).
  change (2 ^ 32) with 4294967296 in Hw.
  replace (w / 65536) with (w / 256 / 256)
    by (rewrite Z.div_div by lia; reflexivity).
  replace (w / 16777216) with (w / 256 / 256 / 256)
    by (rewrite !Z.div_div by lia; reflexivity).
  pose proof (Z.div_mod w 256 ltac:(lia)) as E0.
  pose proof (Z.div_mod (w / 256) 256 ltac:(lia)) as E1.
  pose proof (Z.div_mod (w / 256 / 256) 256 ltac:(lia)) as E2.
  pose proof (Z.div_mod (w / 256 / 256 / 256) 256 ltac:(lia)) as E3.
  pose proof (Z.mod_pos_bound w 256 ltac:(lia)) as B0.
  pose proof (Z.mod_pos_bound (w / 256) 256 ltac:(lia)) as B1.
  pose proof (Z.mod_pos_bound (w / 256 / 256) 256 ltac:(lia)) as B2.
  pose proof (Z.mod_pos_bound (w / 256 / 256 / 256) 256 ltac:(lia)) as B3.
  assert (Q : w / 256 / 256 / 256 / 256 = 0).
  { rewrite !Z.div_div by lia. apply Z.div_small. lia. }
  rewrite Q in E3.
  set (m0 := w mod 256) in *. set (a := w / 256) in *.
  set (m1 := a mod 256) in *. set (b := a / 256) in *.
  set (m2 := b mod 256) in *. set (c := b / 256) in *.
  set (m3 := c mod 256) in *. lia.
Qed.

(** The patterns of a file are the numbers [np.fromfile] decodes. *)
Lemma decode_le_bytes (ws : list Z) (rest : list byte) :
  Forall (fun w => 0 <= w < 2 ^ 32) ws ->
  decode_float32s (flat_map le_bytes ws ++ rest)
  = map float32_of_bits ws ++ decode_float32s rest.
Proof.
  induction 1 as [| w ws Hw Hws IH]; [reflexivity |].
  cbn [flat_map le_bytes app decode_float32s map].
  now rewrite le_u32_le_bytes, IH.
Qed.

Lemma length_le_bytes (ws : list Z) :
  length (flat_map le_bytes ws) = (4 * length ws)%nat.
Proof.
  induction ws as [| w ws IH]; [reflexivity |].
  cbn [flat_map le_bytes app length]. rewrite IH. lia.
Qed.

Lemma unpack_i_le_bytes (n : Z) :
  0 <= n < 2 ^ 31 -> unpack_i (le_bytes n) = Ok n.
Proof.
  intros Hn. unfold le_bytes, unpack_i.
  rewrite le_u32_le_bytes by (change (2 ^ 32) with 4294967296;
                             change (2 ^ 31) with 2147483648 in Hn; lia).
  destruct (Z.ltb_spec n (2 ^ 31)) as [_ | Hge]; [reflexivity | lia].
Qed.

(** A file written from [n] patterns of scale and [9 n^3] patterns of
    coefficients is a complete table, and holds the numbers the patterns
    denote. *)
Lemma table_file_complete (n : nat) (sc co : list Z) :
  Z.of_nat n < 2 ^ 31 ->
  length sc = n ->
  length co = (3 * n ^ 3 * 3)%nat ->
  Forall (fun w => 0 <= w < 2 ^ 32) sc ->
  Forall (fun w => 0 <= w < 2 ^ 32) co ->
  complete_table (table_file (Z.of_nat n) sc co) n
  /\ table_scale (table_file (Z.of_nat n) sc co) n = map float32_of_bits sc
  /\ table_coefficients (table_file (Z.of_nat n) sc co) n
     = map float32_of_bits co.
Proof.
  intros Hn Lsc Lco Hsc Hco. unfold table_file.
  set (S := flat_map le_bytes sc). set (C := flat_map le_bytes co).
  assert (LS : length S = (4 * n)%nat)
    by (unfold S; now rewrite length_le_bytes, Lsc).
  assert (LC : length C = (4 * (3 * n ^ 3 * 3))%nat)
    by (unfold C; now rewrite length_le_bytes, Lco).
  assert (D8 : drop 8 (SPEC ++ le_bytes (Z.of_nat n) ++ S ++ C) = S ++ C)
    by reflexivity.
  split; [| split].
  - split; [reflexivity |]. split.
    + change (take 4 (drop 4 (SPEC ++ le_bytes (Z.of_nat n) ++ S ++ C)))
        with (le_bytes (Z.of_nat n)).
      apply unpack_i_le_bytes. lia.
    + unfold table_size. rewrite !length_app, LS, LC. cbn [length SPEC le_bytes].
      lia.
  - unfold table_scale. rewrite D8, take_app_length' by (symmetry; exact LS).
    unfold S. rewrite <- (app_nil_r (flat_map le_bytes sc)).
    rewrite decode_le_bytes by exact Hsc. apply app_nil_r.
  - unfold table_coefficients.
    replace (drop (8 + 4 * n) (SPEC ++ le_bytes (Z.of_nat n) ++ S ++ C))
      with C.
    + rewrite <- LC, firstn_all. unfold C.
      rewrite <- (app_nil_r (flat_map le_bytes co)).
      rewrite decode_le_bytes by exact Hco. apply app_nil_r.
    + rewrite <- drop_drop, D8, drop_app_length' by (symmetry; exact LS).
      reflexivity.
Qed.

End TableFiles.

Section SampleTables.
Local Open Scope R_scope.

Lemma float32_of_bits_two : float32_of_bits bits_2 = Num 2.
Proof.
  unfold float32_of_bits, bits_2. cbv -[IZR powerRZ Rmult Ropp]. f_equal.
  unfold powerRZ. replace (Pos.to_nat 22) with 22%nat by reflexivity.
  assert (Hpow : 2 ^ 22 = 4194304) by (simpl; lra).
  rewrite Hpow. field.
Qed.

Lemma float32_of_bits_three : float32_of_bits bits_3 = Num 3.
Proof.
  unfold float32_of_bits, bits_3. cbv -[IZR powerRZ Rmult Ropp]. f_equal.
  unfold powerRZ. replace (Pos.to_nat 22) with 22%nat by reflexivity.
  assert (Hpow : 2 ^ 22 = 4194304) by (simpl; lra).
  rewrite Hpow. field.
Qed.

Lemma float32_of_bits_four : float32_of_bits bits_4 = Num 4.
Proof.
  unfold float32_of_bits, bits_4. cbv -[IZR powerRZ Rmult Ropp]. f_equal.
  unfold powerRZ. replace (Pos.to_nat 21) with 21%nat by reflexivity.
  assert (Hpow : 2 ^ 21 = 2097152) by (simpl; lra).
  rewrite Hpow. field.
Qed.


Ltac patterns_in_range :=
  repeat (apply List.Forall_cons; [cbv; split; [discriminate | reflexivity] |]);
  apply List.Forall_nil.

(** A table of resolution 2 with the scale axis [0, 1] loads. *)
Lemma unit_table_loads (self : Jakob2019Interpolator) (co : list Z) :
  length co = 72%nat ->
  Forall (fun w => (0 <= w < 2 ^ 32)%Z) co ->
  from_file self (table_file 2 [bits_0; bits_1] co)
  = (mkInterpolator (Some 2%Z) (Some [Num 0; Num 1])
       (Some (unit_cubes (map float32_of_bits co))),
     Ok ())
  /\ table_scale (table_file 2 [bits_0; bits_1] co) 2 = [Num 0; Num 1]
  /\ table_coefficients (table_file 2 [bits_0; bits_1] co) 2
     = map float32_of_bits co.
Proof.
  intros Lco Hco.
  destruct (table_file_complete 2 [bits_0; bits_1] co)
    as ((Hmagic & Hn & Hsize) & Hsc & Hcoeffs);
    [reflexivity | reflexivity | exact Lco | patterns_in_range | exact Hco |].
  change (Z.of_nat 2) with 2%Z in *.
  assert (Esc : map float32_of_bits [bits_0; bits_1] = [Num 0; Num 1]).
  { cbn [map]. unfold bits_0, bits_1.
    now rewrite float32_of_bits_zero, float32_of_bits_one. }
  rewrite Esc in Hsc.
  split; [| split; assumption].
  rewrite (from_file_complete self _ 2).
  - unfold table_interpolator, unit_cubes.
    rewrite Hsc, Hcoeffs, linspace_2. reflexivity.
  - repeat split; try assumption. rewrite Hsc. exact strictly_ascending_unit.
  - reflexivity.
Qed.

Lemma sample_table_loads :
  from_file Jakob2019Interpolator_init sample_table
  = (mkInterpolator (Some 2%Z) (Some [Num 0; Num 1])
       (Some (unit_cubes sample_coefficients)),
     Ok ())
  /\ table_scale sample_table 2 = [Num 0; Num 1]
  /\ table_coefficients sample_table 2 = sample_coefficients.
Proof.
  assert (E : map float32_of_bits
                (repeat bits_4 27 ++ [bits_3; bits_2; bits_1]
                 ++ repeat bits_4 9 ++ [bits_1; bits_2; bits_3]
                 ++ repeat bits_4 30)
              = sample_coefficients).
  { cbn [repeat app map].
    rewrite !float32_of_bits_four, !float32_of_bits_three,
      !float32_of_bits_two.
    unfold bits_1. rewrite !float32_of_bits_one. reflexivity. }
  rewrite <- E. apply unit_table_loads; [reflexivity |].
  cbn [repeat app]. patterns_in_range.
Qed.


End SampleTables.

(** ** The triplet stored at a grid node *)

Section StoredTriplets.

Lemma drop_triplet (items : list float64) (o : nat) :
  match drop o items with
  | v0 :: v1 :: v2 :: _ => Ok (v0, v1, v2)
  | _ => Raise IndexError
  end
  = match triplet_at items o with
    | Some t => Ok t
    | None => Raise IndexError
    end.
Proof.
  unfold triplet_at.
  pose proof (lookup_drop items o 0) as H0.
  pose proof (lookup_drop items o 1) as H1.
  pose proof (lookup_drop items o 2) as H2.
  rewrite Nat.add_0_r in H0. rewrite <- H0, <- H1, <- H2.
  now destruct (drop o items) as [| v0 [| v1 [| v2 tl]]].
Qed.

(** A subscript of a [(3, n, n, n, 3)] array selects the triplet at its
    position among the items. *)
Lemma getitem3_position (items : list float64) (n c i j k : nat) :
  (c < 3)%nat -> (i < n)%nat -> (j < n)%nat -> (k < n)%nat ->
  getitem3 (mkArray [3; n; n; n; 3]%nat items)
    [Z.of_nat c; Z.of_nat i; Z.of_nat j; Z.of_nat k]
  = match triplet_at items (position n c i j k) with
    | Some t => Ok t
    | None => Raise IndexError
    end.
Proof.
  intros Hc Hi Hj Hk. unfold getitem3. cbn [shape data offset].
  rewrite !wrap_index_nonneg by lia. cbn [mbind result_bind fold_left].
  match goal with
  | |- context [Z.to_nat ?o] =>
      replace o with (Z.of_nat (position n c i j k))
        by (unfold position;
            rewrite ?Nat2Z.inj_mul, ?Nat2Z.inj_add, ?Nat2Z.inj_mul,
              ?Nat2Z.inj_add, ?Nat2Z.inj_mul, ?Nat2Z.inj_add, ?Nat2Z.inj_mul;
            ring)
  end.
  rewrite Nat2Z.id. apply drop_triplet.
Qed.

End StoredTriplets.

Section NodeClaim.
Local Open Scope R_scope.






End NodeClaim.

Section MidpointTheorem.
Local Open Scope R_scope.

(** X2. On a table that [from_file] loaded from a file of resolution
    [n >= 2] whose scale array and coefficients are all finite numbers, the
    interpolation evaluated half-way between the two neighbouring grid
    nodes [(c, scale[i], j/(n-1), k/(n-1))] and
    [(c, scale[i+1], j/(n-1), k/(n-1))], which differ only in [vmax],
    returns the arithmetic mean of the two triplets of coefficients that
    the file holds for the indices [(c, i, j, k)] and [(c, i + 1, j, k)]
    (exact arithmetic). *)
Theorem interpolation_at_scale_midpoint_is_mean
    (self0 self : Jakob2019Interpolator) (content : list byte)
    (cb : RegularGridInterpolator) (n c i j k : nat) (a b : R) :
  from_file self0 content = (self, Ok ()) ->
  res self = Some (Z.of_nat n) ->
  cubes self = Some cb ->
  (2 <= n)%nat ->
  Forall F64.is_finite (table_scale content n) ->
  Forall F64.is_finite (table_coefficients content n) ->
  (c <= 2)%nat -> (j < n)%nat -> (k < n)%nat ->
  table_scale content n !! i = Some (Num a) ->
  table_scale content n !! S i = Some (Num b) ->
  exists t0 t1 : R3,
    triplet_at (table_coefficients content n) (position n c i j k)
    = Some (vnum t0)
    /\ triplet_at (table_coefficients content n) (position n c (S i) j k)
       = Some (vnum t1)
    /\ RegularGridInterpolator_call cb
         [Num (INR c); Num ((a + b) / 2); Num (INR j / INR (n - 1));
          Num (INR k / INR (n - 1))]
       = Ok (vnum (r3_scale (r3_add t0 t1) (1 / 2))).
Proof.
  intros Hload Hres Hcubes Hn Hfsc Hfin Hc Hj Hk Ha Hb.
  assert (Hloaded : loaded self) by (now exists self0, content).
  destruct (from_file_sound _ _ _ Hload) as (n' & Hwf & _ & Hself).
  assert (n' = n) as ->.
  { rewrite Hself in Hres. cbn [table_interpolator res] in Hres.
    injection Hres as Hres. lia. }
  pose proof Hcubes as Hcb.
  rewrite Hself in Hcb. cbn [table_interpolator cubes] in Hcb.
  injection Hcb as Hcb.
  assert (Hdata : data (rgi_values cb) = table_coefficients content n)
    by now rewrite <- Hcb.
  assert (Hlen : length (table_scale content n) = n).
  { destruct Hwf as (_ & _ & Hsize & _). unfold table_size in Hsize.
    apply decode_take_length. rewrite length_drop. lia. }
  pose proof (lookup_lt_Some _ _ _ Hb) as Hi. rewrite Hlen in Hi.
  destruct (call_at_scale_midpoint self (Z.of_nat n) (table_scale content n)
              cb c i j k a b Hloaded Hres)
    as (t0 & t1 & H0 & H1 & Hcall); rewrite ?Nat2Z.id, ?Hdata;
    try assumption; try lia.
  { now rewrite Hself. }
  rewrite Nat2Z.id in Hcall.
  replace (Z.of_nat i + 1)%Z with (Z.of_nat (S i)) in H1 by lia.
  rewrite <- Hcb in H0, H1. cbn [rgi_values] in H0, H1.
  rewrite getitem3_position in H0, H1 by lia.
  exists t0, t1. split; [| split; [| exact Hcall]].
  - destruct (triplet_at _ (position n c i j k)) as [t' |];
      [congruence | discriminate].
  - destruct (triplet_at _ (position n c (S i) j k)) as [t' |];
      [congruence | discriminate].
Qed.

Lemma interpolation_at_scale_midpoint_is_mean_witness :
  exists (self : Jakob2019Interpolator) (cb : RegularGridInterpolator),
    from_file Jakob2019Interpolator_init sample_table = (self, Ok ())
    /\ cubes self = Some cb
    /\ triplet_at (table_coefficients sample_table 2) (position 2 1 0 0 1)
       = Some (Num 3, Num 2, Num 1)
    /\ triplet_at (table_coefficients sample_table 2) (position 2 1 1 0 1)
       = Some (Num 1, Num 2, Num 3)
    /\ RegularGridInterpolator_call cb
         [Num (INR 1); Num ((0 + 1) / 2); Num (INR 0 / INR (2 - 1));
          Num (INR 1 / INR (2 - 1))]
       = Ok (Num 2, Num 2, Num 2).
Proof.
  destruct sample_table_loads as (Hload & Hsc & Hco).
  eexists _, _. split; [exact Hload |]. split; [reflexivity |].
  destruct (interpolation_at_scale_midpoint_is_mean _ _ sample_table
              (unit_cubes sample_coefficients) 2 1 0 0 1 0 1 Hload eq_refl
              eq_refl)
    as (t0 & t1 & H0 & H1 & Hcall); try lia.
  - rewrite Hsc. repeat constructor.
  - rewrite Hco. unfold sample_coefficients. cbn [repeat app].
    repeat constructor.
  - now rewrite Hsc.
  - now rewrite Hsc.
  - assert (S0 : triplet_at (table_coefficients sample_table 2)
                   (position 2 1 0 0 1) = Some (Num 3, Num 2, Num 1))
      by (rewrite Hco; reflexivity).
    assert (S1 : triplet_at (table_coefficients sample_table 2)
                   (position 2 1 1 0 1) = Some (Num 1, Num 2, Num 3))
      by (rewrite Hco; reflexivity).
    split; [exact S0 |]. split; [exact S1 |].
    rewrite Hcall. rewrite S0 in H0. rewrite S1 in H1.
    destruct t0 as [[p0 p1] p2], t1 as [[q0 q1] q2].
    injection H0 as <- <- <-. injection H1 as <- <- <-.
    cbn [r3_add r3_scale vnum]. repeat f_equal; lra.
Defined.

End MidpointTheorem.

(** ** The white point of the error function *)

Section WhitePoint.
Local Open Scope R_scope.

Lemma item_pow_accepted (a : array_like) (i : nat) (y : R) :
  ~ python_negative a i ->
  item_pow a i y = Ok (F64.pow (vget (asarray a) i) y).
Proof.
  unfold python_negative. destruct a as [v | v]; cbn [item_pow asarray];
    [reflexivity |].
  intros Hn. destruct (vget v i) as [x | | |] eqn:Hx; try reflexivity.
  destruct (Rlt_dec x 0) as [Hlt | _]; [| reflexivity].
  elim Hn. eauto.
Qed.

Lemma item_pow_negative (a : array_like) (i : nat) (y : R) :
  python_negative a i -> item_pow a i y = Raise TypeError.
Proof.
  intros (v & x & -> & Hx & Hneg). cbn [item_pow]. rewrite Hx.
  destruct (Rlt_dec x 0); [reflexivity | lra].
Qed.

Lemma python_negative_decide (a : array_like) (i : nat) :
  python_negative a i \/ ~ python_negative a i.
Proof.
  destruct a as [v | v].
  { right. intros (v' & x & Hv & _). discriminate. }
  destruct (vget v i) as [x | | |] eqn:Hx.
  - destruct (Rlt_dec x 0) as [Hlt | Hge]; [left; unfold python_negative; eauto |].
    right. intros (v' & x' & Hv & Hx' & Hn). injection Hv as <-.
    rewrite Hx in Hx'. injection Hx' as <-. lra.
  - right. intros (v' & x' & Hv & Hx' & _). injection Hv as <-. congruence.
  - right. intros (v' & x' & Hv & Hx' & _). injection Hv as <-. congruence.
  - right. intros (v' & x' & Hv & Hx' & _). injection Hv as <-. congruence.
Qed.

(** A triplet has three items: a negative one is the first, the second or
    the third. *)
Lemma python_negative_item (a : array_like) (i : nat) :
  python_negative a i ->
  python_negative a 0 \/ python_negative a 1 \/ python_negative a 2.
Proof.
  intros (v & x & -> & Hx & Hneg). unfold python_negative.
  destruct v as [[v0 v1] v2]. destruct i as [| [| i]]; cbn [vget] in Hx;
    [left | right; left | right; right]; exists (v0, v1, v2), x; auto.
Qed.

(** The loops that fill [df] return for a white point without negative
    Python numbers, and raise [TypeError] for one with such a number. *)
Lemma df_accepted (a : array_like) (g : nat -> nat -> float64 -> float64)
    (y : R) :
  (forall i : nat, ~ python_negative a i) ->
  vbuildM (fun i => vbuildM (fun j => w ← item_pow a i y; Ok (g i j w)))
  = Ok (vbuild (fun i => vbuild (fun j =>
          g i j (F64.pow (vget (asarray a) i) y)))).
Proof.
  intros Hacc. unfold vbuildM.
  rewrite !item_pow_accepted by apply Hacc. reflexivity.
Qed.

Lemma df_negative (a : array_like) (g : nat -> nat -> float64 -> float64)
    (y : R) (i : nat) :
  python_negative a i ->
  vbuildM (fun i => vbuildM (fun j => w ← item_pow a i y; Ok (g i j w)))
  = Raise TypeError.
Proof.
  intros Hneg. unfold vbuildM.
  destruct (python_negative_decide a 0) as [H0 | H0].
  { now rewrite (item_pow_negative a 0) by exact H0. }
  rewrite (item_pow_accepted a 0) by exact H0. rewrite !bind_Ok.
  destruct (python_negative_decide a 1) as [H1 | H1].
  { now rewrite (item_pow_negative a 1) by exact H1. }
  rewrite (item_pow_accepted a 1) by exact H1. rewrite !bind_Ok.
  destruct (python_negative_item a i Hneg) as [H | [H | H]];
    [contradiction | contradiction |].
  now rewrite (item_pow_negative a 2) by exact H.
Qed.

End WhitePoint.

(** ** The wavelength axis of the error function *)

Section NormalisedAxis.
Local Open Scope R_scope.

(** With one illuminant value and one row of colour-matching functions for
    each sample of the shape, at least two wavelengths, and a white point
    without negative Python numbers, the error function raises nothing. *)
Lemma error_function_body_returns (coefficients target : vec3)
    (shape : SpectralShape) (cmfs : MultiSpectralDistributions)
    (illuminant : SpectralDistribution) (illuminant_XYZ : array_like) :
  length (values illuminant) = length (range shape) ->
  length (msd_values cmfs) = length (range shape) ->
  (2 <= length (msd_wavelengths cmfs))%nat ->
  (forall i : nat, ~ python_negative illuminant_XYZ i) ->
  exists l, error_function_body coefficients target shape cmfs illuminant
              illuminant_XYZ = Ok l.
Proof.
  intros Hill Hcmfs Hwl Hacc. unfold error_function_body.
  set (n := length (range shape)) in *.
  set (wv := linspace (Num 0) (Num 1) n).
  assert (Hwv : length wv = n) by apply linspace_length.
  set (U := map (U_poly coefficients) wv).
  assert (HU : length U = n) by (unfold U; now rewrite length_map).
  set (t1 := map _ U).
  assert (Ht1 : length t1 = n) by (unfold t1; now rewrite length_map).
  set (R_ := zip_with _ U t1).
  assert (HR : length R_ = n)
    by (unfold R_; rewrite length_zip_with, HU, Ht1; apply Nat.min_id).
  set (t2 := zip_with _ U t1).
  assert (Ht2 : length t2 = n)
    by (unfold t2; rewrite length_zip_with, HU, Ht1; apply Nat.min_id).
  cbv zeta.
  rewrite !broadcast2_same_length
    by (unfold column;
        rewrite ?length_zip_with, ?length_map, ?Hwv, ?Ht2, ?HR, ?Hill,
          ?Hcmfs, ?Nat.min_id; reflexivity).
  rewrite !bind_Ok.
  destruct (py_index_nonneg (msd_wavelengths cmfs) 1 ltac:(lia)) as (w1 & -> & _).
  destruct (py_index_nonneg (msd_wavelengths cmfs) 0 ltac:(lia)) as (w0 & -> & _).
  rewrite !bind_Ok.
  unfold vbuildM.
  rewrite !np_dot_same_length
    by (unfold column;
        rewrite ?length_zip_with, ?length_map, ?Hwv, ?Ht2, ?HR, ?Hill,
          ?Hcmfs, ?Nat.min_id; reflexivity).
  rewrite !bind_Ok.
  rewrite !item_pow_accepted by apply Hacc.
  rewrite !bind_Ok. eauto.
Qed.

(** The first statements of the function, in terms of its locals. *)
Lemma error_function_body_axis coefficients target shape cmfs illuminant
    illuminant_XYZ l :
  error_function_body coefficients target shape cmfs illuminant illuminant_XYZ
  = Ok l ->
  let wv := linspace (Num 0) (Num 1) (length (range shape)) in
  let U := map (U_poly coefficients) wv in
  let t1 := map (fun u => F64.sqrt (Num 1 + u²)%f64) U in
  let t2 := zip_with (fun u t => (Num 1 / (Num 2 * t)
                                  - u² / (Num 2 * F64.cube t))%f64) U t1 in
  ef_wv l = wv
  /\ ef_U l = U
  /\ ef_R l = zip_with (fun u t => (Num 1 / Num 2 + u / (Num 2 * t))%f64) U t1
  /\ ef_dR l = (zip_with (fun w t => (w² * t)%f64) wv t2,
                zip_with (fun w t => (w * t)%f64) wv t2, t2).
Proof.
  unfold error_function_body. intros Hrun.
  repeat bind_inv Hrun. injection Hrun as <-. repeat split.
Qed.

(** C5. The error function evaluates [U], [R] and the derivatives [dR] over
    a wavelength axis normalised to [[0, 1]]: the points [i / (n - 1)], one
    for each of the [n] samples of the shape.  The shape enters in no other
    way: two shapes with the same number of samples give the same result,
    whatever their start, end and interval in nanometres; and with one
    illuminant value and one row of colour-matching functions for each
    sample, at least two wavelengths and a white point without negative
    Python numbers, that result is an error and a gradient, the same for
    both shapes. *)
Theorem error_function_depends_on_sample_count_only
    (coefficients target : vec3) (shape1 shape2 : SpectralShape)
    (cmfs : MultiSpectralDistributions) (illuminant : SpectralDistribution)
    (illuminant_XYZ : array_like) :
  let n := length (range shape1) in
  let body := fun shape =>
    error_function_body coefficients target shape cmfs illuminant
      illuminant_XYZ in
  let run := fun shape return_intermediates =>
    error_function_Jakob2019 coefficients target shape cmfs illuminant
      illuminant_XYZ return_intermediates in
  length (range shape2) = n ->
  (forall return_intermediates : bool,
      run shape1 return_intermediates = run shape2 return_intermediates)
  /\ (forall l : error_function_locals,
        body shape1 = Ok l ->
        (2 <= n)%nat ->
        body shape2 = Ok l
        /\ ef_wv l = map (fun i : nat => Num (INR i / INR (n - 1))) (seq 0 n)
        /\ forall i : nat,
             (i < n)%nat ->
             let t := Num (INR i / INR (n - 1)) in
             let U := U_poly coefficients t in
             let t1 := F64.sqrt (Num 1 + U²)%f64 in
             let t2 := (Num 1 / (Num 2 * t1)
                        - U² / (Num 2 * F64.cube t1))%f64 in
             ef_U l !! i = Some U
             /\ ef_R l !! i = Some (Num 1 / Num 2 + U / (Num 2 * t1))%f64
             /\ (ef_dR l).1.1 !! i = Some (t² * t2)%f64
             /\ (ef_dR l).1.2 !! i = Some (t * t2)%f64
             /\ (ef_dR l).2 !! i = Some t2)
  /\ (length (values illuminant) = n ->
      length (msd_values cmfs) = n ->
      (2 <= length (msd_wavelengths cmfs))%nat ->
      (forall i : nat, ~ python_negative illuminant_XYZ i) ->
      exists l : error_function_locals,
        body shape1 = Ok l
        /\ run shape1 false = Ok (ErrorGradient (ef_error l) (ef_derror l))
        /\ run shape2 false = Ok (ErrorGradient (ef_error l) (ef_derror l))).
Proof.
  intros n body run Hlen. subst body run. cbv beta.
  assert (Hbody : error_function_body coefficients target shape2 cmfs
                    illuminant illuminant_XYZ
                  = error_function_body coefficients target shape1 cmfs
                      illuminant illuminant_XYZ).
  { unfold error_function_body. now rewrite Hlen. }
  assert (Hrun : forall ri,
            error_function_Jakob2019 coefficients target shape1 cmfs
              illuminant illuminant_XYZ ri
            = error_function_Jakob2019 coefficients target shape2 cmfs
                illuminant illuminant_XYZ ri).
  { intros ri. unfold error_function_Jakob2019. now rewrite Hbody. }
  split; [exact Hrun |]. split.
  - intros l Hl Hn. split; [now rewrite Hbody |].
    destruct (error_function_body_axis _ _ _ _ _ _ _ Hl)
      as (Hwv & HU & HR & HdR).
    fold n in Hwv, HU, HR, HdR.
    split; [now rewrite Hwv, linspace_unit_eq, map_map by exact Hn |].
    intros i Hi t U t1 t2.
    assert (Ht : linspace (Num 0) (Num 1) n !! i = Some t)
      by now apply linspace_unit_lookup.
    rewrite HU, HR, HdR. cbn [fst snd].
    rewrite !lookup_zip_with, !list_lookup_fmap, Ht. cbn.
    repeat split.
  - intros Hill Hcmfs Hwl Hacc.
    destruct (error_function_body_returns coefficients target shape1 cmfs
                illuminant illuminant_XYZ Hill Hcmfs Hwl Hacc) as (l & Hl).
    exists l. split; [exact Hl |].
    rewrite <- Hrun. unfold error_function_Jakob2019. rewrite Hl.
    split; reflexivity.
Qed.

Lemma error_function_depends_on_sample_count_only_witness :
  exists l : error_function_locals,
    error_function_body grey (Num 0, Num 1, Num 0) unit_shape flat_cmfs
      flat_illuminant unit_white = Ok l
    /\ ef_wv l = [Num (INR 0 / INR (2 - 1)); Num (INR 1 / INR (2 - 1))]
    /\ error_function_Jakob2019 grey (Num 0, Num 1, Num 0) unit_shape
         flat_cmfs flat_illuminant unit_white false
       = Ok (ErrorGradient (ef_error l) (ef_derror l))
    /\ error_function_Jakob2019 grey (Num 0, Num 1, Num 0)
         (mkShape 400 700 300) flat_cmfs flat_illuminant unit_white false
       = Ok (ErrorGradient (ef_error l) (ef_derror l)).
Proof.
  assert (Hlen : length (range (mkShape 400 700 300))
                 = length (range unit_shape)).
  { rewrite !range_length. simpl.
    replace ((1 - 0) / 1) with 1 by lra.
    replace ((700 - 400) / 300) with 1 by lra.
    reflexivity. }
  destruct (error_function_depends_on_sample_count_only grey
              (Num 0, Num 1, Num 0) unit_shape (mkShape 400 700 300)
              flat_cmfs flat_illuminant unit_white Hlen)
    as (_ & Haxis & Hreturns).
  destruct Hreturns as (l & Hl & H1 & H2).
  - now rewrite range_unit_shape.
  - now rewrite range_unit_shape.
  - simpl. lia.
  - intros i (v & x & Hv & _). discriminate.
  - exists l. split; [exact Hl |].
    destruct (Haxis l Hl) as (_ & Hwv & _).
    { rewrite range_unit_shape. simpl. lia. }
    rewrite range_unit_shape in Hwv.
    split; [exact Hwv |]. split; assumption.
Defined.

End NormalisedAxis.

(** ** The inputs the error function accepts *)

Section ErrorFunctionExceptions.

(** X13. Which inputs [error_function_Jakob2019] accepts.  With [n]
    samples in the shape, [nI] illuminant values, [nC] rows of
    colour-matching functions and [nW] wavelengths of them: when [nI] and
    [n] do not broadcast (they differ and neither is 1) the function raises
    [ValueError]; otherwise, with fewer than two wavelengths, [IndexError];
    otherwise, when [nC] is not the broadcast length of [nI] and [n],
    [ValueError]; otherwise, when the white point is a sequence of Python
    numbers one of which is negative, [TypeError]; otherwise it returns. *)
Theorem error_function_raises_exactly_on_incompatible_samples
    (coefficients target : vec3) (shape : SpectralShape)
    (cmfs : MultiSpectralDistributions) (illuminant : SpectralDistribution)
    (illuminant_XYZ : array_like) (return_intermediates : bool) :
  let n := length (range shape) in
  let nI := length (values illuminant) in
  let nC := length (msd_values cmfs) in
  let nW := length (msd_wavelengths cmfs) in
  let run := error_function_Jakob2019 coefficients target shape cmfs
               illuminant illuminant_XYZ return_intermediates in
  (compatible nI n = false -> run = Raise ValueError)
  /\ (compatible nI n = true -> (nW < 2)%nat -> run = Raise IndexError)
  /\ (compatible nI n = true -> (2 <= nW)%nat ->
      nC <> broadcast_length nI n -> run = Raise ValueError)
  /\ (compatible nI n = true -> (2 <= nW)%nat ->
      nC = broadcast_length nI n ->
      (exists i : nat, python_negative illuminant_XYZ i) ->
      run = Raise TypeError)
  /\ (compatible nI n = true -> (2 <= nW)%nat ->
      nC = broadcast_length nI n ->
      (forall i : nat, ~ python_negative illuminant_XYZ i) ->
      exists v, run = Ok v).
Proof.
  intros n nI nC nW run. subst run.
  unfold error_function_Jakob2019, error_function_body.
  fold n.
  set (wv := linspace (Num 0) (Num 1) n).
  assert (Hwv : length wv = n) by apply linspace_length.
  set (U := map (U_poly coefficients) wv).
  assert (HU : length U = n) by (unfold U; now rewrite length_map).
  set (t1 := map _ U).
  assert (Ht1 : length t1 = n) by (unfold t1; now rewrite length_map).
  set (R_ := zip_with _ U t1).
  assert (HR : length R_ = n)
    by (unfold R_; rewrite length_zip_with, HU, Ht1; apply Nat.min_id).
  set (t2 := zip_with _ U t1).
  assert (Ht2 : length t2 = n)
    by (unfold t2; rewrite length_zip_with, HU, Ht1; apply Nat.min_id).
  set (dR0 := zip_with _ wv t2).
  assert (H0 : length dR0 = n)
    by (unfold dR0; rewrite length_zip_with, Hwv, Ht2; apply Nat.min_id).
  set (dR1 := zip_with _ wv t2).
  assert (H1 : length dR1 = n)
    by (unfold dR1; rewrite length_zip_with, Hwv, Ht2; apply Nat.min_id).
  cbv zeta.
  split.
  { intros Hc.
    rewrite (broadcast2_incompatible F64.mul (values illuminant) R_)
      by (fold nI; now rewrite HR).
    reflexivity. }
  assert (Hstart : compatible nI n = true ->
    exists E dE0 dE1 dE2,
      broadcast2 F64.mul (values illuminant) R_ = Ok E
      /\ broadcast2 F64.mul (values illuminant) dR0 = Ok dE0
      /\ broadcast2 F64.mul (values illuminant) dR1 = Ok dE1
      /\ broadcast2 F64.mul (values illuminant) t2 = Ok dE2
      /\ length E = broadcast_length nI n
      /\ length dE0 = broadcast_length nI n
      /\ length dE1 = broadcast_length nI n
      /\ length dE2 = broadcast_length nI n).
  { intros Hc.
    destruct (broadcast2_compatible F64.mul (values illuminant) R_)
      as (E & HE & LE); [fold nI; now rewrite HR |].
    destruct (broadcast2_compatible F64.mul (values illuminant) dR0)
      as (dE0 & HE0 & LE0); [fold nI; now rewrite H0 |].
    destruct (broadcast2_compatible F64.mul (values illuminant) dR1)
      as (dE1 & HE1 & LE1); [fold nI; now rewrite H1 |].
    destruct (broadcast2_compatible F64.mul (values illuminant) t2)
      as (dE2 & HE2 & LE2); [fold nI; now rewrite Ht2 |].
    fold nI in LE, LE0, LE1, LE2. rewrite HR in LE. rewrite H0 in LE0.
    rewrite H1 in LE1. rewrite Ht2 in LE2.
    exists E, dE0, dE1, dE2. auto 10. }
  split; [| split; [| split]].
  - intros Hc HW.
    destruct (Hstart Hc) as (E & dE0 & dE1 & dE2 & -> & -> & -> & -> & _).
    rewrite !bind_Ok.
    rewrite (py_index_out_of_range (msd_wavelengths cmfs) 1)
      by (fold nW; lia).
    reflexivity.
  - intros Hc HW HC.
    destruct (Hstart Hc)
      as (E & dE0 & dE1 & dE2 & -> & -> & -> & -> & LE & _).
    rewrite !bind_Ok.
    destruct (py_index_nonneg (msd_wavelengths cmfs) 1 ltac:(fold nW; lia))
      as (w1 & -> & _).
    destruct (py_index_nonneg (msd_wavelengths cmfs) 0 ltac:(fold nW; lia))
      as (w0 & -> & _).
    rewrite !bind_Ok.
    destruct (broadcast2 F64.mul (column 1 (msd_values cmfs))
                (values illuminant)) as [cy | e] eqn:Hcy.
    + rewrite bind_Ok. unfold vbuildM. cbv beta.
      rewrite (np_dot_mismatch E (column 0 (msd_values cmfs)));
        [reflexivity |].
      unfold column. rewrite length_map, LE. fold nC. congruence.
    + rewrite bind_Raise.
      unfold broadcast2 in Hcy.
      destruct (_ =? _)%nat; [discriminate |].
      destruct (column 1 (msd_values cmfs)) as [| x [| x' c']];
        destruct (values illuminant) as [| y [| y' i']];
        try discriminate; now injection Hcy as <-.
  - intros Hc HW HC [i Hneg].
    destruct (Hstart Hc)
      as (E & dE0 & dE1 & dE2 & -> & -> & -> & -> & LE & LE0 & LE1 & LE2).
    rewrite !bind_Ok.
    destruct (py_index_nonneg (msd_wavelengths cmfs) 1 ltac:(fold nW; lia))
      as (w1 & -> & _).
    destruct (py_index_nonneg (msd_wavelengths cmfs) 0 ltac:(fold nW; lia))
      as (w0 & -> & _).
    rewrite !bind_Ok.
    destruct (broadcast2_compatible F64.mul (column 1 (msd_values cmfs))
                (values illuminant)) as (cy & -> & _).
    { unfold column. rewrite length_map. fold nC nI. rewrite HC.
      unfold compatible, broadcast_length in *.
      destruct (Nat.eqb_spec nI 1) as [-> | Hne].
      - now rewrite orb_true_r.
      - now rewrite Nat.eqb_refl. }
    rewrite !bind_Ok. unfold vbuildM.
    rewrite !np_dot_same_length
      by (unfold column; rewrite length_map; fold nC; congruence).
    rewrite !bind_Ok.
    destruct (python_negative_decide illuminant_XYZ 0) as [Hn0 | Hn0].
    { now rewrite (item_pow_negative illuminant_XYZ 0) by exact Hn0. }
    rewrite (item_pow_accepted illuminant_XYZ 0) by exact Hn0.
    rewrite !bind_Ok.
    destruct (python_negative_decide illuminant_XYZ 1) as [Hn1 | Hn1].
    { now rewrite (item_pow_negative illuminant_XYZ 1) by exact Hn1. }
    rewrite (item_pow_accepted illuminant_XYZ 1) by exact Hn1.
    rewrite !bind_Ok.
    destruct (python_negative_item illuminant_XYZ i Hneg) as [H | [H | H]];
      [contradiction | contradiction |].
    now rewrite (item_pow_negative illuminant_XYZ 2) by exact H.
  - intros Hc HW HC Hacc.
    destruct (Hstart Hc)
      as (E & dE0 & dE1 & dE2 & -> & -> & -> & -> & LE & LE0 & LE1 & LE2).
    rewrite !bind_Ok.
    destruct (py_index_nonneg (msd_wavelengths cmfs) 1 ltac:(fold nW; lia))
      as (w1 & -> & _).
    destruct (py_index_nonneg (msd_wavelengths cmfs) 0 ltac:(fold nW; lia))
      as (w0 & -> & _).
    rewrite !bind_Ok.
    destruct (broadcast2_compatible F64.mul (column 1 (msd_values cmfs))
                (values illuminant)) as (cy & -> & _).
    { unfold column. rewrite length_map. fold nC nI. rewrite HC.
      unfold compatible, broadcast_length in *.
      destruct (Nat.eqb_spec nI 1) as [-> | Hne].
      - now rewrite orb_true_r.
      - now rewrite Nat.eqb_refl. }
    rewrite !bind_Ok. unfold vbuildM.
    rewrite !np_dot_same_length
      by (unfold column; rewrite length_map; fold nC; congruence).
    rewrite !bind_Ok.
    rewrite !item_pow_accepted by apply Hacc.
    rewrite !bind_Ok. destruct return_intermediates; eauto.
Qed.

End ErrorFunctionExceptions.

Lemma error_function_raises_exactly_on_incompatible_samples_witness :
  error_function_Jakob2019 grey grey unit_shape flat_cmfs
    (mkSD [Num 1; Num 1; Num 1] [Num 0; Num 1; Num 2] (Named "E")) unit_white
    false
  = Raise ValueError
  /\ error_function_Jakob2019 grey grey unit_shape flat_cmfs flat_illuminant
       (Sequence (Num (-50), Num 50, Num 50)) false
     = Raise TypeError
  /\ exists v, error_function_Jakob2019 grey grey unit_shape flat_cmfs
                 flat_illuminant (Sequence (Num 50, Num 50, Num 50)) false
               = Ok v.
Proof.
  split; [| split].
  - destruct (error_function_raises_exactly_on_incompatible_samples grey grey
                unit_shape flat_cmfs
                (mkSD [Num 1; Num 1; Num 1] [Num 0; Num 1; Num 2] (Named "E"))
                unit_white false) as [Hraise _].
    apply Hraise. rewrite range_unit_shape. reflexivity.
  - destruct (error_function_raises_exactly_on_incompatible_samples grey grey
                unit_shape flat_cmfs flat_illuminant
                (Sequence (Num (-50), Num 50, Num 50)) false)
      as (_ & _ & _ & Hraise & _).
    apply Hraise; try (rewrite range_unit_shape; reflexivity);
      [simpl; lia |].
    exists 0%nat, (Num (-50), Num 50, Num 50), (-50)%R.
    repeat split; lra.
  - destruct (error_function_raises_exactly_on_incompatible_samples grey grey
                unit_shape flat_cmfs flat_illuminant
                (Sequence (Num 50, Num 50, Num 50)) false)
      as (_ & _ & _ & _ & Hret).
    apply Hret; try (rewrite range_unit_shape; reflexivity);
      [simpl; lia |].
    intros i (v & x & Hv & Hx & Hlt). injection Hv as <-.
    destruct i as [| [| i]]; cbn [vget] in Hx; injection Hx as <-; lra.
Defined.

Section LuminanceOfModel.
Local Open Scope R_scope.

(** X14. The luminance the error function computes for the model is
    normalised (exact arithmetic): with finite coefficients, at least two
    samples, one finite non-negative illuminant value and one row of finite
    colour-matching values (with [y_bar >= 0]) for each sample, a positive
    sum of [y_bar * illuminant], two distinct first wavelengths and a white
    point without negative Python numbers, the function returns and its
    tristimulus value [Y] is a real number strictly between 0 and 100. *)
Theorem luminance_of_model_is_between_0_and_100
    (c : R3) (target : vec3) (shape : SpectralShape)
    (cmfs : MultiSpectralDistributions) (illuminant : SpectralDistribution)
    (illuminant_XYZ : array_like) (I : list R) (M : list R3) (w0 w1 : R) :
  (2 <= length (range shape))%nat ->
  values illuminant = map Num I ->
  msd_values cmfs = map vnum M ->
  length I = length (range shape) ->
  length M = length (range shape) ->
  msd_wavelengths cmfs !! 0%nat = Some (Num w0) ->
  msd_wavelengths cmfs !! 1%nat = Some (Num w1) ->
  w0 <> w1 ->
  Forall (fun x => 0 <= x) I ->
  Forall (fun m => 0 <= channel m 1) M ->
  0 < rsum (zip_with Rmult (map (fun m => channel m 1) M) I) ->
  (forall i : nat, ~ python_negative illuminant_XYZ i) ->
  exists (l : error_function_locals) (Y : R),
    error_function_body (vnum c) target shape cmfs illuminant illuminant_XYZ
    = Ok l
    /\ vget (ef_XYZ l) 1 = Num Y
    /\ 0 < Y < 100.
Proof.
  intros Hn Hill Hcmfs HI HM Hw0 Hw1 Hdw HposI HposM HS Hacc.
  destruct (error_function_body_returns (vnum c) target shape cmfs illuminant
              illuminant_XYZ) as (l & Hl).
  { now rewrite Hill, length_map. }
  { now rewrite Hcmfs, length_map. }
  { apply lookup_lt_Some in Hw1. lia. }
  { exact Hacc. }
  pose proof (error_function_body_R _ _ _ _ _ _ _ Hl) as HR.
  destruct (error_function_body_Y _ _ _ _ _ _ _ Hl)
    as (E & cy & w1' & w0' & d & HE & Hi1 & Hi0 & Hcy & Hd & HY).
  pose proof (py_index_lookup _ 1 _ Hw1) as Hp1.
  pose proof (py_index_lookup _ 0 _ Hw0) as Hp0.
  change (Z.of_nat 1) with 1%Z in Hp1. change (Z.of_nat 0) with 0%Z in Hp0.
  rewrite Hp1 in Hi1. injection Hi1 as <-.
  rewrite Hp0 in Hi0. injection Hi0 as <-.
  (* the reflectance as a list of reals *)
  set (n := length (range shape)) in *.
  rewrite linspace_unit_eq in HR by exact Hn.
  set (ts := map (fun i : nat => INR i / INR (n - 1)) (seq 0 n)) in *.
  set (rs := map (fun t => sigmoid (channel c 0 * (t * t) + channel c 1 * t
                                    + channel c 2)) ts).
  assert (HRs : ef_R l = map Num rs).
  { rewrite HR. unfold rs. rewrite !map_map. apply map_ext. intros t.
    cbv zeta. now rewrite reflectance_value, U_poly_value. }
  assert (Lrs : length rs = n).
  { unfold rs, ts. now rewrite !length_map, length_seq. }
  set (ys := map (fun m => channel m 1) M) in *.
  assert (Lys : length ys = n) by (unfold ys; now rewrite length_map).
  (* the sums *)
  rewrite Hill, HRs, broadcast2_same_length in HE
    by (rewrite !length_map; lia).
  injection HE as <-.
  rewrite Hcmfs, column_Num in Hcy, Hd. fold ys in Hcy, Hd.
  rewrite Hill, broadcast2_same_length in Hcy by (rewrite !length_map; lia).
  injection Hcy as <-.
  rewrite zip_with_mul_Num, np_dot_same_length in Hd
    by (rewrite !length_map, length_zip_with; lia).
  injection Hd as <-.
  rewrite !zip_with_mul_Num, !np_sum_Num in HY.
  destruct (weighted_sum_bounds I rs ys) as [_ Hbounds]; try lia.
  { exact HposI. }
  { unfold ys. apply Forall_fmap. exact HposM. }
  { unfold rs. apply Forall_fmap, Forall_forall. intros t _.
    apply sigmoid_bounds. }
  cbv zeta in Hbounds. specialize (Hbounds HS).
  set (weighted := rsum (zip_with Rmult (zip_with Rmult I rs) ys)) in *.
  set (total := rsum (zip_with Rmult ys I)) in *.
  assert (Hden : total * (w1 - w0) <> 0).
  { apply Rmult_integral_contrapositive_currified; lra. }
  rewrite sub_Num, mul_Num, div_Num, !mul_Num in HY by exact Hden.
  exists l, (100 / (total * (w1 - w0)) * weighted * (w1 - w0)).
  split; [exact Hl |]. split; [exact HY |].
  replace (100 / (total * (w1 - w0)) * weighted * (w1 - w0))
    with (100 * (weighted / total)) by (field; lra).
  assert (0 < weighted / total < 1); [| lra].
  assert (0 < / total) by (apply Rinv_0_lt_compat; lra).
  unfold Rdiv. split.
  - apply Rmult_lt_0_compat; lra.
  - apply (Rmult_lt_reg_r total); [lra |].
    rewrite Rmult_assoc, Rinv_l by lra. lra.
Qed.

Lemma luminance_of_model_is_between_0_and_100_witness :
  exists (l : error_function_locals) (Y : R),
    error_function_body (vnum (0, 0, 0)) grey unit_shape flat_cmfs
      flat_illuminant unit_white = Ok l
    /\ vget (ef_XYZ l) 1 = Num Y
    /\ 0 < Y < 100.
Proof.
  apply (luminance_of_model_is_between_0_and_100 (0, 0, 0) grey unit_shape
           flat_cmfs flat_illuminant unit_white [1; 1]
           [(1, 1, 1); (1, 1, 1)] 0 1);
    try reflexivity; try (rewrite range_unit_shape; simpl; lia).
  - lra.
  - repeat constructor; lra.
  - repeat constructor; cbn; lra.
  - cbn. lra.
  - intros i (v & x & Hv & _). discriminate.
Defined.


End LuminanceOfModel.
